(** * gonoteflow: the website archiver of [internal/services/notemanager.go]

    A shallow embedding of the archiving code of [NoteManager]
    ([processArchiveLinks], [archiveWebsite], [sanitizeFilename],
    [inlineAllResources] and the inlining passes, [resolveURL],
    [downloadResource], [downloadAndEncodeImage], [processCSS]) together with
    the parts of Go's standard library they call, and the properties of the
    specification stated and settled against it.

    Go strings are byte strings: they are modelled by [string], one [ascii]
    per byte.  The network, the clock, the file system and [net/url] are the
    fields of a [World]; the answers of the network and the reading of the
    clock are taken to stay the same during a call.  A function that may
    block for ever (a peer that stalls, a recursion that never ends) returns
    [option], [None] standing for "does not return"; the recursion of
    [processCSS] is bounded by a fuel, and a result does not depend on the
    fuel that gave it ([processCSS_fuel]).

    The bookkeeping of the notes and their tasks in the same file
    ([assignTaskIndices], [reassignTaskIndicesFromNote], [AddNote],
    [UpdateNote], [DeleteNote], [GetNote], [save], [DeleteArchivedSite]) is
    embedded in [Notebook]: notes and tasks are addresses into a heap, Go's
    [int] wraps at 64 bits, the packages [models] and [storage] are the
    fields of an [Env], and a call that panics returns [None].  The
    numbering of the checkboxes of a note by the renderer
    ([preprocessCheckboxes]) is embedded in [Renderer]. *)

From Stdlib Require Import String Ascii List Bool Arith NArith ZArith Lia.
From Stdlib Require Import DecimalString.
Import ListNotations.

#[local] Open Scope string_scope.
#[local] Open Scope bool_scope.

Set Implicit Arguments.

(* ================================================================== *)
(** * Byte strings *)

Module Bytes.

(** The double quote, which a literal cannot hold. *)
Definition dquote : ascii := ascii_of_nat 34.
Definition DQ : string := String dquote "".
Definition tab : ascii := ascii_of_nat 9.
Definition nl : ascii := ascii_of_nat 10.
Definition vt : ascii := ascii_of_nat 11.
Definition ff : ascii := ascii_of_nat 12.
Definition cr : ascii := ascii_of_nat 13.
Definition NL : string := String nl "".
Definition TAB : string := String tab "".

Definition mem (a : ascii) (l : list ascii) : bool :=
  existsb (Ascii.eqb a) l.

(** [s[:n]] and [s[n:]] (for [n <= len(s)]). *)
Fixpoint take (n : nat) (s : string) : string :=
  match n, s with
  | S n', String a s' => String a (take n' s')
  | _, _ => ""
  end.

Fixpoint drop (n : nat) (s : string) : string :=
  match n, s with
  | S n', String _ s' => drop n' s'
  | _, _ => s
  end.

(** The same with a binary count, for the large limits of the readers. *)
Fixpoint takeN (s : string) (n : N) : string :=
  match s with
  | "" => ""
  | String a s' => if (n =? 0)%N then "" else String a (takeN s' (N.pred n))
  end.

Fixpoint lengthN (s : string) : N :=
  match s with
  | "" => 0%N
  | String _ s' => N.succ (lengthN s')
  end.

(** [l] is a prefix of [s]: what is left of [s] after it. *)
Fixpoint strip (l s : string) : option string :=
  match l, s with
  | "", _ => Some s
  | String a l', String b s' => if Ascii.eqb a b then strip l' s' else None
  | String _ _, "" => None
  end.

Fixpoint rev_onto (s acc : string) : string :=
  match s with
  | "" => acc
  | String a s' => rev_onto s' (String a acc)
  end.

Definition rev (s : string) : string := rev_onto s "".

Fixpoint all (p : ascii -> bool) (s : string) : bool :=
  match s with
  | "" => true
  | String a s' => p a && all p s'
  end.

Fixpoint flat (l : list string) : string :=
  match l with
  | [] => ""
  | x :: l' => x ++ flat l'
  end.

(** First and last byte. *)
Definition first (s : string) : option ascii :=
  match s with "" => None | String a _ => Some a end.

Fixpoint last (s : string) : option ascii :=
  match s with
  | "" => None
  | String a "" => Some a
  | String _ s' => last s'
  end.

End Bytes.

Import Bytes.

(* ================================================================== *)
(** * Go's [regexp], for the patterns of the program

  Every pattern the archiver compiles is built from literals, character
  classes, sequence, alternation, an optional sub-pattern, greedy
  repetition of a single class and capture groups; none has an anchor.
  Go's matcher returns the leftmost match and, among those, the one a
  backtracking search prefers; [run] is that search, written with a
  continuation.  The classes are sets of ASCII bytes or complements of such
  sets, and every pattern starts with an ASCII byte, so matching byte by
  byte and matching rune by rune find the same matches. *)

Module Regexp.

(** A character class: the listed bytes, or ([true]) all the others. *)
Record cls : Type := Class { negated : bool; members : list ascii }.

Definition cls_mem (c : cls) (a : ascii) : bool :=
  xorb (negated c) (mem a (members c)).

(** Perl's [\s] is [[\t\n\f\r ]]. *)
Definition perl_space : list ascii := [tab; nl; ff; cr; " "%char].

Definition bytes_of (s : string) : list ascii := list_ascii_of_string s.

Inductive re : Type :=
| Lit (l : string)              (* the bytes of [l] *)
| One (c : cls)                 (* [c] *)
| Star (c : cls)                (* [c*] *)
| Plus (c : cls)                (* [c+] *)
| Opt (r : re)                  (* [(?:r)?] *)
| Seq (r1 r2 : re)              (* [r1 r2] *)
| Alt (r1 r2 : re)              (* [r1|r2] *)
| Cap (n : nat) (r : re).       (* the [n]-th capture group *)

(** Capture positions, relative to the start of the match; the binding
    nearest the head is the current one. *)
Definition caps : Type := list (nat * (nat * nat)).

Definition cont : Type := string -> nat -> caps -> option (nat * caps).

Fixpoint star (c : cls) (s : string) (pos : nat) (cs : caps) (k : cont)
  : option (nat * caps) :=
  match s with
  | String a s' =>
      if cls_mem c a then
        match star c s' (S pos) cs k with
        | Some x => Some x
        | None => k s pos cs
        end
      else k s pos cs
  | "" => k s pos cs
  end.

Fixpoint run (r : re) (s : string) (pos : nat) (cs : caps) (k : cont)
  : option (nat * caps) :=
  match r with
  | Lit l =>
      match strip l s with
      | Some s' => k s' (pos + String.length l) cs
      | None => None
      end
  | One c =>
      match s with
      | String a s' => if cls_mem c a then k s' (S pos) cs else None
      | "" => None
      end
  | Star c => star c s pos cs k
  | Plus c =>
      match s with
      | String a s' => if cls_mem c a then star c s' (S pos) cs k else None
      | "" => None
      end
  | Opt r1 =>
      match run r1 s pos cs k with
      | Some x => Some x
      | None => k s pos cs
      end
  | Seq r1 r2 => run r1 s pos cs (fun s' p' cs' => run r2 s' p' cs' k)
  | Alt r1 r2 =>
      match run r1 s pos cs k with
      | Some x => Some x
      | None => run r2 s pos cs k
      end
  | Cap n r1 => run r1 s pos cs (fun s' p' cs' => k s' p' ((n, (pos, p')) :: cs'))
  end.

Definition accept : cont := fun _ p cs => Some (p, cs).

(** A match of [r] at the start of [s]: its length and its groups. *)
Definition matchPrefix (r : re) (s : string) : option (nat * caps) :=
  run r s 0 [] accept.

(** The leftmost match in [s]: the text before it, the match (length and
    groups) and the text from where it starts. *)
Fixpoint find (r : re) (s : string) : option (string * (nat * caps * string)) :=
  match matchPrefix r s with
  | Some (n, cs) => Some ("", (n, cs, s))
  | None =>
      match s with
      | "" => None
      | String a s' =>
          match find r s' with
          | Some (pre, x) => Some (String a pre, x)
          | None => None
          end
      end
  end.

Fixpoint numSubexp (r : re) : nat :=
  match r with
  | Lit _ | One _ | Star _ | Plus _ => 0
  | Opt r1 => numSubexp r1
  | Seq r1 r2 | Alt r1 r2 => Nat.max (numSubexp r1) (numSubexp r2)
  | Cap n r1 => Nat.max n (numSubexp r1)
  end.

Record Match : Type := MkMatch { m_text : string; m_caps : caps }.

Fixpoint lookup (i : nat) (cs : caps) : option (nat * nat) :=
  match cs with
  | [] => None
  | (j, se) :: cs' => if Nat.eqb i j then Some se else lookup i cs'
  end.

(** The text of group [i]; empty when the group took no part. *)
Definition group (m : Match) (i : nat) : string :=
  match lookup i (m_caps m) with
  | Some (b, e) => take (e - b) (drop b (m_text m))
  | None => ""
  end.

Definition submatches (r : re) (m : Match) : list string :=
  m_text m :: map (group m) (seq 1 (numSubexp r)).

(** [re.FindStringSubmatch(s)]: [nil] without a match. *)
Definition FindStringSubmatch (r : re) (s : string) : list string :=
  match find r s with
  | None => []
  | Some (_, (n, cs, s1)) => submatches r (MkMatch (take n s1) cs)
  end.

(** The successive matches of [r] in [s], each with the unmatched text
    before it, and the unmatched text after the last: the loop shared by
    [replaceAll] and [allMatches].  After a match the search resumes where
    it ended; an empty match is passed over by one byte, and dropped when it
    directly follows the previous match. *)
Definition push (a : ascii) (x : list (string * Match) * string)
  : list (string * Match) * string :=
  match x with
  | ([], t) => ([], String a t)
  | ((p, m) :: l, t) => ((String a p, m) :: l, t)
  end.

Fixpoint segments_from (fuel : nat) (r : re) (s : string) (adj : bool)
  : list (string * Match) * string :=
  match fuel with
  | 0 => ([], s)
  | S fuel' =>
      match find r s with
      | None => ([], s)
      | Some (pre, (n, cs, s1)) =>
          match n with
          | S _ =>
              let '(l, t) := segments_from fuel' r (drop n s1) true in
              ((pre, MkMatch (take n s1) cs) :: l, t)
          | 0 =>
              let here :=
                match pre with
                | "" => if adj then [] else [(pre, MkMatch "" cs)]
                | _ => [(pre, MkMatch "" cs)]
                end in
              match s1 with
              | "" => (here, "")
              | String a s1' =>
                  let '(l, t) := push a (segments_from fuel' r s1' false) in
                  ((here ++ l)%list, t)
              end
          end
      end
  end.

Definition segments (r : re) (s : string) : list (string * Match) * string :=
  segments_from (S (String.length s)) r s false.

(** [re.FindAllString(s, -1)]. *)
Definition FindAllString (r : re) (s : string) : list string :=
  map (fun pm => m_text (snd pm)) (fst (segments r s)).

(** Putting the pieces back with each match replaced by [f]. *)
Fixpoint join (f : Match -> string) (l : list (string * Match)) (t : string)
  : string :=
  match l with
  | [] => t
  | (pre, m) :: l' => pre ++ f m ++ join f l' t
  end.

(** The same when the replacement function may not return: the calls are
    made in the order of the matches. *)
Fixpoint joinM (f : Match -> option string) (l : list (string * Match))
  (t : string) : option string :=
  match l with
  | [] => Some t
  | (pre, m) :: l' =>
      match f m with
      | None => None
      | Some x =>
          match joinM f l' t with
          | None => None
          | Some y => Some (pre ++ x ++ y)
          end
      end
  end.

(** [re.ReplaceAllStringFunc(src, repl)]. *)
Definition ReplaceAllStringFunc (r : re) (src : string) (repl : string -> string)
  : string :=
  let '(l, t) := segments r src in join (fun m => repl (m_text m)) l t.

Definition ReplaceAllStringFuncM (r : re) (src : string)
  (repl : string -> option string) : option string :=
  let '(l, t) := segments r src in joinM (fun m => repl (m_text m)) l t.


(** ** Templates: [re.ReplaceAllString(src, repl)]

    [$name] and [${name}] in [repl] stand for a group.  A name is the
    longest run of letters, digits and underscores; which runes beyond
    ASCII are letters or digits is Unicode's, and is left to [word_width]:
    for a string that starts with a byte above 127, the width of its first
    rune when that rune is a letter or a digit, and 0 otherwise. *)
Section Expand.
Variable word_width : string -> nat.

Definition is_digit (a : ascii) : bool :=
  ((48 <=? nat_of_ascii a) && (nat_of_ascii a <=? 57))%nat.

Definition is_ascii_word (a : ascii) : bool :=
  let n := nat_of_ascii a in
  is_digit a || ((65 <=? n) && (n <=? 90))%nat || ((97 <=? n) && (n <=? 122))%nat
  || (n =? 95)%nat.

Fixpoint name_len (fuel : nat) (str : string) : nat :=
  match fuel, str with
  | S fuel', String a s' =>
      if is_ascii_word a then S (name_len fuel' s')
      else if (nat_of_ascii a <? 128)%nat then 0
      else match word_width str with
           | 0 => 0
           | S w => S w + name_len fuel' (drop (S w) str)
           end
  | _, _ => 0
  end.

(** The number a name denotes; [None] is Go's -1. *)
Fixpoint name_num (name : string) (num : N) : option N :=
  match name with
  | "" => Some num
  | String a name' =>
      if negb (is_digit a) || (100000000 <=? num)%N then None
      else name_num name' (num * 10 + N.of_nat (nat_of_ascii a - 48))%N
  end.

Definition HasPrefix0 (name : string) : bool :=
  match name with
  | String a _ => Ascii.eqb a "0"
  | "" => false
  end.

Definition extract (str : string) : option (string * option N * string) :=
  match str with
  | "" => None
  | String a s' =>
      let brace := Ascii.eqb a "{" in
      let str := if brace then s' else str in
      let i := name_len (String.length str) str in
      if (i =? 0)%nat then None
      else
        let name := take i str in
        let after := drop i str in
        let num :=
          if HasPrefix0 name && (1 <? String.length name)%nat then None
          else name_num name 0 in
        if brace then
          match after with
          | String b rest =>
              if Ascii.eqb b "}" then Some (name, num, rest) else None
          | "" => None
          end
        else Some (name, num, after)
  end.

(** The text up to the first [$], and what follows it. *)
Fixpoint cut_dollar (t : string) : option (string * string) :=
  match t with
  | "" => None
  | String a t' =>
      if Ascii.eqb a "$" then Some ("", t')
      else match cut_dollar t' with
           | Some (b, r) => Some (String a b, r)
           | None => None
           end
  end.

(** Group [num] of a match of a pattern with [nsub] groups; group 0 is
    the match.  None of the patterns names a group. *)
Definition expand_group (nsub : nat) (m : Match) (num : option N) : string :=
  match num with
  | Some 0%N => m_text m
  | Some k => if (N.to_nat k <=? nsub)%nat then group m (N.to_nat k) else ""
  | None => ""
  end.

Fixpoint expand (fuel : nat) (nsub : nat) (template : string) (m : Match)
  : string :=
  match fuel with
  | 0 => template
  | S fuel' =>
      match cut_dollar template with
      | None => template
      | Some (before, after) =>
          let variable :=
            match extract after with
            | None => before ++ "$" ++ expand fuel' nsub after m
            | Some (_, num, rest) =>
                before ++ expand_group nsub m num ++ expand fuel' nsub rest m
            end in
          match after with
          | String a rest =>
              if Ascii.eqb a "$"
              then before ++ "$" ++ expand fuel' nsub rest m
              else variable
          | "" => variable
          end
      end
  end.

Definition Expand (r : re) (template : string) (m : Match) : string :=
  expand (S (String.length template)) (numSubexp r) template m.

Definition ReplaceAllString (r : re) (src repl : string) : string :=
  let '(l, t) := segments r src in join (Expand r repl) l t.
End Expand.

(** ** Notions for the facts below *)

(** The bytes outside a class, and the length of the run of bytes of the
    class at the start of a string. *)
Definition outside (c : cls) (a : ascii) : bool := negb (cls_mem c a).

Fixpoint run_length (c : cls) (s : string) : nat :=
  match s with
  | "" => 0
  | String a s' => if cls_mem c a then S (run_length c s') else 0
  end.

(** A match that comes from the matcher. *)
Definition from_match (r : re) (m : Match) : Prop :=
  exists n s1, matchPrefix r s1 = Some (n, m_caps m) /\ m_text m = take n s1.

(** A text without [$]. *)
Definition no_dollar (s : string) : bool :=
  all (fun a => negb (Ascii.eqb a "$")) s.

(** The strings a pattern matches in full. *)
Fixpoint lang (r : re) (u : string) : Prop :=
  match r with
  | Lit l => u = l
  | One c => exists a, u = String a "" /\ cls_mem c a = true
  | Star c => all (cls_mem c) u = true
  | Plus c => u <> "" /\ all (cls_mem c) u = true
  | Opt r1 => u = "" \/ lang r1 u
  | Seq r1 r2 => exists u1 u2, u = u1 ++ u2 /\ lang r1 u1 /\ lang r2 u2
  | Alt r1 r2 => lang r1 u \/ lang r2 u
  | Cap _ r1 => lang r1 u
  end.

End Regexp.

Import Regexp.

(* ================================================================== *)
(** * The other library functions the archiver calls *)

Module Strings.

Definition HasPrefix (s p : string) : bool :=
  match strip p s with Some _ => true | None => false end.

Definition TrimPrefix (s p : string) : string :=
  match strip p s with Some t => t | None => s end.

Fixpoint Contains (s sub : string) : bool :=
  HasPrefix s sub ||
  match s with
  | "" => false
  | String _ s' => Contains s' sub
  end.

(** [strings.Replace(s, old, new, 1)]: the first occurrence of [old]. *)
Fixpoint Replace1 (s old new : string) : string :=
  match strip old s with
  | Some t => new ++ t
  | None =>
      match s with
      | "" => ""
      | String a s' => String a (Replace1 s' old new)
      end
  end.

Fixpoint TrimLeft (s : string) (cutset : list ascii) : string :=
  match s with
  | "" => ""
  | String a s' => if mem a cutset then TrimLeft s' cutset else s
  end.

Fixpoint TrimRight (s : string) (cutset : list ascii) : string :=
  match s with
  | "" => ""
  | String a s' =>
      match TrimRight s' cutset with
      | "" => if mem a cutset then "" else String a ""
      | t => String a t
      end
  end.

Definition Trim (s : string) (cutset : list ascii) : string :=
  TrimRight (TrimLeft s cutset) cutset.

(** [strings.TrimSpace]: the white space of Unicode, in UTF-8. *)
Definition utf8 (l : list nat) : string :=
  string_of_list_ascii (map ascii_of_nat l).

Definition white_space : list string :=
  map utf8
    ([[9]; [10]; [11]; [12]; [13]; [32]; [194; 133]; [194; 160];
      [225; 154; 128]]
     ++ map (fun k => [226; 128; 128 + k]) (seq 0 11)
     ++ [[226; 128; 168]; [226; 128; 169]; [226; 128; 175]; [226; 129; 159];
         [227; 128; 128]])%list.

Fixpoint strip_any (l : list string) (s : string) : option string :=
  match l with
  | [] => None
  | p :: l' =>
      match strip p s with
      | Some t => Some t
      | None => strip_any l' s
      end
  end.

Fixpoint trim_left_any (l : list string) (fuel : nat) (s : string) : string :=
  match fuel with
  | 0 => s
  | S fuel' =>
      match strip_any l s with
      | Some t => trim_left_any l fuel' t
      | None => s
      end
  end.

Definition TrimSpace (s : string) : string :=
  let t := trim_left_any white_space (String.length s) s in
  Bytes.rev
    (trim_left_any (map Bytes.rev white_space) (String.length t) (Bytes.rev t)).

(** [strings.ToLower] on ASCII; beyond ASCII the lower case of a rune is
    Unicode's, and the code's use of it goes through the [World]. *)
Definition lower_ascii (a : ascii) : ascii :=
  let n := nat_of_ascii a in
  if ((65 <=? n) && (n <=? 90))%nat then ascii_of_nat (n + 32) else a.

Fixpoint ToLowerASCII (s : string) : string :=
  match s with
  | "" => ""
  | String a s' => String (lower_ascii a) (ToLowerASCII s')
  end.

End Strings.

Module Path.

(** [path.Ext]: from the last dot of the last element of the path. *)
Fixpoint ext_rev (r acc : string) : string :=
  match r with
  | "" => ""
  | String a r' =>
      if Ascii.eqb a "/" then ""
      else if Ascii.eqb a "." then String a acc
      else ext_rev r' (String a acc)
  end.

Definition Ext (p : string) : string := ext_rev (Bytes.rev p) "".

End Path.

Module Base64.

Definition alphabet : string :=
  "ABCDEFGHIJKLMNOPQRSTUVWXYZabcdefghijklmnopqrstuvwxyz0123456789+/".

Definition digit (n : N) : string :=
  match String.get (N.to_nat (n mod 64)) alphabet with
  | Some a => String a ""
  | None => ""
  end.

(** [base64.StdEncoding.EncodeToString]. *)
Fixpoint EncodeToString (src : string) : string :=
  match src with
  | "" => ""
  | String a "" =>
      let v := (N_of_ascii a * 65536)%N in
      digit (v / 262144) ++ digit (v / 4096) ++ "=="
  | String a (String b "") =>
      let v := (N_of_ascii a * 65536 + N_of_ascii b * 256)%N in
      digit (v / 262144) ++ digit (v / 4096) ++ digit (v / 64) ++ "="
  | String a (String b (String c rest)) =>
      let v := (N_of_ascii a * 65536 + N_of_ascii b * 256 + N_of_ascii c)%N in
      digit (v / 262144) ++ digit (v / 4096) ++ digit (v / 64) ++ digit v
      ++ EncodeToString rest
  end.

End Base64.

Module Time.

Record Time : Type :=
  { year : nat; month : nat; day : nat; hour : nat; minute : nat; second : nat }.

(** A number in decimal, padded with zeros to [width] digits. *)
Definition decimal (n : nat) : string := NilEmpty.string_of_uint (Nat.to_uint n).

Fixpoint zeros (k : nat) : string :=
  match k with 0 => "" | S k' => String "0" (zeros k') end.

Definition pad (width n : nat) : string :=
  let d := match n with 0 => "0" | _ => decimal n end in
  zeros (width - String.length d) ++ d.

(** [t.Format("2006_01_02_150405")] *)
Definition Format_file (t : Time) : string :=
  pad 4 (year t) ++ "_" ++ pad 2 (month t) ++ "_" ++ pad 2 (day t) ++ "_"
  ++ pad 2 (hour t) ++ pad 2 (minute t) ++ pad 2 (second t).

(** [t.Format("2006-01-02 15:04")] *)
Definition Format_minute (t : Time) : string :=
  pad 4 (year t) ++ "-" ++ pad 2 (month t) ++ "-" ++ pad 2 (day t) ++ " "
  ++ pad 2 (hour t) ++ ":" ++ pad 2 (minute t).

(** [t.Format("2006-01-02 15:04:05")] *)
Definition Format_second (t : Time) : string :=
  Format_minute t ++ ":" ++ pad 2 (second t).

End Time.

(** ** [net/http] and [io]

    What [http.Get] gives: an error, nothing at all (the peer accepts the
    connection and never answers: [http.Get] is [DefaultClient.Get], and
    [DefaultClient] has no [Timeout]), or a response.  The body of a response
    is the bytes the peer delivers, and what follows them: the end of the
    stream, a read error, or nothing more. *)
Module Http.

Inductive BodyEnd : Type := EOF | ReadError | Stalls.

Record Response : Type :=
  { StatusCode : Z;
    ContentType : string;        (* [resp.Header.Get("Content-Type")] *)
    Body : string;
    BodyEnd_ : BodyEnd }.

Inductive GetResult : Type :=
| Failed                          (* [err != nil] *)
| Hangs                           (* the call does not return *)
| Responded (resp : Response).

(** The outcome of a read: [None] when it does not return, [Some None] on an
    error, [Some (Some b)] with the bytes read. *)
Definition at_end (r : Response) : option (option string) :=
  match BodyEnd_ r with
  | EOF => Some (Some (Body r))
  | ReadError => Some None
  | Stalls => None
  end.

(** [io.ReadAll(resp.Body)] *)
Definition ReadAll (r : Response) : option (option string) := at_end r.

(** [io.ReadAll(io.LimitReader(resp.Body, n))]: the limited reader reports
    the end of the stream once [n] bytes have been read, and does not read
    the body further. *)
Definition ReadAllLimited (r : Response) (n : N) : option (option string) :=
  if (n <=? lengthN (Body r))%N then Some (Some (takeN (Body r) n))
  else at_end r.

End Http.

(* ================================================================== *)
(** * The world around the archiver *)

(** A parsed URL, as far as the code looks at it. *)
Record URL : Type := MkURL { Host : string; url_String : string }.

(** What [os.WriteFile(name, data, perm)] did.  It opens the file, creating
    or truncating it, writes the data and closes the file: an error of the
    opening leaves no file, and an error after it leaves the file with the
    bytes written until then (all of them when the closing fails). *)
Inductive WriteResult : Type :=
| Written                 (* [err == nil] *)
| NotOpened               (* an error, and the file was not opened *)
| Broken (kept : nat).    (* an error, the first [kept] bytes in the file *)

Record World : Type :=
  { url_Parse : string -> option URL;             (* [url.Parse(s)] *)
    url_ParseRef : URL -> string -> option URL;   (* [base.Parse(ref)] *)
    http_Get : string -> Http.GetResult;
    mime_TypeByExtension : string -> string;
    strings_ToLower : string -> string;
    unicode_word_width : string -> nat;
    time_Now : Time.Time;
    filepath_Join : list string -> string;
    os_MkdirAll : string -> bool;                 (* [err == nil] *)
    os_WriteFile : string -> string -> WriteResult }.

(** What a call leaves on the file system: a directory, or a file that
    holds [data]. *)
Inductive fs_event : Type :=
| MkdirAll (path : string)
| WriteFile (path : string) (data : string).

Definition wrote_file (e : fs_event) : bool :=
  match e with WriteFile _ _ => true | MkdirAll _ => false end.

(** The errors of [archiveWebsite], one per [fmt.Errorf]. *)
Inductive error : Type :=
| InvalidURL
| DownloadFailed
| HTTPError (code : Z)
| ReadBodyFailed
| MkdirFailed
| SaveFailed.

Inductive result (A : Type) : Type :=
| Ok (a : A)
| Err (e : error).
Arguments Ok {A} a.
Arguments Err {A} e.

Declare Scope go_scope.
Notation "x <- e ;; k" :=
  (match e with Some x => k | None => None end)
    (at level 61, e at next level, right associativity) : go_scope.
#[local] Open Scope go_scope.

(* ================================================================== *)
(** * The archiver: [internal/services/notemanager.go] *)

Module NoteManager.

Import Strings.

(** ** The patterns

    (in the comments, [\x22] is the double quote) *)

Definition quote : cls := Class false [dquote; "'"%char].
Definition not_quote : cls := Class true [dquote; "'"%char].
Definition not_gt : cls := Class true [">"%char].

(** A sequence of patterns. *)
Fixpoint cat (l : list re) : re :=
  match l with
  | [] => Lit ""
  | [r] => r
  | r :: l' => Seq r (cat l')
  end.

Fixpoint alts (l : list re) : re :=
  match l with
  | [] => Lit ""
  | [r] => r
  | r :: l' => Alt r (alts l')
  end.

(** [\+https?://[^\s\)]+] *)
Definition archiveLinkRe : re :=
  cat [Lit "+http"; Opt (Lit "s"); Lit "://";
       Plus (Class true (perl_space ++ [")"%char]))].

(** [<title[^>]*>(G)</title>], the group [G] being [[^<]*] *)
Definition titleRe : re :=
  cat [Lit "<title"; Star not_gt; Lit ">"; Cap 1 (Star (Class true ["<"%char]));
       Lit "</title>"].

(** [[<>:\x22/\\|?*\s]+] *)
Definition invalid : cls :=
  Class false (bytes_of "<>:" ++ [dquote] ++ bytes_of "/\|?*" ++ perl_space).

Definition invalidRe : re := Plus invalid.

(** [(<body[^>]*>)] *)
Definition bodyRe : re := Cap 1 (cat [Lit "<body"; Star not_gt; Lit ">"]).

(** [<link[^>]*href=[\x22']([^\x22']+)[\x22'][^>]*rel=[\x22']stylesheet[\x22'][^>]*>|<link[^>]*rel=[\x22']stylesheet[\x22'][^>]*href=[\x22']([^\x22']+)[\x22'][^>]*>] *)
Definition linkRe : re :=
  Alt
    (cat [Lit "<link"; Star not_gt; Lit "href="; One quote; Cap 1 (Plus not_quote);
          One quote; Star not_gt; Lit "rel="; One quote; Lit "stylesheet";
          One quote; Star not_gt; Lit ">"])
    (cat [Lit "<link"; Star not_gt; Lit "rel="; One quote; Lit "stylesheet";
          One quote; Star not_gt; Lit "href="; One quote; Cap 2 (Plus not_quote);
          One quote; Star not_gt; Lit ">"]).

(** [href=[\x22']([^\x22']+)[\x22']] *)
Definition hrefRe : re :=
  cat [Lit "href="; One quote; Cap 1 (Plus not_quote); One quote].

(** [<script[^>]*src=[\x22']([^\x22']+)[\x22'][^>]*></script>] *)
Definition scriptRe : re :=
  cat [Lit "<script"; Star not_gt; Lit "src="; One quote; Cap 1 (Plus not_quote);
       One quote; Star not_gt; Lit "></script>"].

(** [src=[\x22']([^\x22']+)[\x22']] *)
Definition srcRe : re :=
  cat [Lit "src="; One quote; Cap 1 (Plus not_quote); One quote].

(** [<img[^>]*src=[\x22']([^\x22']+)[\x22'][^>]*>] *)
Definition imgRe : re :=
  cat [Lit "<img"; Star not_gt; Lit "src="; One quote; Cap 1 (Plus not_quote);
       One quote; Star not_gt; Lit ">"].

(** [['\x22]([^'\x22]*\.(?:png|jpg|jpeg|gif|svg|webp))['\x22]] *)
Definition jsImgRe : re :=
  cat [One quote;
       Cap 1 (cat [Star not_quote; Lit ".";
                   alts [Lit "png"; Lit "jpg"; Lit "jpeg"; Lit "gif"; Lit "svg";
                         Lit "webp"]]);
       One quote].

(** [style=[\x22'](G)[\x22']], the group [G] being
    [[^\x22']*url\([^)]+\)[^\x22']*] *)
Definition styleRe : re :=
  cat [Lit "style="; One quote;
       Cap 1 (cat [Star not_quote; Lit "url("; Plus (Class true [")"%char]);
                   Lit ")"; Star not_quote]);
       One quote].

(** [url\([\x22']?([^\x22')\s]+)[\x22']?\)] *)
Definition urlRe : re :=
  cat [Lit "url("; Opt (One quote);
       Cap 1 (Plus (Class true ([dquote; "'"%char; ")"%char] ++ perl_space)));
       Opt (One quote); Lit ")"].

(** [@import\s+(?:url\()?[\x22']([^\x22']+)[\x22'](?:\))?[^;]*;] *)
Definition importRe : re :=
  cat [Lit "@import"; Plus (Class false perl_space); Opt (Lit "url("); One quote;
       Cap 1 (Plus not_quote); One quote; Opt (Lit ")");
       Star (Class true [";"%char]); Lit ";"].

(** ** The functions *)

Record ArchiveInfo : Type :=
  { Title : string; FilePath : string; Timestamp : Time.Time }.

Section Archiver.

Variable W : World.
(** [nm.storage.BasePath] *)
Variable BasePath : string.

(** [extractTitle] *)
Definition extractTitle (htmlContent host : string) : string :=
  let matches := FindStringSubmatch titleRe htmlContent in
  if (1 <? List.length matches)%nat
     && negb (String.eqb (TrimSpace (nth 1 matches "")) "")
  then TrimSpace (nth 1 matches "")
  else host.

(** [sanitizeFilename] *)
Definition sanitizeFilename (filename : string) : string :=
  let sanitized := ReplaceAllString (unicode_word_width W) invalidRe filename "_" in
  let sanitized :=
    if (50 <? String.length sanitized)%nat then take 50 sanitized else sanitized in
  Trim sanitized ["_"%char].

(** [resolveURL] *)
Definition resolveURL (baseURL : URL) (targetURL : string) : string :=
  if Contains targetURL ":" && negb (HasPrefix targetURL "http")
     && negb (HasPrefix targetURL "//")
  then ""
  else
    match url_ParseRef W baseURL targetURL with
    | None => ""
    | Some resolvedURL => url_String resolvedURL
    end.

Definition maxSize : N := 5 * 1024 * 1024.
Definition maxImageSize : N := 1 * 1024 * 1024.

(** [downloadResource] *)
Definition downloadResource (resourceURL : string) : option string :=
  match http_Get W resourceURL with
  | Http.Hangs => None
  | Http.Failed => Some ""
  | Http.Responded resp =>
      if negb (Http.StatusCode resp =? 200)%Z then Some ""
      else
        r <- Http.ReadAllLimited resp maxSize ;;
        match r with
        | None => Some ""
        | Some content => Some content
        end
  end.

(** [downloadAndEncodeImage] *)
Definition downloadAndEncodeImage (imageURL : string) : option string :=
  match http_Get W imageURL with
  | Http.Hangs => None
  | Http.Failed => Some ""
  | Http.Responded resp =>
      if negb (Http.StatusCode resp =? 200)%Z then Some ""
      else
        let contentType := Http.ContentType resp in
        let contentType :=
          if String.eqb contentType "" then
            let ext := strings_ToLower W (Path.Ext imageURL) in
            let contentType := mime_TypeByExtension W ext in
            if String.eqb contentType "" then "application/octet-stream"
            else contentType
          else contentType in
        r <- Http.ReadAllLimited resp maxImageSize ;;
        match r with
        | None => Some ""
        | Some imageData =>
            let encoded := Base64.EncodeToString imageData in
            Some ("data:" ++ contentType ++ ";base64," ++ encoded)
        end
  end.

(** The function [processCSS] gives to [importRe.ReplaceAllStringFunc];
    [processCSS] itself comes in as [rec]. *)
Definition processCSS_import (rec : string -> string -> option string)
  (cssBaseURL : URL) (match_ : string) : option string :=
  let importMatch := FindStringSubmatch importRe match_ in
  if (List.length importMatch <? 2)%nat then Some match_
  else
    let importURL := resolveURL cssBaseURL (nth 1 importMatch "") in
    if String.eqb importURL "" then Some match_
    else
      importedCSS <- downloadResource importURL ;;
      if String.eqb importedCSS "" then Some match_
      else
        processed <- rec importedCSS importURL ;;
        Some ("/* Imported from: " ++ importURL ++ " */" ++ NL ++ processed).

Definition isImage (ext : string) : bool :=
  String.eqb ext ".png" || String.eqb ext ".jpg" || String.eqb ext ".jpeg"
  || String.eqb ext ".gif" || String.eqb ext ".svg" || String.eqb ext ".webp".

Definition isFont (ext : string) : bool :=
  String.eqb ext ".woff" || String.eqb ext ".woff2" || String.eqb ext ".ttf"
  || String.eqb ext ".otf" || String.eqb ext ".eot".

(** The function [processCSS] gives to [urlRe.ReplaceAllStringFunc]. *)
Definition processCSS_url (cssBaseURL : URL) (match_ : string) : option string :=
  let urlMatch := FindStringSubmatch urlRe match_ in
  if (List.length urlMatch <? 2)%nat then Some match_
  else
    let resourceURL := nth 1 urlMatch "" in
    if HasPrefix resourceURL "data:" then Some match_
    else
      let resolvedURL := resolveURL cssBaseURL resourceURL in
      if String.eqb resolvedURL "" then Some match_
      else
        let ext := strings_ToLower W (Path.Ext resourceURL) in
        if isImage ext || isFont ext then
          dataURI <- downloadAndEncodeImage resolvedURL ;;
          if negb (String.eqb dataURI "")
          then Some ("url(" ++ DQ ++ dataURI ++ DQ ++ ")")
          else Some match_
        else Some match_.

(** [processCSS]; the recursion of the code has no measure, [fuel] bounds
    the depth of the calls, and [None] is the answer of a call that needs
    more than [fuel] allows (or that waits for a peer for ever). *)
Fixpoint processCSS (fuel : nat) (cssContent cssURL : string) : option string :=
  match fuel with
  | 0 => None
  | S fuel' =>
      match url_Parse W cssURL with
      | None => Some cssContent
      | Some cssBaseURL =>
          cssContent <-
            ReplaceAllStringFuncM importRe cssContent
              (processCSS_import (processCSS fuel') cssBaseURL) ;;
          ReplaceAllStringFuncM urlRe cssContent (processCSS_url cssBaseURL)
      end
  end.

(** [processInlineCSS] and the function it gives to
    [urlRe.ReplaceAllStringFunc]. *)
Definition processInlineCSS_url (baseURL : URL) (match_ : string) : option string :=
  let urlMatch := FindStringSubmatch urlRe match_ in
  if (List.length urlMatch <? 2)%nat then Some match_
  else
    let resourceURL := nth 1 urlMatch "" in
    if HasPrefix resourceURL "data:" then Some match_
    else
      let resolvedURL := resolveURL baseURL resourceURL in
      if String.eqb resolvedURL "" then Some match_
      else
        dataURI <- downloadAndEncodeImage resolvedURL ;;
        if negb (String.eqb dataURI "")
        then Some ("url(" ++ DQ ++ dataURI ++ DQ ++ ")")
        else Some match_.

Definition processInlineCSS (cssContent baseURLStr : string) : option string :=
  match url_Parse W baseURLStr with
  | None => Some cssContent
  | Some baseURL =>
      ReplaceAllStringFuncM urlRe cssContent (processInlineCSS_url baseURL)
  end.

(** [inlineCSS] and the function it gives to [linkRe.ReplaceAllStringFunc]. *)
Definition inlineCSS_link (fuel : nat) (baseURL : URL) (match_ : string)
  : option string :=
  let hrefMatch := FindStringSubmatch hrefRe match_ in
  if (List.length hrefMatch <? 2)%nat then Some match_
  else
    let cssURL := nth 1 hrefMatch "" in
    let resolvedURL := resolveURL baseURL cssURL in
    if String.eqb resolvedURL "" then Some match_
    else
      cssContent <- downloadResource resolvedURL ;;
      if String.eqb cssContent "" then Some match_
      else
        processedCSS <- processCSS fuel cssContent resolvedURL ;;
        Some ("<style type=" ++ DQ ++ "text/css" ++ DQ ++ ">" ++ NL
              ++ "/* Inlined from: " ++ resolvedURL ++ " */" ++ NL
              ++ processedCSS ++ NL ++ "</style>").

Definition inlineCSS (fuel : nat) (htmlContent : string) (baseURL : URL)
  : option string :=
  ReplaceAllStringFuncM linkRe htmlContent (inlineCSS_link fuel baseURL).

(** [inlineJavaScript] *)
Definition inlineJavaScript_script (baseURL : URL) (match_ : string)
  : option string :=
  let srcMatch := FindStringSubmatch srcRe match_ in
  if (List.length srcMatch <? 2)%nat then Some match_
  else
    let jsURL := nth 1 srcMatch "" in
    let resolvedURL := resolveURL baseURL jsURL in
    if String.eqb resolvedURL "" then Some match_
    else
      jsContent <- downloadResource resolvedURL ;;
      if String.eqb jsContent "" then Some match_
      else
        Some ("<script type=" ++ DQ ++ "text/javascript" ++ DQ ++ ">" ++ NL
              ++ "/* Inlined from: " ++ resolvedURL ++ " */" ++ NL
              ++ jsContent ++ NL ++ "</script>").

Definition inlineJavaScript (htmlContent : string) (baseURL : URL) : option string :=
  ReplaceAllStringFuncM scriptRe htmlContent (inlineJavaScript_script baseURL).

(** [inlineImages]: the function for the [<img>] tags, the function for the
    quoted image paths, and the two passes. *)
Definition inlineImages_img (baseURL : URL) (match_ : string) : option string :=
  let srcMatch := FindStringSubmatch srcRe match_ in
  if (List.length srcMatch <? 2)%nat then Some match_
  else
    let imgURL := nth 1 srcMatch "" in
    if HasPrefix imgURL "data:" then Some match_
    else
      let resolvedURL := resolveURL baseURL imgURL in
      if String.eqb resolvedURL "" then Some match_
      else
        dataURI <- downloadAndEncodeImage resolvedURL ;;
        if String.eqb dataURI "" then Some match_
        else
          Some (ReplaceAllString (unicode_word_width W) srcRe match_
                  ("src=" ++ DQ ++ dataURI ++ DQ)).

Definition inlineImages_js (baseURL : URL) (match_ : string) : option string :=
  let quote := take 1 match_ in
  let imgURL := take (String.length match_ - 2) (drop 1 match_) in
  if HasPrefix imgURL "data:" then Some match_
  else
    let resolvedURL := resolveURL baseURL imgURL in
    if String.eqb resolvedURL "" then Some match_
    else
      dataURI <- downloadAndEncodeImage resolvedURL ;;
      if String.eqb dataURI "" then Some match_
      else Some (quote ++ dataURI ++ quote).

Definition inlineImages (htmlContent : string) (baseURL : URL) : option string :=
  htmlContent <-
    ReplaceAllStringFuncM imgRe htmlContent (inlineImages_img baseURL) ;;
  ReplaceAllStringFuncM jsImgRe htmlContent (inlineImages_js baseURL).

(** [inlineWebFonts] *)
Definition inlineWebFonts (htmlContent : string) (baseURL : URL) : string :=
  htmlContent.

(** [inlineStyleAttributes] *)
Definition inlineStyleAttributes_style (baseURL : URL) (match_ : string)
  : option string :=
  let styleMatch := FindStringSubmatch styleRe match_ in
  if (List.length styleMatch <? 2)%nat then Some match_
  else
    let styleContent := nth 1 styleMatch "" in
    let quote := take 1 (drop 6 match_) in
    processedStyle <- processInlineCSS styleContent (url_String baseURL) ;;
    Some ("style=" ++ quote ++ processedStyle ++ quote).

Definition inlineStyleAttributes (htmlContent : string) (baseURL : URL)
  : option string :=
  ReplaceAllStringFuncM styleRe htmlContent (inlineStyleAttributes_style baseURL).

(** The banner of [inlineAllResources]; the bytes before [<strong>] are
    those of the source file. *)
Definition archiveHeader (baseURL : string) : string :=
  let now := Time.Format_second (time_Now W) in
  NL ++ "<!-- ARCHIVED PAGE - Original URL: " ++ baseURL ++ " - Archived: " ++ now
  ++ " -->" ++ NL
  ++ "<div style=" ++ DQ
  ++ "background: #fff3cd; border: 1px solid #ffeaa7; padding: 10px; margin: 10px 0; border-radius: 4px; font-family: Arial, sans-serif;"
  ++ DQ ++ ">" ++ NL
  ++ TAB ++ utf8 [195; 176; 197; 184; 226; 128; 156; 226; 128; 158]
  ++ " <strong>Archived Page</strong> - Original: <a href=" ++ DQ ++ baseURL ++ DQ
  ++ " target=" ++ DQ ++ "_blank" ++ DQ ++ ">" ++ baseURL ++ "</a> - Archived: "
  ++ now ++ NL
  ++ "</div>" ++ NL.

(** The five passes of [inlineAllResources], before the banner. *)
Definition inlinePasses (fuel : nat) (htmlContent : string) (baseURLParsed : URL)
  : option string :=
  htmlContent <- inlineCSS fuel htmlContent baseURLParsed ;;
  htmlContent <- inlineJavaScript htmlContent baseURLParsed ;;
  htmlContent <- inlineImages htmlContent baseURLParsed ;;
  inlineStyleAttributes (inlineWebFonts htmlContent baseURLParsed) baseURLParsed.

(** [inlineAllResources] *)
Definition inlineAllResources (fuel : nat) (htmlContent baseURL : string)
  : option string :=
  match url_Parse W baseURL with
  | None => Some htmlContent
  | Some baseURLParsed =>
      htmlContent <- inlinePasses fuel htmlContent baseURLParsed ;;
      Some (ReplaceAllString (unicode_word_width W) bodyRe htmlContent
              ("$1" ++ archiveHeader baseURL))
  end.

(** [archiveWebsite]: the result, and what the call did to the file system
    on the way. *)
Definition archiveWebsite (fuel : nat) (websiteURL : string)
  : option (result ArchiveInfo * list fs_event) :=
  match url_Parse W websiteURL with
  | None => Some (Err InvalidURL, [])
  | Some parsedURL =>
      match http_Get W websiteURL with
      | Http.Hangs => None
      | Http.Failed => Some (Err DownloadFailed, [])
      | Http.Responded resp =>
          if negb (Http.StatusCode resp =? 200)%Z
          then Some (Err (HTTPError (Http.StatusCode resp)), [])
          else
            r <- Http.ReadAll resp ;;
            match r with
            | None => Some (Err ReadBodyFailed, [])
            | Some htmlContent =>
                let title := extractTitle htmlContent (Host parsedURL) in
                let timestamp := time_Now W in
                let filename :=
                  Time.Format_file timestamp ++ "_" ++ sanitizeFilename title
                  ++ "-" ++ sanitizeFilename (Host parsedURL) ++ ".html" in
                let sitesDir := filepath_Join W [BasePath; "assets"; "sites"] in
                if negb (os_MkdirAll W sitesDir) then Some (Err MkdirFailed, [])
                else
                  processedHTML <- inlineAllResources fuel htmlContent websiteURL ;;
                  let filePath := filepath_Join W [sitesDir; filename] in
                  match os_WriteFile W filePath processedHTML with
                  | NotOpened => Some (Err SaveFailed, [MkdirAll sitesDir])
                  | Broken kept =>
                      Some (Err SaveFailed,
                            [MkdirAll sitesDir;
                             WriteFile filePath (take kept processedHTML)])
                  | Written =>
                      let relativePath :=
                        filepath_Join W ["assets"; "sites"; filename] in
                      Some (Ok {| Title := title; FilePath := relativePath;
                                  Timestamp := timestamp |},
                            [MkdirAll sitesDir;
                             WriteFile filePath processedHTML])
                  end
            end
      end
  end.

(** The loop of [processArchiveLinks] over the matches. *)
Fixpoint processArchiveLinks_loop (fuel : nat) (matches : list string)
  (processedContent : string) (done : list fs_event)
  : option (string * list fs_event) :=
  match matches with
  | [] => Some (processedContent, done)
  | match_ :: matches' =>
      let url := TrimPrefix match_ "+" in
      a <- archiveWebsite fuel url ;;
      match a with
      | (Err _, ev) =>
          processArchiveLinks_loop fuel matches' processedContent (done ++ ev)
      | (Ok archiveInfo, ev) =>
          let archiveLink :=
            "[" ++ Title archiveInfo ++ "](" ++ FilePath archiveInfo
            ++ ") (archived " ++ Time.Format_minute (Timestamp archiveInfo) ++ ")" in
          processArchiveLinks_loop fuel matches'
            (Replace1 processedContent match_ archiveLink) (done ++ ev)
      end
  end.

(** [processArchiveLinks]; its error is always [nil]. *)
Definition processArchiveLinks (fuel : nat) (content : string)
  : option (string * list fs_event) :=
  let matches := FindAllString archiveLinkRe content in
  if (List.length matches =? 0)%nat then Some (content, [])
  else processArchiveLinks_loop fuel matches content [].

End Archiver.

(** ** The references the inliner handles

    Every pass calls a function on each match of its pattern; the function
    takes a reference out of the matched text, resolves it, downloads it and
    returns the replacement of the match. *)

Inductive ref_kind : Type :=
| StylesheetLink      (* [<link rel=stylesheet href=...>], in [inlineCSS] *)
| ScriptSrc           (* [<script src=...>], in [inlineJavaScript] *)
| ImgSrc              (* [<img src=...>], in [inlineImages] *)
| QuotedImage         (* a quoted image path, in [inlineImages] *)
| CSSImport           (* [@import], in [processCSS] *)
| CSSUrl              (* [url(...)], in [processCSS] *)
| StyleUrl.           (* [url(...)], in [processInlineCSS] *)

(** The reference the function of kind [k] takes out of the matched text. *)
Definition reference (k : ref_kind) (match_ : string) : string :=
  match k with
  | StylesheetLink => nth 1 (FindStringSubmatch hrefRe match_) ""
  | ScriptSrc | ImgSrc => nth 1 (FindStringSubmatch srcRe match_) ""
  | QuotedImage => take (String.length match_ - 2) (drop 1 match_)
  | CSSImport => nth 1 (FindStringSubmatch importRe match_) ""
  | CSSUrl | StyleUrl => nth 1 (FindStringSubmatch urlRe match_) ""
  end.

(** The function of kind [k]. *)
Definition inline (W : World) (fuel : nat) (k : ref_kind) (baseURL : URL)
  (match_ : string) : option string :=
  match k with
  | StylesheetLink => inlineCSS_link W fuel baseURL match_
  | ScriptSrc => inlineJavaScript_script W baseURL match_
  | ImgSrc => inlineImages_img W baseURL match_
  | QuotedImage => inlineImages_js W baseURL match_
  | CSSImport => processCSS_import W (processCSS W fuel) baseURL match_
  | CSSUrl => processCSS_url W baseURL match_
  | StyleUrl => processInlineCSS_url W baseURL match_
  end.

(** The fetch of a resolved reference fails: it did not resolve, or
    [http.Get] returns an error, or the status is not 200. *)
Definition fetch_fails (W : World) (resolvedURL : string) : Prop :=
  resolvedURL = ""
  \/ http_Get W resolvedURL = Http.Failed
  \/ exists resp, http_Get W resolvedURL = Http.Responded resp
                  /\ Http.StatusCode resp <> 200%Z.


(** The strings that match [[A-Za-z0-9_]*]. *)
Definition plain (s : string) : bool := all is_ascii_word s.

(** The strings without any of the bytes [sanitizeFilename] replaces. *)
Definition valid (s : string) : bool := all (fun a => negb (cls_mem invalid a)) s.

(** The content type [downloadAndEncodeImage] puts in the data URI. *)
Definition image_content_type (W : World) (imageURL : string)
  (resp : Http.Response) : string :=
  if String.eqb (Http.ContentType resp) "" then
    if String.eqb
         (mime_TypeByExtension W (strings_ToLower W (Path.Ext imageURL))) ""
    then "application/octet-stream"
    else mime_TypeByExtension W (strings_ToLower W (Path.Ext imageURL))
  else Http.ContentType resp.

(** The peer answers the request: [http.Get] returns, and the body does not
    stall. *)
Definition answers (W : World) (url : string) : Prop :=
  match http_Get W url with
  | Http.Hangs => False
  | Http.Failed => True
  | Http.Responded resp => Http.BodyEnd_ resp <> Http.Stalls
  end.

(** The top-level page is there and the archive can be stored. *)
Definition page_served (W : World) (BasePath websiteURL htmlContent : string)
  : Prop :=
  (exists parsedURL, url_Parse W websiteURL = Some parsedURL)
  /\ (exists contentType,
        http_Get W websiteURL =
          Http.Responded
            {| Http.StatusCode := 200; Http.ContentType := contentType;
               Http.Body := htmlContent; Http.BodyEnd_ := Http.EOF |})
  /\ (forall path, os_MkdirAll W path = true)
  /\ (forall path data, os_WriteFile W path data = Written).

(** The name [archiveWebsite] gives the file of a page. *)
Definition archive_name (W : World) (htmlContent host : string) : string :=
  Time.Format_file (time_Now W) ++ "_"
  ++ sanitizeFilename W (extractTitle htmlContent host) ++ "-"
  ++ sanitizeFilename W host ++ ".html".

End NoteManager.

(* ================================================================== *)
(** * Worlds given by tables, for the examples

    [url_Parse] and [url_ParseRef] are tabulated on the few URLs of an
    example, with the values [net/url] gives there; every URL that is not in
    the table of the network fails to download.  The examples hold ASCII
    only. *)

Module Tables.

Fixpoint assoc {A : Type} (k : string) (l : list (string * A)) : option A :=
  match l with
  | [] => None
  | (k', v) :: l' => if String.eqb k k' then Some v else assoc k l'
  end.

Definition noon : Time.Time :=
  {| Time.year := 2024; Time.month := 1; Time.day := 1;
     Time.hour := 12; Time.minute := 0; Time.second := 0 |}.

(** A response with status 200 and a body that ends. *)
Definition page (contentType body : string) : Http.GetResult :=
  Http.Responded
    {| Http.StatusCode := 200; Http.ContentType := contentType;
       Http.Body := body; Http.BodyEnd_ := Http.EOF |}.

Definition status (code : Z) : Http.GetResult :=
  Http.Responded
    {| Http.StatusCode := code; Http.ContentType := "text/html";
       Http.Body := ""; Http.BodyEnd_ := Http.EOF |}.

(** [urls]: the URLs that parse, with their host; [refs]: for a base URL,
    the references that resolve against it, with the result; [net]: what
    the network answers. *)
Definition world (urls : list (string * string))
  (refs : list (string * list (string * string)))
  (net : list (string * Http.GetResult)) : World :=
  {| url_Parse := fun s =>
       match assoc s urls with
       | Some h => Some (MkURL h s)
       | None => None
       end;
     url_ParseRef := fun base ref =>
       match assoc (url_String base) refs with
       | Some l =>
           match assoc ref l with
           | Some u => Some (MkURL "" u)
           | None => None
           end
       | None => None
       end;
     http_Get := fun u =>
       match assoc u net with
       | Some r => r
       | None => Http.Failed
       end;
     mime_TypeByExtension := fun ext =>
       if String.eqb ext ".png" then "image/png" else "";
     strings_ToLower := Strings.ToLowerASCII;
     unicode_word_width := fun _ => 0;
     time_Now := noon;
     filepath_Join := String.concat "/";
     os_MkdirAll := fun _ => true;
     os_WriteFile := fun _ _ => Written |}.

End Tables.

(** ** The worlds of the examples *)

Module Examples.

Import Tables.

Definition h_test : URL := MkURL "h.test" "http://h.test/".

(** A page whose image is not there: the server answers 404. *)
Definition missing_image_world : World :=
  world [("http://h.test/", "h.test")]
    [("http://h.test/", [("/missing.png", "http://h.test/missing.png")])]
    [("http://h.test/", page "text/html" "<img src='/missing.png'>");
     ("http://h.test/missing.png", status 404)].

(** A page with an image, a text file and a script next to it. *)
Definition site_world : World :=
  world [("http://h.test/", "h.test")]
    [("http://h.test/",
      [("real.png", "http://h.test/real.png");
       ("notes.txt", "http://h.test/notes.txt");
       ("a.js", "http://h.test/a.js")])]
    [("http://h.test/", page "text/html" "<script src='a.js'></script>");
     ("http://h.test/real.png", page "image/png" "PNG");
     ("http://h.test/notes.txt", page "text/plain" "hi");
     ("http://h.test/a.js", page "text/javascript" "document.write('<body>')")].

(** A page with an image that is loaded late: the tag names an image in
    [data-src] and another in [src], and the one of [src] is not there. *)
Definition lazy_image_world : World :=
  world [("http://h.test/", "h.test")]
    [("http://h.test/",
      [("real.png", "http://h.test/real.png");
       ("missing.png", "http://h.test/missing.png")])]
    [("http://h.test/",
      page "text/html" "<img data-src='real.png' src='missing.png'>");
     ("http://h.test/real.png", page "image/png" "PNG");
     ("http://h.test/missing.png", status 404)].

(** Two pages, the address of the second a prefix of the address of the
    first, and the first is not there. *)
Definition prefix_world : World :=
  world [("http://a.test/x", "a.test"); ("http://a.test", "a.test")] []
    [("http://a.test/x", status 404);
     ("http://a.test",
      page "text/html" "<html><head><title>A</title></head></html>")].

(** A stylesheet that imports itself. *)
Definition loop_css : string := "@import 's.css';".
Definition loop_url : string := "http://h.test/s.css".

Definition loop_world : World :=
  world [(loop_url, "h.test")] [(loop_url, [("s.css", loop_url)])]
    [(loop_url, page "text/css" loop_css)].

(** A site that goes [depth] directories down: the stylesheet [c.css] of
    every directory above the last imports the one of the directory [d]
    below it, and the last has a rule.  The addresses are
    [http://h.test/c.css], [http://h.test/d/c.css],
    [http://h.test/d/d/c.css] and so on; [d/c.css] resolves against each to
    the next. *)
Fixpoint dirs (i : nat) : string :=
  match i with
  | 0 => ""
  | S i' => "d/" ++ dirs i'
  end.

Definition descent_url (i : nat) : string := "http://h.test/" ++ dirs i ++ "c.css".

Definition descent_css : string := "@import 'd/c.css';".

Definition descent_world (depth : nat) : World :=
  {| url_Parse := fun s => Some (MkURL "h.test" s);
     url_ParseRef := fun base ref =>
       if String.eqb ref "d/c.css" then
         match strip "http://h.test/" (url_String base) with
         | Some rest => Some (MkURL "h.test" ("http://h.test/d/" ++ rest))
         | None => None
         end
       else None;
     http_Get := fun u =>
       if (String.length u <? 19 + 2 * depth)%nat
       then page "text/css" descent_css
       else page "text/css" "p{}";
     mime_TypeByExtension := fun _ => "";
     strings_ToLower := Strings.ToLowerASCII;
     unicode_word_width := fun _ => 0;
     time_Now := noon;
     filepath_Join := String.concat "/";
     os_MkdirAll := fun _ => true;
     os_WriteFile := fun _ _ => Written |}.

(** The expansion of the stylesheet of directory [i] with [k] directories
    below it. *)
Fixpoint descent_out (k i : nat) : string :=
  match k with
  | 0 => "p{}"
  | S k' =>
      "/* Imported from: " ++ descent_url (S i) ++ " */" ++ NL
      ++ descent_out k' (S i)
  end.

(** The stylesheet of directory [i]. *)
Definition descent_content (depth i : nat) : string :=
  if (i <? depth)%nat then descent_css else "p{}".

(** A text without the letter u. *)
Definition no_u (s : string) : bool := all (fun a => negb (Ascii.eqb a "u")) s.

(** A server that answers 201 Created for the page. *)
Definition created_world : World :=
  world [("http://h.test/", "h.test")] []
    [("http://h.test/", status 201)].

(** A peer that accepts the connection and never answers. *)
Definition silent_world : World :=
  {| url_Parse := fun s => Some (MkURL "h.test" s);
     url_ParseRef := fun _ _ => None;
     http_Get := fun _ => Http.Hangs;
     mime_TypeByExtension := fun _ => "";
     strings_ToLower := Strings.ToLowerASCII;
     unicode_word_width := fun _ => 0;
     time_Now := noon;
     filepath_Join := String.concat "/";
     os_MkdirAll := fun _ => true;
     os_WriteFile := fun _ _ => Written |}.





End Examples.

(* ================================================================== *)
(** * The notes and their tasks: [internal/services/notemanager.go] *)

Module Notebook.

(** ** Go's [int], of 64 bits *)
Definition int_wrap (z : Z) : Z := ((z + 2 ^ 63) mod 2 ^ 64 - 2 ^ 63)%Z.

(** ** [strings.Split(s, sep)] for a separator of one byte, the only one the
    code splits by, and [strings.Join] *)
Fixpoint Split (s : string) (sep : ascii) : list string :=
  match s with
  | "" => [""]
  | String a s' =>
      if Ascii.eqb a sep then "" :: Split s' sep
      else
        match Split s' sep with
        | x :: l => String a x :: l
        | [] => [String a ""]
        end
  end.

Definition Join (elems : list string) (sep : string) : string :=
  String.concat sep elems.

(** ** Notes and tasks in memory

    The manager holds pointers to notes, and a note pointers to its tasks
    ([[]*models.Note], [[]*Task]); the package [models] is not part of the
    code at hand, and of its structures only the fields this file reads or
    writes appear.  A pointer is an address, and the heap gives the note or
    the [Index] of the task at an address. *)
Definition task_ptr : Type := nat.
Definition note_ptr : Type := nat.

Record Note : Type :=
  { Title : string; Content : string; Tasks : list task_ptr }.

Record Heap : Type :=
  { note_at : note_ptr -> Note; Index_at : task_ptr -> Z }.

(** The fields of [NoteManager] that change. *)
Record Manager : Type :=
  { notes : list note_ptr; checkboxIndex : Z; needsSave : bool }.

(** What the file calls in the packages [storage] and [models]. *)
Record Env : Type :=
  { storage_SaveNotes : list note_ptr -> Heap -> bool;        (* [err == nil] *)
    storage_DeleteArchivedSite : string -> bool;              (* [err == nil] *)
    models_NewNote : string -> string -> Heap -> note_ptr * Heap;
    models_Update : note_ptr -> string -> string -> Heap -> Heap }.

Inductive note_error : Type :=
| OutOfRange (index : Z)      (* [note index %d out of range] *)
| SaveNotesFailed             (* [failed to save notes: ...] *)
| DeleteFailed.               (* the error of [storage.DeleteArchivedSite] *)

Definition set_Index (h : Heap) (task : task_ptr) (index : Z) : Heap :=
  {| note_at := note_at h;
     Index_at := fun t => if (t =? task)%nat then index else Index_at h t |}.

Definition set_Content (h : Heap) (note : note_ptr) (content : string) : Heap :=
  {| note_at := fun n =>
       if (n =? note)%nat then
         {| Title := Title (note_at h n); Content := content;
            Tasks := Tasks (note_at h n) |}
       else note_at h n;
     Index_at := Index_at h |}.

(** [for _, task := range note.Tasks { task.Index = index; index++ }] *)
Fixpoint number_tasks (tasks : list task_ptr) (index : Z) (h : Heap)
  : Z * Heap :=
  match tasks with
  | [] => (index, h)
  | task :: tasks' =>
      number_tasks tasks' (int_wrap (index + 1)) (set_Index h task index)
  end.

(** The same over the notes of a slice. *)
Fixpoint number_notes (ns : list note_ptr) (index : Z) (h : Heap)
  : Z * Heap :=
  match ns with
  | [] => (index, h)
  | note :: ns' =>
      let '(index', h') := number_tasks (Tasks (note_at h note)) index h in
      number_notes ns' index' h'
  end.

(** [assignTaskIndices] *)
Definition assignTaskIndices (nm : Manager) (h : Heap) : Manager * Heap :=
  let '(index, h') := number_notes (notes nm) 0%Z h in
  ({| notes := notes nm; checkboxIndex := index; needsSave := needsSave nm |},
   h').

(** [for range nm.notes[i].Tasks { index-- }] *)
Fixpoint count_down (tasks : list task_ptr) (index : Z) : Z :=
  match tasks with
  | [] => index
  | _ :: tasks' => count_down tasks' (int_wrap (index - 1))
  end.

Fixpoint count_down_notes (ns : list note_ptr) (index : Z) (h : Heap) : Z :=
  match ns with
  | [] => index
  | note :: ns' =>
      count_down_notes ns' (count_down (Tasks (note_at h note)) index) h
  end.

(** [reassignTaskIndicesFromNote]; with a negative [startNoteIndex] the
    second loop indexes [nm.notes] below zero and the call panics. *)
Definition reassignTaskIndicesFromNote (startNoteIndex : Z) (nm : Manager)
  (h : Heap) : option (Manager * Heap) :=
  let index :=
    count_down_notes (firstn (Z.to_nat startNoteIndex) (notes nm))
      (checkboxIndex nm) h in
  if (startNoteIndex <? 0)%Z then None
  else
    let '(index', h') :=
      number_notes (skipn (Z.to_nat startNoteIndex) (notes nm)) index h in
    Some ({| notes := notes nm; checkboxIndex := index';
             needsSave := needsSave nm |}, h').

(** [save] *)
Definition save (E : Env) (nm : Manager) (h : Heap)
  : option note_error * Manager :=
  if negb (needsSave nm) then (None, nm)
  else if negb (storage_SaveNotes E (notes nm) h) then
    (Some SaveNotesFailed, nm)
  else
    (None, {| notes := notes nm; checkboxIndex := checkboxIndex nm;
              needsSave := false |}).

(** [index < 0 || index >= len(nm.notes)] *)
Definition out_of_range (index : Z) (nm : Manager) : bool :=
  (index <? 0)%Z || (Z.of_nat (List.length (notes nm)) <=? index)%Z.

(** [GetNote] *)
Definition GetNote (index : Z) (nm : Manager) : note_error + note_ptr :=
  if out_of_range index nm then inl (OutOfRange index)
  else
    match nth_error (notes nm) (Z.to_nat index) with
    | Some note => inr note
    | None => inl (OutOfRange index)
    end.

(** [DeleteNote] *)
Definition DeleteNote (E : Env) (index : Z) (nm : Manager) (h : Heap)
  : option note_error * Manager * Heap :=
  if out_of_range index nm then (Some (OutOfRange index), nm, h)
  else
    let i := Z.to_nat index in
    let nm1 :=
      {| notes := firstn i (notes nm) ++ skipn (S i) (notes nm);
         checkboxIndex := checkboxIndex nm; needsSave := needsSave nm |} in
    let '(nm2, h2) := assignTaskIndices nm1 h in
    let nm3 :=
      {| notes := notes nm2; checkboxIndex := checkboxIndex nm2;
         needsSave := true |} in
    let '(err, nm4) := save E nm3 h2 in
    (err, nm4, h2).

Section WithArchiver.

Variable W : World.
Variable BasePath : string.   (* [nm.storage.BasePath] *)
Variable fuel : nat.
Variable E : Env.

(** [AddNote]; [processArchiveLinks] returns no error. *)
Definition AddNote (title content : string) (nm : Manager) (h : Heap)
  : option (option note_error * Manager * Heap * list fs_event) :=
  match NoteManager.processArchiveLinks W BasePath fuel content with
  | None => None
  | Some (processedContent, ev) =>
      let '(note, h1) := models_NewNote E title processedContent h in
      let '(index, h2) :=
        number_tasks (Tasks (note_at h1 note)) (checkboxIndex nm) h1 in
      let nm1 :=
        {| notes := note :: notes nm; checkboxIndex := index;
           needsSave := true |} in
      let '(err, nm2) := save E nm1 h2 in
      Some (err, nm2, h2, ev)
  end.

(** [UpdateNote] *)
Definition UpdateNote (index : Z) (title content : string) (nm : Manager)
  (h : Heap)
  : option (option note_error * Manager * Heap * list fs_event) :=
  if out_of_range index nm then Some (Some (OutOfRange index), nm, h, [])
  else
    match NoteManager.processArchiveLinks W BasePath fuel content with
    | None => None
    | Some (processedContent, ev) =>
        match nth_error (notes nm) (Z.to_nat index) with
        | None => None
        | Some note =>
            let oldTaskCount := List.length (Tasks (note_at h note)) in
            let h1 := models_Update E note title processedContent h in
            match
              (if negb (List.length (Tasks (note_at h1 note)) =? oldTaskCount)%nat
               then reassignTaskIndicesFromNote index nm h1
               else Some (nm, h1))
            with
            | None => None
            | Some (nm1, h2) =>
                let nm2 :=
                  {| notes := notes nm1; checkboxIndex := checkboxIndex nm1;
                     needsSave := true |} in
                let '(err, nm3) := save E nm2 h2 in
                Some (err, nm3, h2, ev)
            end
        end
    end.

End WithArchiver.

(** The line [DeleteArchivedSite] puts for a line that names the file. *)
Definition struck (line : string) : string :=
  "~~" ++ line ++ "~~ _(archived link deleted)_".

Definition strike_line (filename line : string) : string :=
  if Strings.Contains line filename then struck line else line.

(** The content of a note that names the file, after the loop over its
    lines, and whether a line was changed. *)
Definition strike_lines (filename content : string) : string :=
  Join (map (strike_line filename) (Split content nl)) NL.

Definition names_file (filename content : string) : bool :=
  existsb (fun line => Strings.Contains line filename) (Split content nl).

(** The loop of [DeleteArchivedSite] over the notes. *)
Fixpoint strike_notes (filename : string) (ns : list note_ptr)
  (changesMade : bool) (h : Heap) : bool * Heap :=
  match ns with
  | [] => (changesMade, h)
  | note :: ns' =>
      let content := Content (note_at h note) in
      if Strings.Contains content filename then
        strike_notes filename ns' (changesMade || names_file filename content)
          (set_Content h note (strike_lines filename content))
      else strike_notes filename ns' changesMade h
  end.

(** [DeleteArchivedSite] *)
Definition DeleteArchivedSite (E : Env) (filename : string) (nm : Manager)
  (h : Heap) : option note_error * Manager * Heap :=
  if negb (storage_DeleteArchivedSite E filename) then
    (Some DeleteFailed, nm, h)
  else
    let '(changesMade, h1) := strike_notes filename (notes nm) false h in
    if changesMade then
      let nm1 :=
        {| notes := notes nm; checkboxIndex := checkboxIndex nm;
           needsSave := true |} in
      let '(err, nm2) := save E nm1 h1 in
      (err, nm2, h1)
    else (None, nm, h1).

(** The tasks of the notes of a slice, in the order of the loops. *)
Definition all_tasks (h : Heap) (ns : list note_ptr) : list task_ptr :=
  flat_map (fun note => Tasks (note_at h note)) ns.

(** [GetAllTasks]: the tasks of all notes, of which the [Index] is shown. *)
Definition GetAllTasks (nm : Manager) (h : Heap) : list Z :=
  map (Index_at h) (all_tasks h (notes nm)).

(** The numbers from [from] on. *)
Definition count_from (from : Z) (n : nat) : list Z :=
  map (fun k => (from + Z.of_nat k)%Z) (seq 0 n).

(** The invariant the numbering is for: no two tasks of the notes have the
    same [Index], and every [Index] is below the counter. *)
Definition unique_indices (nm : Manager) (h : Heap) : Prop :=
  NoDup (GetAllTasks nm h)
  /\ (0 <= checkboxIndex nm < 2 ^ 63)%Z
  /\ forall i, In i (GetAllTasks nm h) -> (0 <= i < checkboxIndex nm)%Z.

(** A text without the separator. *)
Definition free (sep : ascii) (s : string) : bool :=
  all (fun a => negb (Ascii.eqb a sep)) s.

(** A note that names the file, after [DeleteArchivedSite]. *)
Definition struck_note (filename : string) (n : Note) : Note :=
  {| Title := Title n; Content := strike_lines filename (Content n);
     Tasks := Tasks n |}.

(** What [save] may leave: no error and nothing more to save, or the error
    of the storage and the notes still to save. *)
Definition saved (err : option note_error) (nm : Manager) : Prop :=
  (err = None /\ needsSave nm = false)
  \/ (err = Some SaveNotesFailed /\ needsSave nm = true).

(** ** Two notes with three tasks

    The first note is at address 1 with the tasks at 10 and 11, the second
    at address 2 with the task at 12 and a link to an archived page. *)
Definition archived_line : string :=
  "see [A](assets/sites/2024_01_01_120000_A-a.test.html) (archived 2024-01-01 12:00)".

Definition two_notes : Heap :=
  {| note_at := fun n =>
       match n with
       | 1 => {| Title := "shop"; Content := "- [ ] milk" ++ NL ++ "- [ ] eggs";
                 Tasks := [10; 11] |}
       | 2 => {| Title := "read"; Content := archived_line ++ NL ++ "- [ ] book";
                 Tasks := [12] |}
       | _ => {| Title := ""; Content := ""; Tasks := [] |}
       end;
     Index_at := fun _ => 0%Z |}.

Definition fresh_manager : Manager :=
  {| notes := [1; 2]; checkboxIndex := 0; needsSave := false |}.

(** The same after [assignTaskIndices]. *)
Definition two_notes_numbered : Heap :=
  {| note_at := note_at two_notes;
     Index_at := fun t =>
       if (t =? 11)%nat then 1%Z else if (t =? 12)%nat then 2%Z else 0%Z |}.

Definition loaded_manager : Manager :=
  {| notes := [1; 2]; checkboxIndex := 3; needsSave := false |}.

(** The second note edited: it has two new tasks, at 20 and 21, in place of
    its one task. *)
Definition second_note_edited : Heap :=
  {| note_at := fun n =>
       match n with
       | 2 => {| Title := "read"; Content := "- [ ] book" ++ NL ++ "- [ ] paper";
                 Tasks := [20; 21] |}
       | _ => note_at two_notes n
       end;
     Index_at := Index_at two_notes_numbered |}.

(** A storage that works, a [models.NewNote] that puts the note at address
    3, with one task at 13, and a [note.Update] that gives the note the new
    title and content and two new tasks, at 20 and 21. *)
Definition working : Env :=
  {| storage_SaveNotes := fun _ _ => true;
     storage_DeleteArchivedSite := fun _ => true;
     models_NewNote := fun title content h =>
       (3, {| note_at := fun n =>
                if (n =? 3)%nat then
                  {| Title := title; Content := content; Tasks := [13] |}
                else note_at h n;
              Index_at := Index_at h |});
     models_Update := fun note title content h =>
       {| note_at := fun n =>
            if (n =? note)%nat then
              {| Title := title; Content := content; Tasks := [20; 21] |}
            else note_at h n;
          Index_at := Index_at h |} |}.

End Notebook.

(* ================================================================== *)
(** * The checkboxes of a note: [MarkdownRenderer.preprocessCheckboxes] *)

Module Renderer.

Import Notebook.

(** The pattern is [^G1\[G2\]G3] with the three groups [\s*-\s*], [[xX ]]
    and [.*]; it starts with [^] and is compiled without the multi-line
    flag, so a match begins at the start of the text, and the dot is any
    byte but the new line. *)
Definition space : cls := Class false perl_space.

Definition checkboxPattern : re :=
  NoteManager.cat
    [Cap 1 (NoteManager.cat [Star space; Lit "-"; Star space]);
     Lit "[";
     Cap 2 (One (Class false ["x"; "X"; " "]%char));
     Lit "]";
     Cap 3 (Star (Class true [nl]))].

(** [re.FindStringSubmatch(s)] for a pattern that starts with [^]. *)
Definition FindStringSubmatch_at_start (r : re) (s : string) : list string :=
  match matchPrefix r s with
  | None => []
  | Some (n, cs) => submatches r (MkMatch (take n s) cs)
  end.

(** [%d] *)
Definition Itoa (z : Z) : string :=
  if (z <? 0)%Z then "-" ++ Time.decimal (Z.to_nat (- z))
  else Time.decimal (Z.to_nat z).

(** The line put for a checkbox line. *)
Definition customCheckbox (taskIndex : Z) (matches : list string) : string :=
  let prefix := nth 1 matches "" in
  let status := nth 2 matches "" in
  let text := nth 3 matches "" in
  let checked := String.eqb (Strings.ToLowerASCII status) "x" in
  let checkedAttr := if checked then " checked" else "" in
  prefix ++ "<input type=" ++ DQ ++ "checkbox" ++ DQ
  ++ " data-checkbox-index=" ++ DQ ++ Itoa taskIndex ++ DQ
  ++ " id=" ++ DQ ++ "task_" ++ Itoa taskIndex ++ DQ
  ++ checkedAttr ++ "> " ++ Strings.TrimSpace text.

Definition is_checkbox (line : string) : bool :=
  (List.length (FindStringSubmatch_at_start checkboxPattern line) =? 4)%nat.

(** The loop over the lines. *)
Fixpoint number_lines (lines : list string) (taskIndex : Z) : list string :=
  match lines with
  | [] => []
  | line :: lines' =>
      let matches := FindStringSubmatch_at_start checkboxPattern line in
      if (List.length matches =? 4)%nat then
        customCheckbox taskIndex matches
        :: number_lines lines' (int_wrap (taskIndex + 1))
      else line :: number_lines lines' taskIndex
  end.

(** [preprocessCheckboxes] *)
Definition preprocessCheckboxes (content : string) : string :=
  Join (number_lines (Split content nl) 0%Z) NL.

(** The number of checkbox lines among the first [i] lines. *)
Definition checkboxes_before (i : nat) (lines : list string) : nat :=
  List.length (filter is_checkbox (firstn i lines)).

End Renderer.

(* ================================================================== *)
(** * Facts about byte strings *)

Module BytesFacts.

Lemma append_nil_r (s : string) : s ++ "" = s.
Proof. induction s as [|a s IH]; simpl; [reflexivity | now rewrite IH]. Qed.

Lemma append_assoc (s t u : string) : (s ++ t) ++ u = s ++ t ++ u.
Proof. induction s as [|a s IH]; simpl; [reflexivity | now rewrite IH]. Qed.

Lemma length_append (s t : string) :
  String.length (s ++ t) = String.length s + String.length t.
Proof. induction s as [|a s IH]; simpl; [reflexivity | now rewrite IH]. Qed.

Lemma take_drop (n : nat) (s : string) : take n s ++ drop n s = s.
Proof.
  revert s; induction n as [|n IH]; intros [|a s]; simpl; try reflexivity.
  now rewrite IH.
Qed.

Lemma length_take (n : nat) (s : string) :
  String.length (take n s) = Nat.min n (String.length s).
Proof.
  revert s; induction n as [|n IH]; intros [|a s]; simpl; try reflexivity.
  now rewrite IH.
Qed.

Lemma length_drop (n : nat) (s : string) :
  String.length (drop n s) = String.length s - n.
Proof.
  revert s; induction n as [|n IH]; intros [|a s]; simpl; try reflexivity.
  now rewrite IH.
Qed.

Lemma all_append (p : ascii -> bool) (s t : string) :
  all p (s ++ t) = all p s && all p t.
Proof.
  induction s as [|a s IH]; simpl; [reflexivity|].
  now rewrite IH, andb_assoc.
Qed.

Lemma all_take (p : ascii -> bool) (n : nat) (s : string) :
  all p s = true -> all p (take n s) = true.
Proof.
  revert s; induction n as [|n IH]; intros [|a s]; simpl; try reflexivity.
  intros H; apply andb_true_iff in H as [Ha Hs].
  now rewrite Ha, IH.
Qed.

Lemma lengthN_takeN (s : string) (n : N) : (lengthN (takeN s n) <= n)%N.
Proof.
  revert n; induction s as [|a s IH]; intros n; simpl; [lia|].
  destruct (N.eqb_spec n 0) as [->|Hn]; simpl; [lia|].
  specialize (IH (N.pred n)); lia.
Qed.

Lemma takeN_all (s : string) (n : N) : (lengthN s <= n)%N -> takeN s n = s.
Proof.
  revert n; induction s as [|a s IH]; intros n H; simpl in *; [reflexivity|].
  destruct (N.eqb_spec n 0) as [->|Hn]; [lia|].
  rewrite IH; [reflexivity | lia].
Qed.

Lemma lengthN_takeN_full (s : string) (n : N) :
  (n <= lengthN s)%N -> lengthN (takeN s n) = n.
Proof.
  revert n; induction s as [|a s IH]; intros n H; simpl in *; [lia|].
  destruct (N.eqb_spec n 0) as [->|Hn]; simpl; [reflexivity|].
  rewrite IH; lia.
Qed.

Lemma lengthN_append (s t : string) :
  lengthN (s ++ t) = (lengthN s + lengthN t)%N.
Proof. induction s as [|a s IH]; simpl; [reflexivity | rewrite IH; lia]. Qed.


End BytesFacts.

Import BytesFacts.

(* ================================================================== *)
(** * Facts about the matcher *)

Module RegexpFacts.

(** A successful search answers through its continuation. *)
Lemma star_answer (c : cls) (s : string) (pos : nat) (cs : caps) (k : cont) x :
  star c s pos cs k = Some x ->
  exists s' p' cs', k s' p' cs' = Some x.
Proof.
  revert pos; induction s as [|a s IH]; intros pos; simpl.
  - intros H; eauto.
  - destruct (cls_mem c a); [|intros H; eauto].
    destruct (star c s (S pos) cs k) eqn:E.
    + intros [= <-]. eapply IH; eauto.
    + intros H; eauto.
Qed.

Lemma run_answer (r : re) :
  forall (s : string) (pos : nat) (cs : caps) (k : cont) x,
    run r s pos cs k = Some x ->
    exists s' p' cs', k s' p' cs' = Some x.
Proof.
  induction r as [l|c|c|c|r IH|r1 IH1 r2 IH2|r1 IH1 r2 IH2|n r IH];
    intros s pos cs k x; simpl.
  - destruct (strip l s); [eauto | discriminate].
  - destruct s as [|a s]; [discriminate|].
    destruct (cls_mem c a); [eauto | discriminate].
  - apply star_answer.
  - destruct s as [|a s]; [discriminate|].
    destruct (cls_mem c a); [apply star_answer | discriminate].
  - destruct (run r s pos cs k) eqn:E.
    + intros [= <-]. eapply IH; eauto.
    + eauto.
  - intros H. apply IH1 in H as (s' & p' & cs' & H). eapply IH2; eauto.
  - destruct (run r1 s pos cs k) eqn:E.
    + intros [= <-]. eapply IH1; eauto.
    + apply IH2.
  - intros H. apply IH in H as (s' & p' & cs' & H). eauto.
Qed.

(** The group that encloses a whole pattern is the whole match. *)
Lemma matchPrefix_Cap (n : nat) (r : re) (s : string) (len : nat) (cs : caps) :
  matchPrefix (Cap n r) s = Some (len, cs) -> lookup n cs = Some (0, len).
Proof.
  unfold matchPrefix; simpl. intros H.
  apply run_answer in H as (s' & p' & cs' & H).
  unfold accept in H. injection H as <- <-.
  simpl. now rewrite Nat.eqb_refl.
Qed.

(** What [find] returns splits the subject. *)
Lemma find_split (r : re) (s pre s1 : string) (n : nat) (cs : caps) :
  find r s = Some (pre, (n, cs, s1)) -> s = pre ++ s1.
Proof.
  revert pre; induction s as [|a s IH]; intros pre; simpl.
  - destruct (matchPrefix r "") as [[n' cs']|]; [|discriminate].
    now intros [= <- _ _ <-].
  - destruct (matchPrefix r (String a s)) as [[n' cs']|].
    + now intros [= <- _ _ <-].
    + destruct (find r s) as [[pre' x]|]; [|discriminate].
      intros [= <- ->]. simpl. f_equal. now apply IH.
Qed.

Lemma find_match (r : re) (s pre s1 : string) (n : nat) (cs : caps) :
  find r s = Some (pre, (n, cs, s1)) -> matchPrefix r s1 = Some (n, cs).
Proof.
  revert pre; induction s as [|a s IH]; intros pre; simpl.
  - destruct (matchPrefix r "") as [[n' cs']|] eqn:E; [|discriminate].
    now intros [= _ <- <- <-].
  - destruct (matchPrefix r (String a s)) as [[n' cs']|] eqn:E.
    + now intros [= _ <- <- <-].
    + destruct (find r s) as [[pre' x]|]; [|discriminate].
      intros [= _ ->]. eapply IH; eauto.
Qed.

Lemma join_push (f : Match -> string) (a : ascii) x :
  join f (fst (push a x)) (snd (push a x)) = String a (join f (fst x) (snd x)).
Proof. destruct x as [[|[p m] l] t]; reflexivity. Qed.

Lemma join_app (f : Match -> string) (l1 l2 : list (string * Match)) (t : string) :
  join f (l1 ++ l2) t = join f l1 (join f l2 t).
Proof.
  induction l1 as [|[p m] l1 IH]; simpl; [reflexivity|].
  now rewrite IH.
Qed.

(** Putting every match back where it was gives the subject back. *)
Lemma segments_from_id (r : re) (fuel : nat) :
  forall (s : string) (adj : bool),
    join m_text (fst (segments_from fuel r s adj))
      (snd (segments_from fuel r s adj)) = s.
Proof.
  induction fuel as [|fuel IH]; intros s adj; simpl; [reflexivity|].
  destruct (find r s) as [[pre [[n cs] s1]]|] eqn:E; [|reflexivity].
  apply find_split in E. subst s.
  destruct n as [|n].
  - destruct s1 as [|a s1].
    + destruct pre; [destruct adj|]; simpl; now rewrite ?append_nil_r.
    + specialize (IH s1 false).
      pose proof (join_push m_text a (segments_from fuel r s1 false)) as P.
      destruct (push a (segments_from fuel r s1 false)) as [l t].
      cbn [fst snd] in *. rewrite join_app, P, IH.
      destruct pre; [destruct adj|]; simpl; reflexivity.
  - specialize (IH (drop (S n) s1) true).
    destruct (segments_from fuel r (drop (S n) s1) true) as [l t].
    cbn [fst snd join m_text] in *. now rewrite IH, take_drop.
Qed.

Lemma segments_id (r : re) (s : string) :
  join m_text (fst (segments r s)) (snd (segments r s)) = s.
Proof. apply segments_from_id. Qed.

(** Without a match nothing is replaced. *)
Lemma segments_none (r : re) (s : string) :
  find r s = None -> segments r s = ([], s).
Proof. unfold segments; simpl. now intros ->. Qed.

(** [joinM] and [join] on replacement functions that return. *)
Lemma joinM_some (f : Match -> option string) (g : Match -> string)
  (l : list (string * Match)) (t : string) :
  Forall (fun pm => f (snd pm) = Some (g (snd pm))) l ->
  joinM f l t = Some (join g l t).
Proof.
  induction 1 as [|[p m] l Hm Hl IH]; simpl; [reflexivity|].
  simpl in Hm. now rewrite Hm, IH.
Qed.


(** A replacement function that returns its argument changes nothing. *)
Lemma ReplaceAllStringFuncM_id (r : re) (src : string)
  (repl : string -> option string) :
  (forall m, In m (FindAllString r src) -> repl m = Some m) ->
  ReplaceAllStringFuncM r src repl = Some src.
Proof.
  intros H. unfold ReplaceAllStringFuncM, FindAllString in *.
  pose proof (segments_id r src) as Hid.
  destruct (segments r src) as [l t]. cbn [fst snd] in *.
  rewrite joinM_some with (g := m_text); [now rewrite Hid|].
  apply Forall_forall. intros pm Hin. apply H.
  apply in_map_iff. eauto.
Qed.


Lemma ReplaceAllStringFuncM_none (r : re) (src : string)
  (repl : string -> option string) :
  find r src = None -> ReplaceAllStringFuncM r src repl = Some src.
Proof.
  intros H. unfold ReplaceAllStringFuncM. now rewrite (segments_none _ _ H).
Qed.

(** ** One or more bytes of a class *)

Section PlusClass.

Variable c : cls.

Lemma star_accept (s : string) (pos : nat) (cs : caps) :
  star c s pos cs accept = Some (pos + run_length c s, cs).
Proof.
  revert pos; induction s as [|a s IH]; intros pos; simpl.
  - unfold accept. now rewrite Nat.add_0_r.
  - destruct (cls_mem c a).
    + rewrite IH. now rewrite Nat.add_succ_r.
    + unfold accept. now rewrite Nat.add_0_r.
Qed.

Lemma matchPrefix_Plus (s : string) :
  matchPrefix (Plus c) s =
    match s with
    | "" => None
    | String a s' =>
        if cls_mem c a then Some (S (run_length c s'), []) else None
    end.
Proof.
  unfold matchPrefix; simpl. destruct s as [|a s]; [reflexivity|].
  destruct (cls_mem c a); [|reflexivity]. now rewrite star_accept.
Qed.

Lemma find_Plus_none (s : string) :
  find (Plus c) s = None -> all (outside c) s = true.
Proof.
  induction s as [|a s IH]; [reflexivity|].
  cbn [find]. rewrite matchPrefix_Plus. unfold outside at 1. cbn [all].
  destruct (cls_mem c a); [discriminate|].
  destruct (find (Plus c) s) as [[pre x]|]; [discriminate|].
  intros _. now apply IH.
Qed.

Lemma find_Plus_some (s pre s1 : string) (n : nat) (cs : caps) :
  find (Plus c) s = Some (pre, (n, cs, s1)) ->
  all (outside c) pre = true
  /\ String.length s1 <= String.length s
  /\ exists a s1' n', s1 = String a s1' /\ n = S n'.
Proof.
  revert pre; induction s as [|a s IH]; intros pre.
  - cbn [find]. rewrite matchPrefix_Plus. discriminate.
  - cbn [find]. rewrite matchPrefix_Plus.
    destruct (cls_mem c a) eqn:Ea.
    + intros [= <- <- <- <-]. repeat split; eauto.
    + destruct (find (Plus c) s) as [[pre' [[n' cs'] s1']]|]; [|discriminate].
      intros [= <- <- <- <-].
      destruct (IH pre' eq_refl) as (Hp & Hl & Hs).
      repeat split; [|simpl; lia|exact Hs].
      cbn [all]. unfold outside at 1. now rewrite Ea, Hp.
Qed.

(** The text between the matches has no byte of [c]. *)
Lemma segments_from_Plus (fuel : nat) :
  forall (s : string) (adj : bool),
    String.length s < fuel ->
    Forall (fun pm => all (outside c) (fst pm) = true)
      (fst (segments_from fuel (Plus c) s adj))
    /\ all (outside c) (snd (segments_from fuel (Plus c) s adj)) = true.
Proof.
  induction fuel as [|fuel IH]; intros s adj Hf; [lia|].
  cbn [segments_from].
  destruct (find (Plus c) s) as [[pre [[n cs] s1]]|] eqn:E.
  - destruct (find_Plus_some _ E) as (Hp & Hl & a & s1' & n' & -> & ->).
    specialize (IH (drop (S n') (String a s1')) true).
    destruct (segments_from fuel (Plus c) (drop (S n') (String a s1')) true)
      as [l t].
    cbn [fst snd] in *.
    destruct IH as [IH1 IH2].
    { rewrite length_drop. simpl in *. lia. }
    split; [constructor; assumption | assumption].
  - cbn [fst snd]. split; [constructor | now apply find_Plus_none].
Qed.

Lemma join_outside (f : Match -> string) (l : list (string * Match)) (t : string) :
  (forall m, all (outside c) (f m) = true) ->
  Forall (fun pm => all (outside c) (fst pm) = true) l ->
  all (outside c) t = true ->
  all (outside c) (join f l t) = true.
Proof.
  intros Hf Hl Ht. induction Hl as [|[p m] l Hp Hl IH]; [exact Ht|].
  cbn [join]. cbn [fst] in Hp. now rewrite !all_append, Hp, Hf, IH.
Qed.

End PlusClass.

(** ** Where the matches of [segments] come from *)

Lemma Forall_push (P : Match -> Prop) (a : ascii) x :
  Forall (fun pm => P (snd pm)) (fst x) ->
  Forall (fun pm => P (snd pm)) (fst (push a x)).
Proof.
  destruct x as [[|[p m] l] t]; cbn [push fst]; [trivial|].
  intros H. inversion H; subst. now constructor.
Qed.

Lemma segments_from_matches (r : re) (fuel : nat) :
  forall (s : string) (adj : bool),
    Forall (fun pm => from_match r (snd pm)) (fst (segments_from fuel r s adj)).
Proof.
  induction fuel as [|fuel IH]; intros s adj; cbn [segments_from]; [constructor|].
  destruct (find r s) as [[pre [[n cs] s1]]|] eqn:E; [|constructor].
  apply find_match in E.
  assert (M : forall p : string, from_match r (snd (p, MkMatch (take n s1) cs)))
    by (intros p; exists n, s1; split; [exact E | reflexivity]).
  destruct n as [|n].
  - assert (Hh : Forall (fun pm => from_match r (snd pm))
                   match pre with
                   | "" => if adj then [] else [(pre, MkMatch "" cs)]
                   | String _ _ => [(pre, MkMatch "" cs)]
                   end).
    { destruct pre; [destruct adj|]; repeat constructor;
        apply (M ""). }
    destruct s1 as [|a s1]; [exact Hh|].
    specialize (IH s1 false).
    apply (Forall_push _ a) in IH.
    destruct (push a (segments_from fuel r s1 false)) as [l t].
    cbn [fst] in *. apply Forall_app. now split.
  - specialize (IH (drop (S n) s1) true).
    destruct (segments_from fuel r (drop (S n) s1) true) as [l t].
    cbn [fst] in *. constructor; [apply M | exact IH].
Qed.

Lemma take_take (n : nat) (s : string) : take n (take n s) = take n s.
Proof.
  revert s; induction n as [|n IH]; intros [|a s]; cbn [take]; try reflexivity.
  now rewrite IH.
Qed.

(** The group around a whole pattern holds the text of the match. *)
Lemma group_Cap (n : nat) (r : re) (m : Match) :
  from_match (Cap n r) m -> group m n = m_text m.
Proof.
  intros (len & s1 & H & Ht). apply matchPrefix_Cap in H.
  unfold group. rewrite H, Ht, Nat.sub_0_r. cbn [drop]. apply take_take.
Qed.

Lemma join_ext (f g : Match -> string) (l : list (string * Match)) (t : string) :
  Forall (fun pm => f (snd pm) = g (snd pm)) l -> join f l t = join g l t.
Proof.
  induction 1 as [|[p m] l Hm Hl IH]; cbn [join]; [reflexivity|].
  cbn [snd] in Hm. now rewrite Hm, IH.
Qed.

(** ** Templates *)

Section ExpandFacts.

Variable word_width : string -> nat.

Lemma cut_dollar_none (t : string) : no_dollar t = true -> cut_dollar t = None.
Proof.
  induction t as [|a t IH]; [reflexivity|].
  unfold no_dollar. cbn [all cut_dollar].
  destruct (Ascii.eqb a "$"); [discriminate|]. cbn [negb andb].
  intros H. fold (no_dollar t) in H. now rewrite IH.
Qed.

(** A template without [$] stands for itself. *)
Lemma expand_no_dollar (fuel nsub : nat) (t : string) (m : Match) :
  no_dollar t = true -> expand word_width fuel nsub t m = t.
Proof.
  intros H. destruct fuel; [reflexivity|].
  cbn [expand]. now rewrite cut_dollar_none.
Qed.

Lemma cut_dollar_length (t before after : string) :
  cut_dollar t = Some (before, after) -> String.length after < String.length t.
Proof.
  revert before; induction t as [|a t IH]; intros before; [discriminate|].
  cbn [cut_dollar]. destruct (Ascii.eqb a "$").
  - intros [= _ <-]. simpl; lia.
  - destruct (cut_dollar t) as [[b r]|]; [|discriminate].
    intros [= _ <-]. specialize (IH b eq_refl). simpl; lia.
Qed.

Lemma extract_length (str name rest : string) (num : option N) :
  extract word_width str = Some (name, num, rest) ->
  String.length rest <= String.length str.
Proof.
  unfold extract. destruct str as [|a s']; [discriminate|].
  set (str := if Ascii.eqb a "{" then s' else String a s').
  assert (Hs : String.length str <= String.length (String a s'))
    by (unfold str; destruct (Ascii.eqb a "{"); simpl; lia).
  cbv zeta. fold str.
  set (i := name_len word_width (String.length str) str).
  destruct (i =? 0)%nat; [discriminate|].
  pose proof (length_drop i str) as Hd.
  destruct (Ascii.eqb a "{").
  - destruct (drop i str) as [|b r]; [discriminate|].
    destruct (Ascii.eqb b "}"); [|discriminate].
    intros [= _ _ <-]. simpl in *. lia.
  - intros [= _ _ <-]. lia.
Qed.

(** The fuel of [expand] does not matter once it exceeds the template. *)
Lemma expand_fuel (nsub : nat) (m : Match) (f : nat) :
  forall (g : nat) (t : string),
    String.length t < f -> String.length t < g ->
    expand word_width f nsub t m = expand word_width g nsub t m.
Proof.
  induction f as [|f IH]; intros g t Hf Hg; [lia|].
  destruct g as [|g]; [lia|].
  cbn [expand].
  destruct (cut_dollar t) as [[before after]|] eqn:E; [|reflexivity].
  apply cut_dollar_length in E.
  assert (V : match extract word_width after with
              | None => before ++ "$" ++ expand word_width f nsub after m
              | Some (_, num, rest) =>
                  before ++ expand_group nsub m num
                  ++ expand word_width f nsub rest m
              end
              = match extract word_width after with
                | None => before ++ "$" ++ expand word_width g nsub after m
                | Some (_, num, rest) =>
                    before ++ expand_group nsub m num
                    ++ expand word_width g nsub rest m
                end).
  { destruct (extract word_width after) as [[[name num] rest]|] eqn:X.
    - apply extract_length in X. rewrite (IH g rest); [reflexivity|lia|lia].
    - rewrite (IH g after); [reflexivity|lia|lia]. }
  cbv zeta. destruct after as [|a rest]; [exact V|].
  destruct (Ascii.eqb a "$"); [|exact V].
  rewrite (IH g rest); [reflexivity| |]; simpl in E; lia.
Qed.

Lemma expand_S (fuel nsub : nat) (t : string) (m : Match) :
  expand word_width (S fuel) nsub t m =
    match cut_dollar t with
    | None => t
    | Some (before, after) =>
        let variable :=
          match extract word_width after with
          | None => before ++ "$" ++ expand word_width fuel nsub after m
          | Some (_, num, rest) =>
              before ++ expand_group nsub m num
              ++ expand word_width fuel nsub rest m
          end in
        match after with
        | String a rest =>
            if Ascii.eqb a "$"
            then before ++ "$" ++ expand word_width fuel nsub rest m
            else variable
        | "" => variable
        end
    end.
Proof. reflexivity. Qed.

(** [$1] at the head of a template, before a byte that is not of a name. *)
Lemma Expand_group1 (r : re) (a : ascii) (rest : string) (m : Match) :
  1 <= numSubexp r ->
  is_ascii_word a = false -> (nat_of_ascii a <? 128)%nat = true ->
  Expand word_width r ("$1" ++ String a rest) m
  = group m 1 ++ Expand word_width r (String a rest) m.
Proof.
  intros Hn Ha Hb. unfold Expand.
  set (R := expand word_width (S (String.length (String a rest))) (numSubexp r)
              (String a rest) m).
  cbn [append String.length]. rewrite expand_S.
  set (e := expand word_width _ (numSubexp r)).
  cbn [cut_dollar Ascii.eqb Bool.eqb append].
  unfold extract. cbn [Ascii.eqb Bool.eqb String.length name_len].
  change (is_ascii_word "1") with true. cbv iota. rewrite Ha, Hb.
  cbn [Nat.eqb take drop HasPrefix0 Ascii.eqb Bool.eqb andb String.length
       Nat.ltb Nat.leb].
  change (name_num "1" 0) with (Some 1%N).
  cbn [expand_group]. change (N.to_nat 1) with 1.
  destruct (Nat.leb_spec 1 (numSubexp r)); [|lia].
  f_equal. subst e R. apply expand_fuel; simpl; lia.
Qed.

End ExpandFacts.

End RegexpFacts.

(* ================================================================== *)
(** * Facts about [strings.Trim] *)

Module StringsFacts.

Import Strings.

Section Trim.

Variable cutset : list ascii.

Lemma all_TrimLeft (p : ascii -> bool) (s : string) :
  all p s = true -> all p (TrimLeft s cutset) = true.
Proof.
  induction s as [|a s IH]; [reflexivity|].
  intros H. cbn [TrimLeft]. destruct (mem a cutset); [|exact H].
  cbn [all] in H. apply andb_true_iff in H as [_ H]. now apply IH.
Qed.

Lemma all_TrimRight (p : ascii -> bool) (s : string) :
  all p s = true -> all p (TrimRight s cutset) = true.
Proof.
  induction s as [|a s IH]; [reflexivity|].
  intros H. cbn [all] in H. apply andb_true_iff in H as [Ha H].
  cbn [TrimRight]. specialize (IH H).
  destruct (TrimRight s cutset) as [|b t].
  - destruct (mem a cutset); [reflexivity|]. cbn [all]. now rewrite Ha.
  - cbn [all] in *. now rewrite Ha, IH.
Qed.

Lemma length_TrimLeft (s : string) :
  String.length (TrimLeft s cutset) <= String.length s.
Proof.
  induction s as [|a s IH]; [reflexivity|].
  cbn [TrimLeft]. destruct (mem a cutset); simpl; lia.
Qed.

Lemma length_TrimRight (s : string) :
  String.length (TrimRight s cutset) <= String.length s.
Proof.
  induction s as [|a s IH]; [reflexivity|].
  cbn [TrimRight]. destruct (TrimRight s cutset) as [|b t].
  - destruct (mem a cutset); simpl; lia.
  - simpl in *. lia.
Qed.

Lemma first_TrimLeft (s : string) (a : ascii) :
  first (TrimLeft s cutset) = Some a -> mem a cutset = false.
Proof.
  induction s as [|b s IH]; [discriminate|].
  cbn [TrimLeft]. destruct (mem b cutset) eqn:E; [exact IH|].
  now intros [= <-].
Qed.

Lemma first_TrimRight (s : string) (a : ascii) :
  first (TrimRight s cutset) = Some a -> first s = Some a.
Proof.
  destruct s as [|b s]; [discriminate|].
  cbn [TrimRight]. destruct (TrimRight s cutset) as [|c t].
  - destruct (mem b cutset); [discriminate | trivial].
  - trivial.
Qed.

Lemma last_TrimRight (s : string) (a : ascii) :
  last (TrimRight s cutset) = Some a -> mem a cutset = false.
Proof.
  induction s as [|b s IH]; [discriminate|].
  cbn [TrimRight]. destruct (TrimRight s cutset) as [|c t].
  - destruct (mem b cutset) eqn:E; [discriminate|]. now intros [= <-].
  - exact IH.
Qed.

(** [Trim] leaves no byte of the cutset at either end. *)
Lemma first_Trim (s : string) (a : ascii) :
  first (Trim s cutset) = Some a -> mem a cutset = false.
Proof. intros H. eapply first_TrimLeft, first_TrimRight, H. Qed.

Lemma last_Trim (s : string) (a : ascii) :
  last (Trim s cutset) = Some a -> mem a cutset = false.
Proof. apply last_TrimRight. Qed.

Lemma all_Trim (p : ascii -> bool) (s : string) :
  all p s = true -> all p (Trim s cutset) = true.
Proof. intros H. now apply all_TrimRight, all_TrimLeft. Qed.

Lemma length_Trim (s : string) :
  String.length (Trim s cutset) <= String.length s.
Proof.
  unfold Trim. pose proof (length_TrimRight (TrimLeft s cutset)).
  pose proof (length_TrimLeft s). lia.
Qed.

End Trim.

End StringsFacts.

(* ================================================================== *)
(** * Facts about the archiver *)

Module NoteManagerFacts.

Import NoteManager RegexpFacts Tables Examples.

Lemma eqb_empty_false (s : string) : s <> "" -> String.eqb s "" = false.
Proof. intros H. now apply String.eqb_neq. Qed.

(** ** Downloads that fail *)

Lemma downloadResource_fails (W : World) (u : string) :
  u <> "" -> fetch_fails W u -> downloadResource W u = Some "".
Proof.
  intros Hu [H|[H|(resp & H & Hs)]]; [contradiction| |];
    unfold downloadResource; rewrite H; [reflexivity|].
  apply Z.eqb_neq in Hs. now rewrite Hs.
Qed.

Lemma downloadAndEncodeImage_fails (W : World) (u : string) :
  u <> "" -> fetch_fails W u -> downloadAndEncodeImage W u = Some "".
Proof.
  intros Hu [H|[H|(resp & H & Hs)]]; [contradiction| |];
    unfold downloadAndEncodeImage; rewrite H; [reflexivity|].
  apply Z.eqb_neq in Hs. now rewrite Hs.
Qed.

(** Every function of the inliner gives the matched text back when the
    fetch of its reference fails. *)
Lemma inline_fetch_fails (W : World) (fuel : nat) (k : ref_kind) (baseURL : URL)
  (match_ : string) :
  fetch_fails W (resolveURL W baseURL (reference k match_)) ->
  inline W fuel k baseURL match_ = Some match_.
Proof.
  intros H.
  destruct k; cbn [inline reference] in *;
    unfold inlineCSS_link, inlineJavaScript_script, inlineImages_img,
      inlineImages_js, processCSS_import, processCSS_url, processInlineCSS_url;
    cbv zeta;
    repeat match goal with
      | |- (if (_ <? 2)%nat then _ else _) = _ =>
          destruct (_ <? 2)%nat; [reflexivity|]
      | |- (if Strings.HasPrefix _ _ then _ else _) = _ =>
          destruct (Strings.HasPrefix _ _); [reflexivity|]
      | |- (if isImage _ || isFont _ then _ else _) = _ =>
          destruct (isImage _ || isFont _); [|reflexivity]
      | |- (if String.eqb ?u "" then _ else _) = _ =>
          destruct (String.eqb_spec u ""); [reflexivity|]
      end;
    first [ rewrite downloadResource_fails by assumption
          | rewrite downloadAndEncodeImage_fails by assumption ];
    reflexivity.
Qed.

(** ** References that are data URIs already *)

Lemma strip_append (l s t : string) : strip l s = Some t -> s = l ++ t.
Proof.
  revert s; induction l as [|a l IH]; intros s; cbn [strip].
  - now intros [= ->].
  - destruct s as [|b s]; [discriminate|].
    destruct (Ascii.eqb_spec a b) as [<-|]; [|discriminate].
    intros H. cbn. f_equal. now apply IH.
Qed.

Lemma HasPrefix_data (t : string) :
  Strings.HasPrefix t "data:" = true ->
  Strings.Contains t ":" = true
  /\ Strings.HasPrefix t "http" = false
  /\ Strings.HasPrefix t "//" = false.
Proof.
  unfold Strings.HasPrefix at 1.
  destruct (strip "data:" t) as [r|] eqn:E; [|discriminate].
  intros _. apply strip_append in E. subst t.
  repeat split; reflexivity.
Qed.

Lemma resolveURL_data (W : World) (baseURL : URL) (t : string) :
  Strings.HasPrefix t "data:" = true -> resolveURL W baseURL t = "".
Proof.
  intros H. destruct (HasPrefix_data _ H) as (H1 & H2 & H3).
  unfold resolveURL. now rewrite H1, H2, H3.
Qed.

(** ** The two rewritings of [url(...)] *)


(** ** A world where every fetch of a sub-resource fails *)

Section AllFail.

Variable W : World.
Hypothesis all_fail :
  forall baseURL target, fetch_fails W (resolveURL W baseURL target).

Lemma inlineCSS_all_fail (fuel : nat) (html : string) (baseURL : URL) :
  inlineCSS W fuel html baseURL = Some html.
Proof.
  apply ReplaceAllStringFuncM_id. intros m _.
  apply (@inline_fetch_fails W fuel StylesheetLink), all_fail.
Qed.

Lemma inlineJavaScript_all_fail (html : string) (baseURL : URL) :
  inlineJavaScript W html baseURL = Some html.
Proof.
  apply ReplaceAllStringFuncM_id. intros m _.
  apply (@inline_fetch_fails W 0 ScriptSrc), all_fail.
Qed.

Lemma inlineImages_all_fail (html : string) (baseURL : URL) :
  inlineImages W html baseURL = Some html.
Proof.
  unfold inlineImages.
  rewrite ReplaceAllStringFuncM_id.
  - apply ReplaceAllStringFuncM_id. intros m _.
    apply (@inline_fetch_fails W 0 QuotedImage), all_fail.
  - intros m _. apply (@inline_fetch_fails W 0 ImgSrc), all_fail.
Qed.

Lemma processInlineCSS_all_fail (css baseURLStr : string) :
  processInlineCSS W css baseURLStr = Some css.
Proof.
  unfold processInlineCSS. destruct (url_Parse W baseURLStr); [|reflexivity].
  apply ReplaceAllStringFuncM_id. intros m _.
  apply (@inline_fetch_fails W 0 StyleUrl), all_fail.
Qed.

Lemma inlineStyleAttributes_all_fail (html : string) (baseURL : URL) :
  exists html', inlineStyleAttributes W html baseURL = Some html'.
Proof.
  unfold inlineStyleAttributes, ReplaceAllStringFuncM.
  destruct (segments styleRe html) as [l t].
  eexists. apply joinM_some with
    (g := fun m =>
            if (List.length (FindStringSubmatch styleRe (m_text m)) <? 2)%nat
            then m_text m
            else "style=" ++ take 1 (drop 6 (m_text m))
                 ++ nth 1 (FindStringSubmatch styleRe (m_text m)) ""
                 ++ take 1 (drop 6 (m_text m))).
  apply Forall_forall. intros [p m] _. cbn [snd].
  unfold inlineStyleAttributes_style. cbv zeta.
  destruct (_ <? 2)%nat; [reflexivity|].
  now rewrite processInlineCSS_all_fail.
Qed.

Lemma inlineAllResources_all_fail (fuel : nat) (html baseURL : string) :
  exists html', inlineAllResources W fuel html baseURL = Some html'.
Proof.
  unfold inlineAllResources, inlinePasses.
  destruct (url_Parse W baseURL) as [b|]; [|eauto].
  rewrite inlineCSS_all_fail, inlineJavaScript_all_fail, inlineImages_all_fail.
  unfold inlineWebFonts.
  destruct (inlineStyleAttributes_all_fail html b) as [html' ->]. eauto.
Qed.

End AllFail.

(** ** The banner *)

Lemma no_dollar_append (s t : string) :
  no_dollar (s ++ t) = no_dollar s && no_dollar t.
Proof. apply all_append. Qed.

Lemma no_dollar_uint (d : Decimal.uint) :
  no_dollar (NilEmpty.string_of_uint d) = true.
Proof. induction d; cbn; trivial. Qed.

Lemma no_dollar_pad (width n : nat) : no_dollar (Time.pad width n) = true.
Proof.
  unfold Time.pad. rewrite no_dollar_append. apply andb_true_iff. split.
  - induction (width - _) as [|k IH]; [reflexivity | exact IH].
  - destruct n; [reflexivity | apply no_dollar_uint].
Qed.

Lemma no_dollar_Format_second (t : Time.Time) :
  no_dollar (Time.Format_second t) = true.
Proof.
  unfold Time.Format_second, Time.Format_minute.
  rewrite !no_dollar_append, !no_dollar_pad. reflexivity.
Qed.

Lemma no_dollar_archiveHeader (W : World) (baseURL : string) :
  no_dollar baseURL = true -> no_dollar (archiveHeader W baseURL) = true.
Proof.
  intros H. unfold archiveHeader. cbv zeta.
  rewrite !no_dollar_append, !H, !no_dollar_Format_second. reflexivity.
Qed.

Lemma archiveHeader_head (W : World) (baseURL : string) :
  exists rest, archiveHeader W baseURL = String nl rest.
Proof. eexists. unfold archiveHeader, NL. cbn [append]. reflexivity. Qed.

(** What [bodyRe.ReplaceAllString] puts for a match: the match, and the
    banner with its template expanded. *)
Lemma Expand_banner (W : World) (baseURL : string) (m : Match) :
  from_match bodyRe m ->
  Expand (unicode_word_width W) bodyRe ("$1" ++ archiveHeader W baseURL) m
  = m_text m ++ Expand (unicode_word_width W) bodyRe (archiveHeader W baseURL) m.
Proof.
  intros H. destruct (archiveHeader_head W baseURL) as [rest ->].
  rewrite Expand_group1; [|cbn; lia|reflexivity|reflexivity].
  now rewrite (group_Cap H).
Qed.

(** ** The recursion of [processCSS] *)

Lemma processCSS_S (W : World) (fuel : nat) (cssContent cssURL : string) :
  processCSS W (S fuel) cssContent cssURL =
    match url_Parse W cssURL with
    | None => Some cssContent
    | Some cssBaseURL =>
        cssContent <-
          ReplaceAllStringFuncM importRe cssContent
            (processCSS_import W (processCSS W fuel) cssBaseURL) ;;
        ReplaceAllStringFuncM urlRe cssContent (processCSS_url W cssBaseURL)
    end.
Proof. reflexivity. Qed.

(** More fuel does not change what [processCSS] returns. *)
Lemma joinM_mono (f g : Match -> option string) (l : list (string * Match))
  (t r : string) :
  (forall m x, f m = Some x -> g m = Some x) ->
  joinM f l t = Some r -> joinM g l t = Some r.
Proof.
  intros H. revert r; induction l as [|[p m] l IH]; intros r; cbn [joinM];
    [trivial|].
  destruct (f m) as [x|] eqn:E; [|discriminate].
  rewrite (H _ _ E).
  destruct (joinM f l t) as [y|]; [|discriminate].
  now rewrite (IH y eq_refl).
Qed.

Lemma processCSS_import_mono (W : World)
  (rec rec' : string -> string -> option string) (baseURL : URL)
  (match_ x : string) :
  (forall c u y, rec c u = Some y -> rec' c u = Some y) ->
  processCSS_import W rec baseURL match_ = Some x ->
  processCSS_import W rec' baseURL match_ = Some x.
Proof.
  intros H. unfold processCSS_import. cbv zeta.
  destruct (_ <? 2)%nat; [trivial|].
  destruct (String.eqb _ ""); [trivial|].
  destruct (downloadResource W _) as [css|]; [|discriminate].
  destruct (String.eqb css ""); [trivial|].
  destruct (rec css _) as [y|] eqn:E; [|discriminate].
  now rewrite (H _ _ _ E).
Qed.

Lemma processCSS_more_fuel (W : World) (fuel : nat) :
  forall cssContent cssURL r,
    processCSS W fuel cssContent cssURL = Some r ->
    processCSS W (S fuel) cssContent cssURL = Some r.
Proof.
  induction fuel as [|fuel IH]; intros css url r; [discriminate|].
  rewrite (processCSS_S W (S fuel)), (processCSS_S W fuel).
  destruct (url_Parse W url) as [b|]; [|trivial].
  destruct (ReplaceAllStringFuncM importRe css
              (processCSS_import W (processCSS W fuel) b)) as [c|] eqn:E;
    [|discriminate].
  assert (E' : ReplaceAllStringFuncM importRe css
                 (processCSS_import W (processCSS W (S fuel)) b) = Some c).
  { unfold ReplaceAllStringFuncM in *.
    destruct (segments importRe css) as [l t].
    eapply joinM_mono; [|exact E].
    intros m x. apply processCSS_import_mono. exact IH. }
  now rewrite E'.
Qed.

Lemma processCSS_fuel (W : World) (fuel fuel' : nat)
  (cssContent cssURL r : string) :
  fuel <= fuel' ->
  processCSS W fuel cssContent cssURL = Some r ->
  processCSS W fuel' cssContent cssURL = Some r.
Proof.
  induction 1 as [|fuel' _ IH]; [trivial|].
  intros H. now apply processCSS_more_fuel, IH.
Qed.

(** The stylesheet that imports itself. *)
Lemma loop_import (rec : string -> string -> option string) :
  rec loop_css loop_url = None ->
  ReplaceAllStringFuncM importRe loop_css
    (processCSS_import loop_world rec (MkURL "h.test" loop_url)) = None.
Proof.
  intros H. vm_compute. vm_compute in H. now rewrite H.
Qed.

Lemma loop_never_returns (fuel : nat) :
  processCSS loop_world fuel loop_css loop_url = None.
Proof.
  induction fuel as [|fuel IH]; [reflexivity|].
  rewrite processCSS_S.
  change (url_Parse loop_world loop_url) with (Some (MkURL "h.test" loop_url)).
  cbv beta iota.
  now rewrite (loop_import _ IH).
Qed.

(** The site that goes down. *)
Lemma find_urlRe_none (s : string) : no_u s = true -> find urlRe s = None.
Proof.
  induction s as [|a s IH]; [reflexivity|].
  unfold no_u. cbn [all]. intros H. apply andb_true_iff in H as [Ha Hs].
  cbn [find].
  replace (matchPrefix urlRe (String a s)) with (@None (nat * caps)).
  - now rewrite (IH Hs).
  - unfold matchPrefix, urlRe. cbn [cat run strip].
    rewrite Ascii.eqb_sym. now destruct (Ascii.eqb a "u").
Qed.

Lemma length_dirs (i : nat) : String.length (dirs i) = 2 * i.
Proof. induction i as [|i IH]; [reflexivity|]. cbn [dirs append String.length]. lia. Qed.

Lemma length_descent_url (i : nat) : String.length (descent_url i) = 19 + 2 * i.
Proof.
  unfold descent_url. rewrite !length_append, length_dirs. simpl. lia.
Qed.

Lemma no_u_descent_url (i : nat) : no_u (descent_url i) = true.
Proof.
  unfold descent_url, no_u. rewrite !all_append.
  replace (all _ (dirs i)) with true; [reflexivity|].
  induction i as [|i IH]; [reflexivity | exact IH].
Qed.

Lemma no_u_descent_out (k : nat) : forall i, no_u (descent_out k i) = true.
Proof.
  induction k as [|k IH]; intros i; [reflexivity|].
  cbn [descent_out]. unfold no_u in *. rewrite !all_append.
  fold (no_u (descent_url (S i))). now rewrite no_u_descent_url, IH.
Qed.

Lemma descent_download (depth i : nat) :
  downloadResource (descent_world depth) (descent_url i)
  = Some (descent_content depth i).
Proof.
  unfold downloadResource, descent_content. cbn [http_Get descent_world].
  rewrite length_descent_url.
  replace (19 + 2 * i <? 19 + 2 * depth)%nat with (i <? depth)%nat.
  - destruct (i <? depth)%nat; reflexivity.
  - destruct (Nat.ltb_spec i depth), (Nat.ltb_spec (19 + 2 * i) (19 + 2 * depth));
      trivial; lia.
Qed.

Lemma descent_resolve (depth i : nat) :
  resolveURL (descent_world depth) (MkURL "h.test" (descent_url i)) "d/c.css"
  = descent_url (S i).
Proof. reflexivity. Qed.

Lemma descent_content_not_empty (depth i : nat) :
  String.eqb (descent_content depth i) "" = false.
Proof. unfold descent_content. now destruct (i <? depth)%nat. Qed.

Lemma descent_import (depth i : nat) (rec : string -> string -> option string) :
  ReplaceAllStringFuncM importRe descent_css
    (processCSS_import (descent_world depth) rec (MkURL "h.test" (descent_url i)))
  = match rec (descent_content depth (S i)) (descent_url (S i)) with
    | Some processed =>
        Some ("/* Imported from: " ++ descent_url (S i) ++ " */" ++ NL
              ++ processed)
    | None => None
    end.
Proof.
  unfold ReplaceAllStringFuncM.
  replace (segments importRe descent_css)
    with ([("", MkMatch descent_css [(1, (9, 16))])], "") by reflexivity.
  cbn [joinM m_text]. unfold processCSS_import.
  replace (FindStringSubmatch importRe descent_css)
    with [descent_css; "d/c.css"] by reflexivity.
  cbn [List.length Nat.ltb Nat.leb nth]. cbv zeta.
  rewrite descent_resolve.
  replace (String.eqb (descent_url (S i)) "") with false by reflexivity.
  rewrite descent_download, descent_content_not_empty.
  destruct (rec _ _) as [processed|]; [|reflexivity].
  cbn [append]. now rewrite append_nil_r.
Qed.

(** Every level of the site is expanded, whatever the depth. *)
Lemma descent_expands (depth k : nat) :
  forall i, i + k = depth ->
    processCSS (descent_world depth) (S k) (descent_content depth i)
      (descent_url i)
    = Some (descent_out k i).
Proof.
  induction k as [|k IH]; intros i Hd.
  - unfold descent_content. destruct (Nat.ltb_spec i depth); [lia|]. reflexivity.
  - unfold descent_content. destruct (Nat.ltb_spec i depth); [|lia].
    rewrite processCSS_S.
    change (url_Parse (descent_world depth) (descent_url i))
      with (Some (MkURL "h.test" (descent_url i))).
    cbv beta iota. rewrite descent_import.
    rewrite (IH (S i)) by lia.
    apply ReplaceAllStringFuncM_none, find_urlRe_none.
    apply (no_u_descent_out (S k) i).
Qed.

(** The calls go as deep as the site. *)
Lemma descent_depth (depth fuel : nat) :
  forall k i, i + k = depth -> fuel <= k ->
    processCSS (descent_world depth) fuel (descent_content depth i)
      (descent_url i)
    = None.
Proof.
  induction fuel as [|fuel IH]; intros k i Hd Hk; [reflexivity|].
  unfold descent_content. destruct (Nat.ltb_spec i depth); [|lia].
  rewrite processCSS_S.
  change (url_Parse (descent_world depth) (descent_url i))
    with (Some (MkURL "h.test" (descent_url i))).
  cbv beta iota. rewrite descent_import.
  now rewrite (IH (k - 1) (S i)) by lia.
Qed.

(** ** The job and its top-level page *)

Lemma archiveWebsite_served (W : World) (BasePath : string) (fuel : nat)
  (url html : string) :
  page_served W BasePath url html ->
  exists info path dir,
    archiveWebsite W BasePath fuel url =
      (processedHTML <- inlineAllResources W fuel html url ;;
       Some (Ok info, [MkdirAll dir; WriteFile path processedHTML])).
Proof.
  intros ((parsed & Hp) & (ct & Hg) & Hm & Hw).
  unfold archiveWebsite. rewrite Hp, Hg. cbn.
  rewrite Hm. cbn.
  do 3 eexists.
  destruct (inlineAllResources W fuel html url) as [p|]; [|reflexivity].
  rewrite Hw. cbn. reflexivity.
Qed.

End NoteManagerFacts.

(* ================================================================== *)
(** * The properties of the specification *)

Module Properties.

Import NoteManager RegexpFacts NoteManagerFacts Examples.

(** C1, as the specification has it, fails: there is no cap at depth 5.
    On a site whose stylesheets import one another seven directories down,
    every [@import] rule is expanded, the one met at depth 5 and the two
    below it included, and none is left in the output. *)
Lemma import_below_depth_five_is_expanded :
  processCSS (descent_world 7) 8 "@import 'd/c.css';" "http://h.test/c.css"
  = Some ("/* Imported from: http://h.test/d/c.css */" ++ NL
          ++ "/* Imported from: http://h.test/d/d/c.css */" ++ NL
          ++ "/* Imported from: http://h.test/d/d/d/c.css */" ++ NL
          ++ "/* Imported from: http://h.test/d/d/d/d/c.css */" ++ NL
          ++ "/* Imported from: http://h.test/d/d/d/d/d/c.css */" ++ NL
          ++ "/* Imported from: http://h.test/d/d/d/d/d/d/c.css */" ++ NL
          ++ "/* Imported from: http://h.test/d/d/d/d/d/d/d/c.css */" ++ NL
          ++ "p{}")
  /\ processCSS (descent_world 7) 7 "@import 'd/c.css';" "http://h.test/c.css"
     = None.
Proof. split; reflexivity. Qed.

(** C1, amended: the expansion of [@import] rules has no depth cap.  An
    [@import] rule whose target resolves and downloads is expanded at
    whatever depth it is met: for every depth, the site that goes that many
    directories down is expanded in full, by calls nested one deeper than
    the site and not by fewer.  So the expansion ends only if every chain of
    imports ends: on a stylesheet that imports itself it never returns. *)
Theorem import_expansion_has_no_cap :
  (forall depth,
      processCSS (descent_world depth) (S depth) (descent_content depth 0)
        (descent_url 0)
      = Some (descent_out depth 0)
      /\ forall fuel, fuel <= depth ->
           processCSS (descent_world depth) fuel (descent_content depth 0)
             (descent_url 0)
           = None)
  /\ (forall fuel, processCSS loop_world fuel loop_css loop_url = None).
Proof.
  split; [|exact loop_never_returns].
  intros depth. split.
  - now apply descent_expands.
  - intros fuel H. now apply (@descent_depth depth fuel depth 0).
Qed.

(** C3 is right and the code is not: the link replaces the first occurrence
    of the text of the token in the note, which need not be the token.  Here
    the first token fails (404) and its text begins with the text of the
    second, which succeeds: the link lands inside the first token, and the
    second token stays. *)
Theorem link_replaces_first_occurrence_of_text :
  FindAllString archiveLinkRe "+http://a.test/x +http://a.test"
  = ["+http://a.test/x"; "+http://a.test"]
  /\ archiveWebsite prefix_world "/notes" 1 "http://a.test/x"
     = Some (Err (HTTPError 404), [])
  /\ (exists ev,
        archiveWebsite prefix_world "/notes" 1 "http://a.test"
        = Some (Ok {| Title := "A";
                      FilePath := "assets/sites/2024_01_01_120000_A-a.test.html";
                      Timestamp := Tables.noon |}, ev))
  /\ option_map fst
       (processArchiveLinks prefix_world "/notes" 1
          "+http://a.test/x +http://a.test")
     = Some "[A](assets/sites/2024_01_01_120000_A-a.test.html) (archived 2024-01-01 12:00)/x +http://a.test".
Proof.
  repeat split; try reflexivity.
  eexists. reflexivity.
Qed.

(** C2 is right and the code is not: the [src] of this image answers 404,
    and the tag is not left as it was.  [inlineImages] means to take the
    value of [src] (its comment says so) but takes the first match of
    [srcRe] in the tag, which is inside [data-src]; that image is there, and
    the function then replaces every match of [srcRe] in the tag, the [src]
    whose fetch would fail included.  The job completes, and the archive
    holds the overwritten tag.  (The same defect breaks C7.) *)
Theorem failed_image_src_is_overwritten :
  let tag := "<img data-src='real.png' src='missing.png'>" in
  let overwritten :=
    "<img data-src=" ++ DQ ++ "data:image/png;base64,UE5H" ++ DQ
    ++ " src=" ++ DQ ++ "data:image/png;base64,UE5H" ++ DQ ++ ">" in
  FindStringSubmatch imgRe tag = [tag; "missing.png"]
  /\ resolveURL lazy_image_world h_test "missing.png"
     = "http://h.test/missing.png"
  /\ http_Get lazy_image_world "http://h.test/missing.png" = Tables.status 404
  /\ downloadAndEncodeImage lazy_image_world "http://h.test/missing.png"
     = Some ""
  /\ inlineImages lazy_image_world tag h_test = Some overwritten
  /\ archiveWebsite lazy_image_world "/notes" 1 "http://h.test/"
     = Some (Ok {| Title := "h.test";
                   FilePath :=
                     "assets/sites/2024_01_01_120000_h.test-h.test.html";
                   Timestamp := Tables.noon |},
             [MkdirAll "/notes/assets/sites";
              WriteFile
                "/notes/assets/sites/2024_01_01_120000_h.test-h.test.html"
                overwritten]).
Proof. repeat split; reflexivity. Qed.

(** C4, as the specification has it, fails: a top-level answer with status
    201 is inside 200-299 and the job fails on it. *)
Lemma status_201_is_refused :
  (200 <= 201 <= 299)%Z
  /\ http_Get created_world "http://h.test/" = Tables.status 201
  /\ archiveWebsite created_world "/notes" 1 "http://h.test/"
     = Some (Err (HTTPError 201), []).
Proof. split; [lia|]. split; reflexivity. Qed.

(** C4, amended: the job passes the status check of the top-level fetch
    exactly when the status is 200; on any other status it fails with the
    HTTP error of that status and has done nothing to the file system. *)
Theorem top_level_status_must_be_200 (W : World) (BasePath : string)
  (fuel : nat) (websiteURL : string) (parsedURL : URL) (resp : Http.Response) :
  url_Parse W websiteURL = Some parsedURL ->
  http_Get W websiteURL = Http.Responded resp ->
  (Http.StatusCode resp <> 200%Z ->
   archiveWebsite W BasePath fuel websiteURL
   = Some (Err (HTTPError (Http.StatusCode resp)), []))
  /\ (Http.StatusCode resp = 200%Z ->
      forall code ev,
        archiveWebsite W BasePath fuel websiteURL
        <> Some (Err (HTTPError code), ev)).
Proof.
  intros Hp Hg. unfold archiveWebsite. rewrite Hp, Hg. split.
  - intros Hs. apply Z.eqb_neq in Hs. now rewrite Hs.
  - intros Hs code ev. rewrite Hs. cbn.
    destruct (Http.ReadAll resp) as [[html|]|]; try discriminate.
    destruct (os_MkdirAll W _); cbn; try discriminate.
    destruct (inlineAllResources W fuel html websiteURL); try discriminate.
    destruct (os_WriteFile W _ _); cbn; discriminate.
Qed.

Lemma top_level_status_must_be_200_witness :
  archiveWebsite missing_image_world "/notes" 1 "http://h.test/"
  <> Some (Err (HTTPError 200), []).
Proof.
  refine (proj2 (@top_level_status_must_be_200 missing_image_world "/notes" 1
                   "http://h.test/" h_test _ _ _) _ 200%Z []);
    reflexivity.
Defined.






(** C6, as the specification has it, fails: the requests carry no timeout,
    and the download from a peer that never answers does not return. *)
Lemma silent_peer_is_awaited_for_ever :
  downloadResource silent_world "http://h.test/s.css" = None
  /\ downloadAndEncodeImage silent_world "http://h.test/a.png" = None.
Proof. split; reflexivity. Qed.

(** C6, amended: every sub-resource download reads the body through a
    bounded reader: whenever the peer answers, [downloadResource] returns at
    most 5 MiB and [downloadAndEncodeImage] returns nothing or the data URI of
    at most 1 MiB of the body; no request carries a timeout: when [http.Get]
    gets no answer the download does not return. *)
Theorem downloads_are_bounded_not_timed (W : World) (url : string) :
  (answers W url ->
   exists content,
     downloadResource W url = Some content
     /\ (lengthN content <= 5 * 1024 * 1024)%N)
  /\ (answers W url ->
      exists uri,
        downloadAndEncodeImage W url = Some uri
        /\ (uri = ""
            \/ exists contentType data,
                 (lengthN data <= 1 * 1024 * 1024)%N
                 /\ uri = "data:" ++ contentType ++ ";base64,"
                          ++ Base64.EncodeToString data))
  /\ (http_Get W url = Http.Hangs ->
      downloadResource W url = None /\ downloadAndEncodeImage W url = None).
Proof.
  unfold answers, downloadResource, downloadAndEncodeImage, Http.ReadAllLimited,
    Http.at_end, maxSize, maxImageSize.
  destruct (http_Get W url) as [| |resp].
  - split; [|split]; [intros _| intros _ | discriminate].
    + exists "". split; [reflexivity | cbn; lia].
    + exists "". split; [reflexivity | now left].
  - split; [|split]; [contradiction | contradiction | now split].
  - split; [|split]; [intros He | intros He | discriminate].
    + destruct (negb _); [exists ""; split; [reflexivity | cbn; lia]|].
      destruct (N.leb_spec (5 * 1024 * 1024) (lengthN (Http.Body resp))).
      * eexists. split; [reflexivity | apply lengthN_takeN].
      * destruct (Http.BodyEnd_ resp); [| |contradiction].
        -- eexists. split; [reflexivity | lia].
        -- exists "". split; [reflexivity | cbn; lia].
    + destruct (negb _); [exists ""; split; [reflexivity | now left]|].
      destruct (N.leb_spec (1 * 1024 * 1024) (lengthN (Http.Body resp))).
      * eexists. split; [reflexivity|]. right. do 2 eexists.
        split; [apply lengthN_takeN | reflexivity].
      * destruct (Http.BodyEnd_ resp); [| |contradiction].
        -- eexists. split; [reflexivity|]. right. do 2 eexists.
           split; [|reflexivity]. lia.
        -- exists "". split; [reflexivity | now left].
Qed.

Lemma downloads_are_bounded_not_timed_witness :
  exists content,
    downloadResource missing_image_world "http://h.test/" = Some content
    /\ (lengthN content <= 5 * 1024 * 1024)%N.
Proof.
  refine (proj1 (@downloads_are_bounded_not_timed missing_image_world
                   "http://h.test/") _).
  cbn. discriminate.
Defined.

(** C5, as the specification has it, fails: a dot is not replaced. *)
Lemma sanitizeFilename_keeps_dots :
  sanitizeFilename missing_image_world "example.com" = "example.com"
  /\ plain (sanitizeFilename missing_image_world "example.com") = false.
Proof. split; reflexivity. Qed.

(** C5, amended: for every input, [sanitizeFilename] returns a string with
    none of the bytes [< > : \x22 / \ | ? *] and no white space ([\s]), of
    length at most 50, that neither starts nor ends with an underscore. *)
Theorem sanitizeFilename_valid (W : World) (filename : string) :
  valid (sanitizeFilename W filename) = true
  /\ String.length (sanitizeFilename W filename) <= 50
  /\ first (sanitizeFilename W filename) <> Some "_"%char
  /\ last (sanitizeFilename W filename) <> Some "_"%char.
Proof.
  unfold sanitizeFilename.
  set (replaced := ReplaceAllString (unicode_word_width W) invalidRe filename "_").
  set (cut := if (50 <? String.length replaced)%nat then take 50 replaced
              else replaced).
  assert (Hr : valid replaced = true).
  { unfold replaced, ReplaceAllString, invalidRe, segments, valid.
    pose proof (@segments_from_Plus invalid (S (String.length filename))
                  filename false (Nat.lt_succ_diag_r _)) as [H1 H2].
    destruct (segments_from _ (Plus invalid) filename false) as [l t].
    cbn [fst snd] in *. apply join_outside; auto. }
  assert (Hc : valid cut = true /\ String.length cut <= 50).
  { unfold cut. destruct (Nat.ltb_spec 50 (String.length replaced)).
    - split; [now apply all_take | rewrite length_take; lia].
    - split; [exact Hr | lia]. }
  destruct Hc as [Hv Hl].
  repeat split.
  - now apply StringsFacts.all_Trim.
  - pose proof (StringsFacts.length_Trim ["_"%char] cut). lia.
  - intros H. apply StringsFacts.first_Trim in H. discriminate.
  - intros H. apply StringsFacts.last_Trim in H. discriminate.
Qed.

(** C7 is right and the code is not: in this tag the [src] of the image
    (the group of [imgRe]) is a data URI already, and [inlineImages]
    overwrites it.  The function means to take the value of [src] and to
    skip data URIs (its comments say so), but it takes the reference out of
    the tag with [srcRe], which finds [src='real.png'] inside
    [data-src='real.png'] first, and then replaces every match of [srcRe]
    in the tag.  (The same defect breaks C2.) *)
Lemma data_src_after_data_src_is_overwritten :
  let tag := "<img data-src='real.png' src='data:image/gif;base64,R0lGOD'>" in
  FindStringSubmatch imgRe tag = [tag; "data:image/gif;base64,R0lGOD"]
  /\ Strings.HasPrefix "data:image/gif;base64,R0lGOD" "data:" = true
  /\ inlineImages site_world tag h_test
     = Some ("<img data-src=" ++ DQ ++ "data:image/png;base64,UE5H" ++ DQ
             ++ " src=" ++ DQ ++ "data:image/png;base64,UE5H" ++ DQ ++ ">").
Proof. repeat split; reflexivity. Qed.




(** C10, as the specification has it, fails: this page has no [<body>] tag,
    the script it loads writes one, and the banner lands in the inlined
    script. *)
Lemma banner_in_a_page_without_body :
  find bodyRe "<script src='a.js'></script>" = None
  /\ inlineAllResources site_world 1 "<script src='a.js'></script>"
       "http://h.test/"
     = Some ("<script type=" ++ DQ ++ "text/javascript" ++ DQ ++ ">" ++ NL
             ++ "/* Inlined from: http://h.test/a.js */" ++ NL
             ++ "document.write('<body>"
             ++ archiveHeader site_world "http://h.test/"
             ++ "')" ++ NL ++ "</script>").
Proof. split; reflexivity. Qed.

(** C10, amended: the banner is inserted immediately after every match of
    [<body[^>]*>] in the document as the inlining passes leave it, not just
    the first (the banner being the header with the [$] references of its
    template expanded, which is the header itself when the URL has no [$]);
    consequently, when the inlined document has no such match, the output is
    the inlined document, without a banner. *)
Theorem banner_follows_every_body_match (W : World) (fuel : nat)
  (html baseURL : string) (baseURLParsed : URL) (inlined : string) :
  url_Parse W baseURL = Some baseURLParsed ->
  inlinePasses W fuel html baseURLParsed = Some inlined ->
  let banner :=
    Expand (unicode_word_width W) bodyRe (archiveHeader W baseURL) in
  inlineAllResources W fuel html baseURL
  = Some (join (fun m => m_text m ++ banner m)
            (fst (segments bodyRe inlined)) (snd (segments bodyRe inlined)))
  /\ (no_dollar baseURL = true -> forall m, banner m = archiveHeader W baseURL)
  /\ (find bodyRe inlined = None ->
      inlineAllResources W fuel html baseURL = Some inlined).
Proof.
  intros Hp Hi banner.
  unfold inlineAllResources. rewrite Hp, Hi. repeat split.
  - unfold ReplaceAllString.
    pose proof (segments_from_matches bodyRe (S (String.length inlined))
                  inlined false) as Hm.
    fold (segments bodyRe inlined) in Hm.
    destruct (segments bodyRe inlined) as [l t]. cbn [fst snd] in *.
    f_equal. apply join_ext.
    eapply Forall_impl; [|exact Hm].
    intros [p m] H. cbn [snd] in *. now apply Expand_banner.
  - intros H m. apply expand_no_dollar. now apply no_dollar_archiveHeader.
  - intros H. unfold ReplaceAllString. now rewrite (segments_none _ _ H).
Qed.

Lemma banner_follows_every_body_match_witness :
  inlineAllResources site_world 1 "<body><p>hi</p></body>" "http://h.test/"
  = Some (join
            (fun m =>
               m_text m
               ++ Expand (unicode_word_width site_world) bodyRe
                    (archiveHeader site_world "http://h.test/") m)
            (fst (segments bodyRe "<body><p>hi</p></body>"))
            (snd (segments bodyRe "<body><p>hi</p></body>"))).
Proof.
  refine (proj1 (@banner_follows_every_body_match site_world 1
                   "<body><p>hi</p></body>" "http://h.test/" h_test
                   "<body><p>hi</p></body>" _ _));
    reflexivity.
Defined.

End Properties.

(* ================================================================== *)
(** * The matcher and the language of a pattern *)

Module MatcherFacts.

Import RegexpFacts.

Lemma strip_app (l s : string) : strip l (l ++ s) = Some s.
Proof.
  induction l as [|a l IH]; [reflexivity|].
  cbn [append strip]. now rewrite Ascii.eqb_refl.
Qed.

Lemma strip_split (l s t : string) : strip l s = Some t -> s = l ++ t.
Proof.
  revert s; induction l as [|a l IH]; intros s; cbn [strip].
  - now intros [= ->].
  - destruct s as [|b s]; [discriminate|].
    destruct (Ascii.eqb_spec a b) as [<-|]; [|discriminate].
    intros H. cbn. f_equal. now apply IH.
Qed.

(** A search that succeeds has matched a string of the language. *)
Lemma star_lang (c : cls) (s : string) :
  forall pos cs k x,
    star c s pos cs k = Some x ->
    exists u s',
      s = u ++ s' /\ all (cls_mem c) u = true
      /\ k s' (pos + String.length u) cs = Some x.
Proof.
  induction s as [|a s IH]; intros pos cs k x; cbn [star].
  - intros H. exists "", "". rewrite Nat.add_0_r. repeat split; trivial.
  - destruct (cls_mem c a) eqn:Ea.
    + destruct (star c s (S pos) cs k) as [y|] eqn:E.
      * intros [= <-]. apply IH in E as (u & s' & -> & Hu & Hk).
        exists (String a u), s'. cbn [append all String.length].
        rewrite Ea, Hu, Nat.add_succ_r. repeat split; trivial.
      * intros H. exists "", (String a s). rewrite Nat.add_0_r.
        repeat split; trivial.
    + intros H. exists "", (String a s). rewrite Nat.add_0_r.
      repeat split; trivial.
Qed.

Lemma run_lang (r : re) :
  forall s pos cs k x,
    run r s pos cs k = Some x ->
    exists u s' cs',
      s = u ++ s' /\ lang r u /\ k s' (pos + String.length u) cs' = Some x.
Proof.
  induction r as [l|c|c|c|r IH|r1 IH1 r2 IH2|r1 IH1 r2 IH2|n r IH];
    intros s pos cs k x; cbn [run lang].
  - destruct (strip l s) as [s'|] eqn:E; [|discriminate].
    intros H. apply strip_split in E. exists l, s', cs. repeat split; trivial.
  - destruct s as [|a s]; [discriminate|].
    destruct (cls_mem c a) eqn:Ea; [|discriminate].
    intros H. exists (String a ""), s, cs. cbn [String.length].
    rewrite Nat.add_1_r. repeat split; eauto.
  - intros H. apply star_lang in H as (u & s' & -> & Hu & Hk).
    exists u, s', cs. repeat split; trivial.
  - destruct s as [|a s]; [discriminate|].
    destruct (cls_mem c a) eqn:Ea; [|discriminate].
    intros H. apply star_lang in H as (u & s' & -> & Hu & Hk).
    exists (String a u), s', cs. cbn [append all String.length].
    rewrite Ea, Hu, Nat.add_succ_r. repeat split; trivial. discriminate.
  - destruct (run r s pos cs k) as [y|] eqn:E.
    + intros [= <-]. apply IH in E as (u & s' & cs' & -> & Hu & Hk).
      exists u, s', cs'. repeat split; auto.
    + intros H. exists "", s, cs. rewrite Nat.add_0_r. repeat split; auto.
  - intros H. apply IH1 in H as (u1 & s1 & cs1 & -> & Hu1 & H).
    apply IH2 in H as (u2 & s2 & cs2 & -> & Hu2 & H).
    exists (u1 ++ u2), s2, cs2. rewrite append_assoc, length_append, Nat.add_assoc.
    repeat split; eauto.
  - destruct (run r1 s pos cs k) as [y|] eqn:E.
    + intros [= <-]. apply IH1 in E as (u & s' & cs' & -> & Hu & Hk).
      exists u, s', cs'. repeat split; auto.
    + intros H. apply IH2 in H as (u & s' & cs' & -> & Hu & Hk).
      exists u, s', cs'. repeat split; auto.
  - intros H. apply IH in H as (u & s' & cs' & -> & Hu & Hk).
    eexists u, s', _. repeat split; eauto.
Qed.

(** A string of the language at the start of the subject makes the search
    succeed, if the continuation accepts what follows it. *)
Lemma star_fallback (c : cls) (s : string) :
  forall pos cs k, star c s pos cs k = None -> k s pos cs = None.
Proof.
  destruct s as [|a s]; intros pos cs k; cbn [star]; [trivial|].
  destruct (cls_mem c a); [|trivial].
  destruct (star c s (S pos) cs k); [discriminate | trivial].
Qed.

Lemma lang_star (c : cls) (u : string) :
  all (cls_mem c) u = true ->
  forall s' pos cs k,
    k s' (pos + String.length u) cs <> None ->
    star c (u ++ s') pos cs k <> None.
Proof.
  induction u as [|a u IH]; intros Hu s' pos cs k Hk.
  - cbn [append]. intros E. apply star_fallback in E.
    cbn [String.length] in Hk. now rewrite Nat.add_0_r in Hk.
  - cbn [all] in Hu. apply andb_true_iff in Hu as [Ha Hu].
    cbn [append star]. rewrite Ha.
    assert (N : star c (u ++ s') (S pos) cs k <> None).
    { apply IH; [exact Hu|]. cbn [String.length] in Hk.
      now rewrite Nat.add_succ_r in Hk. }
    destruct (star c (u ++ s') (S pos) cs k); [discriminate | contradiction].
Qed.

Lemma lang_run (r : re) :
  forall u, lang r u ->
    forall s' pos cs k,
      (forall cs', k s' (pos + String.length u) cs' <> None) ->
      run r (u ++ s') pos cs k <> None.
Proof.
  induction r as [l|c|c|c|r IH|r1 IH1 r2 IH2|r1 IH1 r2 IH2|n r IH];
    intros u Hu s' pos cs k Hk; cbn [run lang] in *.
  - subst u. rewrite strip_app. apply Hk.
  - destruct Hu as (a & -> & Ha). cbn [append]. rewrite Ha.
    specialize (Hk cs). cbn [String.length] in Hk. now rewrite Nat.add_1_r in Hk.
  - apply lang_star; [exact Hu | apply Hk].
  - destruct Hu as [Hn Hu]. destruct u as [|a u]; [contradiction|].
    cbn [all] in Hu. apply andb_true_iff in Hu as [Ha Hu].
    cbn [append]. rewrite Ha. apply lang_star; [exact Hu|].
    specialize (Hk cs). cbn [String.length] in Hk.
    now rewrite Nat.add_succ_r in Hk.
  - destruct (run r (u ++ s') pos cs k) eqn:E; [discriminate|].
    destruct Hu as [->|Hu].
    + specialize (Hk cs). cbn [String.length append] in *.
      now rewrite Nat.add_0_r in Hk.
    + exfalso. revert E. now apply IH.
  - destruct Hu as (u1 & u2 & -> & H1 & H2). rewrite append_assoc.
    apply IH1; [exact H1|]. intros cs'. apply IH2; [exact H2|].
    intros cs''. specialize (Hk cs'').
    now rewrite length_append, Nat.add_assoc in Hk.
  - destruct (run r1 (u ++ s') pos cs k) eqn:E; [discriminate|].
    destruct Hu as [Hu|Hu]; [exfalso; revert E; now apply IH1 | now apply IH2].
  - apply IH; [exact Hu|]. intros cs'. apply Hk.
Qed.

Lemma take_app_length (u s : string) : take (String.length u) (u ++ s) = u.
Proof. induction u as [|a u IH]; [now destruct s | cbn; now rewrite IH]. Qed.

Lemma drop_app_length (u s : string) : drop (String.length u) (u ++ s) = s.
Proof. induction u as [|a u IH]; [reflexivity | exact IH]. Qed.

(** The text of a match is in the language of the pattern, and the pattern
    matches every subject that starts with that text. *)
Lemma matchPrefix_lang (r : re) (s : string) (n : nat) (cs : caps) :
  matchPrefix r s = Some (n, cs) ->
  lang r (take n s) /\ s = take n s ++ drop n s /\ n <= String.length s.
Proof.
  unfold matchPrefix. intros H.
  apply run_lang in H as (u & s' & cs' & -> & Hu & Hk).
  unfold accept in Hk. injection Hk as <- _. cbn [Nat.add].
  rewrite take_app_length, drop_app_length, length_append.
  repeat split; [exact Hu | lia].
Qed.

Lemma matchPrefix_extend (r : re) (s : string) (n : nat) (cs : caps) (t : string) :
  matchPrefix r s = Some (n, cs) -> matchPrefix r (take n s ++ t) <> None.
Proof.
  intros H. apply matchPrefix_lang in H as (Hl & _ & _).
  unfold matchPrefix. apply lang_run; [exact Hl|]. discriminate.
Qed.

(** Before the match [find] returns, the pattern matches nowhere. *)
Lemma find_before (r : re) (pre : string) (x : nat * caps * string) :
  forall s, find r s = Some (pre, x) ->
    forall p1 p2 rest, s = p1 ++ p2 ++ rest -> pre = p1 ++ p2 -> p2 <> "" ->
      matchPrefix r (p2 ++ rest) = None.
Proof.
  intros s. revert pre. induction s as [|a s IH]; intros pre; cbn [find].
  - destruct (matchPrefix r "") as [[n cs]|]; [|discriminate].
    intros [= <- _] p1 p2 rest _ E. destruct p1, p2; try discriminate.
    contradiction.
  - destruct (matchPrefix r (String a s)) as [[n cs]|] eqn:M.
    + intros [= <- _] p1 p2 rest _ E. destruct p1, p2; try discriminate.
      contradiction.
    + destruct (find r s) as [[pre' x']|] eqn:F; [|discriminate].
      intros [= <- <-] p1 p2 rest Es Ep Hn.
      destruct p1 as [|b p1].
      * cbn [append] in *. destruct p2 as [|b p2]; [contradiction|].
        now rewrite <- Es.
      * cbn [append] in *. injection Es as -> ->. injection Ep as ->.
        eapply IH; eauto.
Qed.

End MatcherFacts.

(* ================================================================== *)
(** * Further facts about the archiver *)

Module ArchiverFacts.

Import NoteManager RegexpFacts MatcherFacts StringsFacts NoteManagerFacts.
Import Tables Examples.

(** ** References with a scheme that is not fetched *)

Lemma resolveURL_scheme (W : World) (baseURL : URL) (targetURL : string) :
  Strings.Contains targetURL ":" = true ->
  Strings.HasPrefix targetURL "http" = false ->
  Strings.HasPrefix targetURL "//" = false ->
  resolveURL W baseURL targetURL = "".
Proof. intros H1 H2 H3. unfold resolveURL. now rewrite H1, H2, H3. Qed.

(** ** What [archiveWebsite] leaves on the file system *)

Lemma archiveWebsite_inv (W : World) (BasePath : string) (fuel : nat)
  (websiteURL : string) (res : result ArchiveInfo) (ev : list fs_event) :
  archiveWebsite W BasePath fuel websiteURL = Some (res, ev) ->
  match res with
  | Err e =>
      (e <> SaveFailed -> existsb wrote_file ev = false)
      /\ (e = SaveFailed ->
          exists parsedURL resp htmlContent processedHTML,
            url_Parse W websiteURL = Some parsedURL
            /\ http_Get W websiteURL = Http.Responded resp
            /\ Http.StatusCode resp = 200%Z
            /\ Http.ReadAll resp = Some (Some htmlContent)
            /\ inlineAllResources W fuel htmlContent websiteURL
               = Some processedHTML
            /\ let name := archive_name W htmlContent (Host parsedURL) in
               let sitesDir := filepath_Join W [BasePath; "assets"; "sites"] in
               ev = [MkdirAll sitesDir]
               \/ exists kept,
                    os_WriteFile W (filepath_Join W [sitesDir; name])
                      processedHTML = Broken kept
                    /\ ev = [MkdirAll sitesDir;
                             WriteFile (filepath_Join W [sitesDir; name])
                               (take kept processedHTML)])
  | Ok info =>
      exists parsedURL resp htmlContent processedHTML,
        url_Parse W websiteURL = Some parsedURL
        /\ http_Get W websiteURL = Http.Responded resp
        /\ Http.StatusCode resp = 200%Z
        /\ Http.ReadAll resp = Some (Some htmlContent)
        /\ inlineAllResources W fuel htmlContent websiteURL = Some processedHTML
        /\ let name := archive_name W htmlContent (Host parsedURL) in
           let sitesDir := filepath_Join W [BasePath; "assets"; "sites"] in
           ev = [MkdirAll sitesDir;
                 WriteFile (filepath_Join W [sitesDir; name]) processedHTML]
           /\ info = {| Title := extractTitle htmlContent (Host parsedURL);
                        FilePath := filepath_Join W ["assets"; "sites"; name];
                        Timestamp := time_Now W |}
  end.
Proof.
  assert (early : forall e, e <> SaveFailed ->
            (e <> SaveFailed -> existsb wrote_file [] = false)
            /\ (e = SaveFailed ->
                exists parsedURL resp htmlContent processedHTML,
                  url_Parse W websiteURL = Some parsedURL
                  /\ http_Get W websiteURL = Http.Responded resp
                  /\ Http.StatusCode resp = 200%Z
                  /\ Http.ReadAll resp = Some (Some htmlContent)
                  /\ inlineAllResources W fuel htmlContent websiteURL
                     = Some processedHTML
                  /\ let name := archive_name W htmlContent (Host parsedURL) in
                     let sitesDir :=
                       filepath_Join W [BasePath; "assets"; "sites"] in
                     [] = [MkdirAll sitesDir]
                     \/ exists kept,
                          os_WriteFile W (filepath_Join W [sitesDir; name])
                            processedHTML = Broken kept
                          /\ [] = [MkdirAll sitesDir;
                                   WriteFile (filepath_Join W [sitesDir; name])
                                     (take kept processedHTML)]))
    by (intros e He; split; [reflexivity | contradiction]).
  unfold archiveWebsite.
  destruct (url_Parse W websiteURL) as [parsed|] eqn:Hp;
    [|intros [= <- <-]; now apply early].
  destruct (http_Get W websiteURL) as [| |resp] eqn:Hg;
    [intros [= <- <-]; now apply early | discriminate |].
  destruct (Z.eqb_spec (Http.StatusCode resp) 200) as [Hs|Hs]; cbn [negb];
    [|intros [= <- <-]; now apply early].
  destruct (Http.ReadAll resp) as [[html|]|] eqn:Hr;
    [|intros [= <- <-]; now apply early | discriminate].
  destruct (os_MkdirAll W _); cbn [negb]; [|intros [= <- <-]; now apply early].
  destruct (inlineAllResources W fuel html websiteURL) as [processed|] eqn:Hi;
    [|discriminate].
  fold (archive_name W html (Host parsed)).
  destruct (os_WriteFile W _ _) as [| |kept] eqn:Hw; intros [= <- <-].
  - exists parsed, resp, html, processed. repeat split; trivial.
  - split; [intros X; now contradiction X|]. intros _.
    exists parsed, resp, html, processed. repeat split; trivial. now left.
  - split; [intros X; now contradiction X|]. intros _.
    exists parsed, resp, html, processed. repeat split; trivial.
    right. exists kept. now split.
Qed.

(** ** Notes whose archive jobs all fail *)

Lemma processArchiveLinks_loop_all_fail (W : World) (BasePath : string)
  (fuel : nat) (matches : list string) :
  (forall tok, In tok matches ->
     exists e ev,
       archiveWebsite W BasePath fuel (Strings.TrimPrefix tok "+")
       = Some (Err e, ev)) ->
  forall content done,
    exists evs,
      processArchiveLinks_loop W BasePath fuel matches content done
      = Some (content, (done ++ evs)%list)
      /\ ((forall tok ev, In tok matches ->
             archiveWebsite W BasePath fuel (Strings.TrimPrefix tok "+")
             <> Some (Err SaveFailed, ev)) ->
          existsb wrote_file evs = false).
Proof.
  induction matches as [|tok matches IH]; intros H content done.
  - exists []. cbn. now rewrite app_nil_r.
  - destruct (H tok (or_introl eq_refl)) as (e & ev & E).
    cbn [processArchiveLinks_loop]. rewrite E.
    destruct (IH (fun t Ht => H t (or_intror Ht)) content (done ++ ev)%list)
      as (evs & -> & Hw).
    exists (ev ++ evs)%list. rewrite app_assoc. split; [reflexivity|].
    intros Hs. rewrite existsb_app, Hw, orb_false_r.
    + apply (archiveWebsite_inv _ _ _ _ E). intros ->.
      exact (Hs tok ev (or_introl eq_refl) E).
    + intros t ev' Ht. apply Hs. now right.
Qed.

(** ** The size of a Base64 encoding *)

Lemma lengthN_digit (n : N) : lengthN (Base64.digit n) = 1%N.
Proof.
  unfold Base64.digit.
  assert (H : (N.to_nat (n mod 64) < 64)%nat).
  { pose proof (N.mod_upper_bound n 64). lia. }
  revert H. generalize (N.to_nat (n mod 64)). intros i H.
  do 64 (destruct i as [|i]; [reflexivity|]). lia.
Qed.

Lemma lengthN_EncodeToString_3 (s : string) :
  lengthN (Base64.EncodeToString s) = (4 * ((lengthN s + 2) / 3))%N
  /\ (forall a,
        lengthN (Base64.EncodeToString (String a s))
        = (4 * ((lengthN (String a s) + 2) / 3))%N)
  /\ (forall a b,
        lengthN (Base64.EncodeToString (String a (String b s)))
        = (4 * ((lengthN (String a (String b s)) + 2) / 3))%N).
Proof.
  assert (step : forall n, ((N.succ (N.succ (N.succ n)) + 2) / 3
                            = (n + 2) / 3 + 1)%N).
  { intros n. replace (N.succ (N.succ (N.succ n)) + 2)%N
      with ((n + 2) + 1 * 3)%N by lia.
    now rewrite N.div_add by lia. }
  induction s as [|c s (IH0 & IH1 & IH2)].
  - repeat split; intros; cbn [Base64.EncodeToString lengthN];
      rewrite ?lengthN_append, ?lengthN_digit; reflexivity.
  - split; [apply IH1|]. split; [intros a; apply IH2|].
    intros a b. cbn [Base64.EncodeToString].
    rewrite !lengthN_append, !lengthN_digit, IH0.
    cbn [lengthN]. rewrite step. lia.
Qed.

Lemma lengthN_EncodeToString (s : string) :
  lengthN (Base64.EncodeToString s) = (4 * ((lengthN s + 2) / 3))%N.
Proof. apply lengthN_EncodeToString_3. Qed.

(** ** Names that [sanitizeFilename] leaves as they are *)

Lemma find_Plus_outside (c : cls) (s : string) :
  all (outside c) s = true -> find (Plus c) s = None.
Proof.
  induction s as [|a s IH]; cbn [find all]; rewrite matchPrefix_Plus.
  - reflexivity.
  - unfold outside at 1. destruct (cls_mem c a); [discriminate|].
    cbn [negb andb]. intros H. now rewrite IH.
Qed.

Lemma TrimLeft_id (cutset : list ascii) (s : string) :
  (forall a, first s = Some a -> mem a cutset = false) ->
  Strings.TrimLeft s cutset = s.
Proof.
  destruct s as [|a s]; [reflexivity|]. intros H.
  cbn [Strings.TrimLeft]. now rewrite (H a eq_refl).
Qed.

Lemma TrimRight_id (cutset : list ascii) (s : string) :
  (forall a, last s = Some a -> mem a cutset = false) ->
  Strings.TrimRight s cutset = s.
Proof.
  induction s as [|a s IH]; [reflexivity|]. intros H.
  cbn [Strings.TrimRight]. destruct s as [|b s].
  - cbn [Strings.TrimRight]. now rewrite (H a eq_refl).
  - rewrite IH; [reflexivity|]. intros c Hc. apply H. exact Hc.
Qed.

Lemma all_drop (p : ascii -> bool) (n : nat) (s : string) :
  all p s = true -> all p (drop n s) = true.
Proof.
  revert s; induction n as [|n IH]; intros [|a s]; simpl; trivial.
  intros H; apply andb_true_iff in H as [_ H]. now apply IH.
Qed.

Lemma all_both (p q r : ascii -> bool) (s : string) :
  (forall a, p a = true -> q a = true -> r a = true) ->
  all p s = true -> all q s = true -> all r s = true.
Proof.
  intros H. induction s as [|a s IH]; [reflexivity|]. cbn [all].
  intros Hp Hq. apply andb_true_iff in Hp as [Hp1 Hp2].
  apply andb_true_iff in Hq as [Hq1 Hq2]. now rewrite (H a Hp1 Hq1), IH.
Qed.

Lemma push_all (p : ascii -> bool) (a : ascii) x :
  p a = true ->
  Forall (fun pm : string * Match => all p (fst pm) = true) (fst x) ->
  all p (snd x) = true ->
  Forall (fun pm : string * Match => all p (fst pm) = true) (fst (push a x))
  /\ all p (snd (push a x)) = true.
Proof.
  intros Ha. destruct x as [[|[q m] l] t]; cbn [push fst snd all].
  - intros _ Ht. now rewrite Ha, Ht.
  - intros H Ht. inversion H; subst. split; [|exact Ht].
    constructor; [|assumption]. cbn [fst all] in *. now rewrite Ha.
Qed.

(** The text between the matches is text of the subject. *)
Lemma segments_from_all (r : re) (p : ascii -> bool) (fuel : nat) :
  forall (s : string) (adj : bool),
    all p s = true ->
    Forall (fun pm => all p (fst pm) = true) (fst (segments_from fuel r s adj))
    /\ all p (snd (segments_from fuel r s adj)) = true.
Proof.
  induction fuel as [|fuel IH]; intros s adj Hs; cbn [segments_from];
    [now split|].
  destruct (find r s) as [[pre [[n cs] s1]]|] eqn:E; [|now split].
  apply find_split in E. subst s. rewrite all_append in Hs.
  apply andb_true_iff in Hs as [Hp H1].
  destruct n as [|n].
  - assert (Hh : Forall (fun pm : string * Match => all p (fst pm) = true)
                   match pre with
                   | "" => if adj then [] else [(pre, MkMatch "" cs)]
                   | String _ _ => [(pre, MkMatch "" cs)]
                   end).
    { destruct pre; [destruct adj|]; repeat constructor; exact Hp. }
    destruct s1 as [|a s1]; [now split|].
    cbn [all] in H1. apply andb_true_iff in H1 as [Ha H1].
    destruct (IH s1 false H1) as [I1 I2].
    destruct (push_all p a _ Ha I1 I2) as [P1 P2].
    destruct (push a (segments_from fuel r s1 false)) as [l t].
    cbn [fst snd] in *. split; [|exact P2]. apply Forall_app. now split.
  - destruct (IH (drop (S n) s1) true (all_drop p _ _ H1)) as [I1 I2].
    destruct (segments_from fuel r (drop (S n) s1) true) as [l t].
    cbn [fst snd] in *. split; [|exact I2]. constructor; assumption.
Qed.

Lemma join_all (p : ascii -> bool) (f : Match -> string)
  (l : list (string * Match)) (t : string) :
  (forall m, all p (f m) = true) ->
  Forall (fun pm => all p (fst pm) = true) l ->
  all p t = true ->
  all p (join f l t) = true.
Proof.
  intros Hf Hl Ht. induction Hl as [|[q m] l Hq Hl IH]; [exact Ht|].
  cbn [join]. cbn [fst] in Hq. now rewrite !all_append, Hq, Hf, IH.
Qed.

Lemma TrimLeft_all (cutset : list ascii) (s : string) :
  all (fun a => mem a cutset) s = true -> Strings.TrimLeft s cutset = "".
Proof.
  induction s as [|a s IH]; [reflexivity|]. cbn [all Strings.TrimLeft].
  intros H. apply andb_true_iff in H as [-> H]. now apply IH.
Qed.

Lemma sanitizeFilename_shape (W : World) (filename : string) :
  valid (sanitizeFilename W filename) = true
  /\ String.length (sanitizeFilename W filename) <= 50
  /\ first (sanitizeFilename W filename) <> Some "_"%char
  /\ last (sanitizeFilename W filename) <> Some "_"%char.
Proof.
  unfold sanitizeFilename.
  set (replaced := ReplaceAllString (unicode_word_width W) invalidRe filename "_").
  set (cut := if (50 <? String.length replaced)%nat then take 50 replaced
              else replaced).
  assert (Hr : valid replaced = true).
  { unfold replaced, ReplaceAllString, invalidRe, segments, valid.
    pose proof (@segments_from_Plus invalid (S (String.length filename))
                  filename false (Nat.lt_succ_diag_r _)) as [H1 H2].
    destruct (segments_from _ (Plus invalid) filename false) as [l t].
    cbn [fst snd] in *. apply join_outside; auto. }
  assert (Hc : valid cut = true /\ String.length cut <= 50).
  { unfold cut. destruct (Nat.ltb_spec 50 (String.length replaced)).
    - split; [now apply all_take | rewrite length_take; lia].
    - split; [exact Hr | lia]. }
  destruct Hc as [Hv Hl].
  repeat split.
  - now apply StringsFacts.all_Trim.
  - pose proof (StringsFacts.length_Trim ["_"%char] cut). lia.
  - intros H. apply StringsFacts.first_Trim in H. discriminate.
  - intros H. apply StringsFacts.last_Trim in H. discriminate.
Qed.

Lemma mem_underscore (a : ascii) :
  mem a ["_"%char] = false <-> a <> "_"%char.
Proof.
  unfold mem. cbn [existsb]. rewrite orb_false_r.
  destruct (Ascii.eqb_spec a "_"); split; congruence.
Qed.

Lemma sanitizeFilename_fixed (W : World) (s : string) :
  valid s = true -> String.length s <= 50 ->
  first s <> Some "_"%char -> last s <> Some "_"%char ->
  sanitizeFilename W s = s.
Proof.
  intros Hv Hl Hf Hla. unfold sanitizeFilename.
  assert (R : ReplaceAllString (unicode_word_width W) invalidRe s "_" = s).
  { unfold ReplaceAllString, invalidRe.
    now rewrite (segments_none _ _ (find_Plus_outside invalid s Hv)). }
  rewrite R. destruct (Nat.ltb_spec 50 (String.length s)); [lia|].
  unfold Strings.Trim. rewrite TrimLeft_id.
  - apply TrimRight_id. intros a Ha. apply mem_underscore. congruence.
  - intros a Ha. apply mem_underscore. congruence.
Qed.

Lemma sanitizeFilename_separators (W : World) (s : string) :
  all (fun a => cls_mem invalid a || Ascii.eqb a "_") s = true ->
  sanitizeFilename W s = "".
Proof.
  intros Hs. unfold sanitizeFilename.
  set (replaced := ReplaceAllString (unicode_word_width W) invalidRe s "_").
  assert (Hr : all (fun a => mem a ["_"%char]) replaced = true).
  { unfold replaced, ReplaceAllString, invalidRe, segments.
    pose proof (@segments_from_Plus invalid (S (String.length s))
                  s false (Nat.lt_succ_diag_r _)) as [H1 H2].
    pose proof (segments_from_all (Plus invalid) _ (S (String.length s))
                  s false Hs) as [H3 H4].
    destruct (segments_from _ (Plus invalid) s false) as [l t].
    cbn [fst snd] in *.
    assert (U : forall a, outside invalid a = true ->
                          cls_mem invalid a || Ascii.eqb a "_" = true ->
                          mem a ["_"%char] = true).
    { intros a. unfold outside, mem. cbn [existsb].
      destruct (cls_mem invalid a); [discriminate|].
      cbn [negb orb]. intros _ ->. reflexivity. }
    apply join_all.
    - intros m. reflexivity.
    - rewrite Forall_forall in *. intros pm Hin.
      exact (all_both _ _ _ _ U (H1 pm Hin) (H3 pm Hin)).
    - exact (all_both _ _ _ _ U H2 H4). }
  set (cut := if (50 <? String.length replaced)%nat then take 50 replaced
              else replaced).
  assert (Hc : all (fun a => mem a ["_"%char]) cut = true).
  { unfold cut. destruct (50 <? _)%nat; [now apply all_take | exact Hr]. }
  unfold Strings.Trim. now rewrite TrimLeft_all.
Qed.

(** ** A token that occurs once *)

Lemma Replace1_at (old new rest : string) :
  forall pre,
    (forall p1 p2, pre = p1 ++ p2 -> p2 <> "" ->
       strip old (p2 ++ old ++ rest) = None) ->
    Strings.Replace1 (pre ++ old ++ rest) old new = pre ++ new ++ rest.
Proof.
  induction pre as [|a pre IH]; intros H.
  - cbn [append]. destruct (old ++ rest) eqn:E;
      cbn [Strings.Replace1]; rewrite <- E, strip_app; reflexivity.
  - cbn [append Strings.Replace1].
    change (String a (pre ++ old ++ rest)) with (String a pre ++ old ++ rest).
    rewrite (H "" (String a pre) eq_refl) by discriminate.
    f_equal. apply IH. intros p1 p2 -> Hn.
    apply (H (String a p1) p2 eq_refl Hn).
Qed.

Lemma archiveLinkRe_not_empty (s : string) (cs : caps) :
  matchPrefix archiveLinkRe s <> Some (0, cs).
Proof.
  intros H. apply matchPrefix_lang in H as (H & _).
  cbn in H. destruct H as (u1 & u2 & E & -> & _). discriminate.
Qed.

Lemma FindAllString_one (r : re) (content tok : string) :
  (forall s cs, matchPrefix r s <> Some (0, cs)) ->
  FindAllString r content = [tok] ->
  exists pre post cs,
    find r content = Some (pre, (String.length tok, cs, tok ++ post))
    /\ content = pre ++ tok ++ post
    /\ forall p1 p2, pre = p1 ++ p2 -> p2 <> "" ->
         strip tok (p2 ++ tok ++ post) = None.
Proof.
  intros Hne. unfold FindAllString, segments. cbn [segments_from].
  destruct (find r content) as [[pre [[n cs] s1]]|] eqn:E; [|discriminate].
  pose proof (find_match _ _ E) as M.
  destruct n as [|n]; [now apply Hne in M|].
  destruct (matchPrefix_lang _ _ M) as (_ & Es & Hn).
  assert (L : String.length (take (S n) s1) = S n)
    by (rewrite length_take; lia).
  revert Es L. generalize (drop (S n) s1) (take (S n) s1). intros post tk Es L.
  destruct (segments_from _ r post true) as [l t].
  cbn [fst map snd m_text]. intros [= <- _].
  exists pre, post, cs. rewrite L, <- Es.
  split; [reflexivity|]. split; [exact (find_split _ _ E)|].
  intros p1 p2 Ep Hp.
  destruct (strip tk (p2 ++ s1)) as [t'|] eqn:S1; [|reflexivity].
  apply strip_split in S1.
  assert (N : matchPrefix r (p2 ++ s1) = None).
  { apply (@find_before r _ _ _ E p1 p2 s1); [|exact Ep|exact Hp].
    rewrite (find_split _ _ E), Ep. now rewrite append_assoc. }
  rewrite S1 in N. apply (matchPrefix_extend _ _ t') in M.
  rewrite Es, <- L, take_app_length in M. contradiction.
Qed.

End ArchiverFacts.

(* ================================================================== *)
(** * Facts about the notes and their tasks *)

Module NotebookFacts.

Import Notebook.

(** ** Numbering *)

Lemma int_wrap_id (z : Z) :
  (- 2 ^ 63 <= z < 2 ^ 63)%Z -> int_wrap z = z.
Proof.
  intros H. unfold int_wrap. rewrite Z.mod_small; lia.
Qed.

Lemma note_at_number_tasks (tasks : list task_ptr) :
  forall index h, note_at (snd (number_tasks tasks index h)) = note_at h.
Proof.
  induction tasks as [|t tasks IH]; intros index h; cbn [number_tasks];
    [reflexivity|].
  now rewrite IH.
Qed.

Lemma number_tasks_app (l1 l2 : list task_ptr) :
  forall index h,
    number_tasks (l1 ++ l2) index h
    = number_tasks l2 (fst (number_tasks l1 index h))
        (snd (number_tasks l1 index h)).
Proof.
  induction l1 as [|t l1 IH]; intros index h; cbn [number_tasks app];
    [reflexivity|].
  apply IH.
Qed.

Lemma all_tasks_note_at (h h' : Heap) (ns : list note_ptr) :
  note_at h' = note_at h -> all_tasks h' ns = all_tasks h ns.
Proof. unfold all_tasks. now intros ->. Qed.

Lemma all_tasks_app (h : Heap) (l1 l2 : list note_ptr) :
  all_tasks h (l1 ++ l2) = (all_tasks h l1 ++ all_tasks h l2)%list.
Proof. apply flat_map_app. Qed.

(** The two loops number the tasks of the notes as one list. *)
Lemma number_notes_flat (ns : list note_ptr) :
  forall index h,
    number_notes ns index h = number_tasks (all_tasks h ns) index h.
Proof.
  induction ns as [|n ns IH]; intros index h; [reflexivity|].
  cbn [number_notes all_tasks flat_map]. fold (all_tasks h ns).
  rewrite number_tasks_app.
  pose proof (note_at_number_tasks (Tasks (note_at h n)) index h) as N.
  destruct (number_tasks (Tasks (note_at h n)) index h) as [i1 h1].
  cbn [fst snd] in *. rewrite IH. now rewrite (@all_tasks_note_at _ _ _ N).
Qed.

Lemma number_tasks_spec (tasks : list task_ptr) :
  forall index h,
    NoDup tasks ->
    (- 2 ^ 63 <= index)%Z ->
    (index + Z.of_nat (List.length tasks) < 2 ^ 63)%Z ->
    fst (number_tasks tasks index h)
    = (index + Z.of_nat (List.length tasks))%Z
    /\ map (Index_at (snd (number_tasks tasks index h))) tasks
       = count_from index (List.length tasks)
    /\ (forall t, ~ In t tasks ->
          Index_at (snd (number_tasks tasks index h)) t = Index_at h t).
Proof.
  induction tasks as [|t tasks IH]; intros index h Hn Hlo Hhi.
  - cbn. repeat split; trivial. lia.
  - cbn [number_tasks]. inversion Hn as [|? ? Ht Hn']; subst.
    cbn [List.length] in Hhi.
    rewrite int_wrap_id by lia.
    destruct (@IH (index + 1)%Z (set_Index h t index) Hn') as (I1 & I2 & I3);
      [lia | lia |].
    split; [rewrite I1; cbn [List.length]; lia|]. split.
    + cbn [map List.length]. rewrite I2, (I3 t Ht).
      unfold count_from. cbn [seq map set_Index Index_at].
      rewrite Nat.eqb_refl, Z.add_0_r. f_equal.
      rewrite <- seq_shift, map_map. apply map_ext. intros k. lia.
    + intros t' Hin. rewrite I3 by (intros X; apply Hin; now right).
      cbn [set_Index Index_at].
      destruct (Nat.eqb_spec t' t) as [->|]; [|reflexivity].
      exfalso. apply Hin. now left.
Qed.

Lemma count_down_spec (tasks : list task_ptr) :
  forall index,
    (index < 2 ^ 63)%Z ->
    (- 2 ^ 63 <= index - Z.of_nat (List.length tasks))%Z ->
    count_down tasks index = (index - Z.of_nat (List.length tasks))%Z.
Proof.
  induction tasks as [|t tasks IH]; intros index Hhi Hlo; cbn [count_down].
  - cbn. lia.
  - cbn [List.length] in *. rewrite int_wrap_id by lia.
    rewrite IH; lia.
Qed.

Lemma count_down_app (l1 l2 : list task_ptr) (index : Z) :
  count_down (l1 ++ l2) index = count_down l2 (count_down l1 index).
Proof.
  revert index; induction l1 as [|t l1 IH]; intros index; [reflexivity|].
  cbn [app count_down]. apply IH.
Qed.

Lemma count_down_notes_flat (h : Heap) (ns : list note_ptr) :
  forall index,
    count_down_notes ns index h = count_down (all_tasks h ns) index.
Proof.
  induction ns as [|n ns IH]; intros index; [reflexivity|].
  cbn [count_down_notes all_tasks flat_map]. fold (all_tasks h ns).
  now rewrite count_down_app, IH.
Qed.

Lemma length_count_from (from : Z) (n : nat) :
  List.length (count_from from n) = n.
Proof. unfold count_from. now rewrite length_map, length_seq. Qed.

Lemma In_count_from (from : Z) (n : nat) (i : Z) :
  In i (count_from from n) <-> (from <= i < from + Z.of_nat n)%Z.
Proof.
  unfold count_from. rewrite in_map_iff. split.
  - intros (k & <- & Hk). apply in_seq in Hk. lia.
  - intros H. exists (Z.to_nat (i - from)). split; [lia|].
    apply in_seq. lia.
Qed.

Lemma NoDup_map_inj (A B : Type) (f : A -> B) (l : list A) :
  (forall a b, f a = f b -> a = b) -> NoDup l -> NoDup (map f l).
Proof.
  intros Hf. induction 1 as [|a l Ha Hl IH]; cbn [map]; constructor; trivial.
  intros Hin. apply in_map_iff in Hin as (b & E & Hb).
  apply Hf in E. now subst b.
Qed.

Lemma NoDup_count_from (from : Z) (n : nat) : NoDup (count_from from n).
Proof.
  unfold count_from. apply NoDup_map_inj; [|apply seq_NoDup].
  intros a b. lia.
Qed.

Lemma count_from_S (from : Z) (n : nat) :
  count_from from (S n) = from :: count_from (from + 1) n.
Proof.
  unfold count_from. cbn [seq map]. rewrite Z.add_0_r. f_equal.
  rewrite <- seq_shift, map_map. apply map_ext. intros k. lia.
Qed.

Lemma count_from_app (n m : nat) :
  forall from,
    count_from from (n + m)
    = (count_from from n ++ count_from (from + Z.of_nat n) m)%list.
Proof.
  induction n as [|n IH]; intros from.
  - cbn [Nat.add]. unfold count_from at 2. cbn. now rewrite Z.add_0_r.
  - cbn [Nat.add]. rewrite !count_from_S, IH. cbn [app]. do 3 f_equal. lia.
Qed.

Lemma NoDup_app_l (A : Type) (l1 l2 : list A) : NoDup (l1 ++ l2) -> NoDup l1.
Proof.
  induction l1 as [|a l1 IH]; cbn [app]; [constructor|].
  intros H. inversion H as [|? ? Ha Hl]; subst. constructor; [|now apply IH].
  intros Hin. apply Ha, in_or_app. now left.
Qed.

Lemma NoDup_app_r (A : Type) (l1 l2 : list A) : NoDup (l1 ++ l2) -> NoDup l2.
Proof.
  induction l1 as [|a l1 IH]; cbn [app]; [trivial|].
  intros H. inversion H; subst. now apply IH.
Qed.

Lemma NoDup_app_disjoint (A : Type) (l1 l2 : list A) (a : A) :
  NoDup (l1 ++ l2) -> In a l1 -> In a l2 -> False.
Proof.
  induction l1 as [|b l1 IH]; cbn [app]; [contradiction|].
  intros H [->|H1] H2; inversion H as [|? ? Ha Hl]; subst.
  - apply Ha, in_or_app. now right.
  - now apply IH.
Qed.

Lemma NoDup_app_drop (A : Type) (l1 l2 l3 : list A) :
  NoDup (l1 ++ l2 ++ l3) -> NoDup (l1 ++ l3).
Proof.
  induction l1 as [|a l1 IH]; cbn [app].
  - apply NoDup_app_r.
  - intros H. inversion H as [|? ? Ha Hl]; subst.
    constructor; [|now apply IH].
    intros Hin. apply Ha. apply in_app_or in Hin as [Hin|Hin];
      apply in_or_app; [now left | right; apply in_or_app; now right].
Qed.

Lemma map_ext_frame (h h' : Heap) (l : list task_ptr) :
  (forall t, In t l -> Index_at h' t = Index_at h t) ->
  map (Index_at h') l = map (Index_at h) l.
Proof. intros H. apply map_ext_in. exact H. Qed.

(** ** [assignTaskIndices] *)

Lemma assignTaskIndices_spec (nm : Manager) (h : Heap) :
  NoDup (all_tasks h (notes nm)) ->
  (Z.of_nat (List.length (all_tasks h (notes nm))) < 2 ^ 63)%Z ->
  notes (fst (assignTaskIndices nm h)) = notes nm
  /\ needsSave (fst (assignTaskIndices nm h)) = needsSave nm
  /\ note_at (snd (assignTaskIndices nm h)) = note_at h
  /\ checkboxIndex (fst (assignTaskIndices nm h))
     = Z.of_nat (List.length (all_tasks h (notes nm)))
  /\ GetAllTasks (fst (assignTaskIndices nm h)) (snd (assignTaskIndices nm h))
     = count_from 0 (List.length (all_tasks h (notes nm)))
  /\ (forall t, ~ In t (all_tasks h (notes nm)) ->
        Index_at (snd (assignTaskIndices nm h)) t = Index_at h t).
Proof.
  intros Hn Hb. unfold assignTaskIndices, GetAllTasks.
  rewrite number_notes_flat.
  pose proof (note_at_number_tasks (all_tasks h (notes nm)) 0 h) as N.
  destruct (@number_tasks_spec _ 0%Z h Hn) as (S1 & S2 & S3); [lia | lia |].
  destruct (number_tasks (all_tasks h (notes nm)) 0 h) as [index h'].
  cbn [fst snd notes needsSave checkboxIndex] in *.
  rewrite (@all_tasks_note_at _ _ _ N).
  repeat split; trivial.
Qed.

Lemma unique_count_from (nm : Manager) (h : Heap) (n : nat) :
  GetAllTasks nm h = count_from 0 n ->
  checkboxIndex nm = Z.of_nat n ->
  (Z.of_nat n < 2 ^ 63)%Z ->
  unique_indices nm h.
Proof.
  intros E C B. unfold unique_indices. rewrite E, C. split.
  - apply NoDup_count_from.
  - split; [lia|]. intros i Hi. apply In_count_from in Hi. lia.
Qed.

(** ** [reassignTaskIndicesFromNote] *)

Lemma reassignTaskIndicesFromNote_spec (start : Z) (nm : Manager) (h : Heap) :
  let before :=
    List.length (all_tasks h (firstn (Z.to_nat start) (notes nm))) in
  let rest := all_tasks h (skipn (Z.to_nat start) (notes nm)) in
  let from := (checkboxIndex nm - Z.of_nat before)%Z in
  (0 <= start)%Z ->
  NoDup rest ->
  (checkboxIndex nm < 2 ^ 63)%Z ->
  (- 2 ^ 63 <= from)%Z ->
  (from + Z.of_nat (List.length rest) < 2 ^ 63)%Z ->
  exists nm' h',
    reassignTaskIndicesFromNote start nm h = Some (nm', h')
    /\ notes nm' = notes nm
    /\ needsSave nm' = needsSave nm
    /\ note_at h' = note_at h
    /\ checkboxIndex nm' = (from + Z.of_nat (List.length rest))%Z
    /\ map (Index_at h') rest = count_from from (List.length rest)
    /\ (forall t, ~ In t rest -> Index_at h' t = Index_at h t).
Proof.
  intros before rest from Hs Hn Hc Hlo Hhi.
  unfold reassignTaskIndicesFromNote.
  destruct (Z.ltb_spec start 0) as [|_]; [lia|].
  rewrite count_down_notes_flat, count_down_spec by (fold before; lia).
  fold before. fold from. rewrite number_notes_flat. fold rest.
  pose proof (note_at_number_tasks rest from h) as N.
  destruct (@number_tasks_spec _ from h Hn Hlo Hhi) as (S1 & S2 & S3).
  destruct (number_tasks rest from h) as [index h'].
  cbn [fst snd] in *. eexists _, h'. split; [reflexivity|].
  cbn [notes needsSave checkboxIndex]. repeat split; trivial.
Qed.

Lemma reassignTaskIndicesFromNote_panics (start : Z) (nm : Manager) (h : Heap) :
  (start < 0)%Z -> reassignTaskIndicesFromNote start nm h = None.
Proof.
  intros H. unfold reassignTaskIndicesFromNote.
  destruct (Z.ltb_spec start 0); [reflexivity | lia].
Qed.

(** ** [save] *)

Lemma save_spec (E : Env) (nm : Manager) (h : Heap) :
  needsSave nm = true ->
  notes (snd (save E nm h)) = notes nm
  /\ checkboxIndex (snd (save E nm h)) = checkboxIndex nm
  /\ saved (fst (save E nm h)) (snd (save E nm h))
  /\ (fst (save E nm h) = None <-> storage_SaveNotes E (notes nm) h = true).
Proof.
  intros H. unfold save, saved. rewrite H. cbn [negb].
  destruct (storage_SaveNotes E (notes nm) h); cbn [negb fst snd notes
    checkboxIndex needsSave]; repeat split; auto; try discriminate.
Qed.

(** ** Removing a note *)

Lemma nth_error_split (A : Type) (l : list A) :
  forall i x, nth_error l i = Some x -> l = (firstn i l ++ x :: skipn (S i) l)%list.
Proof.
  induction l as [|a l IH]; intros [|i] x; cbn; try discriminate.
  - now intros [= ->].
  - intros H. f_equal. now apply IH.
Qed.

Lemma nth_error_remove (A : Type) (l : list A) :
  forall i j,
    nth_error (firstn i l ++ skipn (S i) l) j
    = nth_error l (if (j <? i)%nat then j else S j).
Proof.
  induction l as [|a l IH]; intros i j.
  - rewrite firstn_nil, skipn_nil. cbn [app].
    destruct (j <? i)%nat; now destruct j.
  - destruct i as [|i]; [reflexivity|].
    destruct j as [|j]; [reflexivity|].
    cbn [firstn skipn app nth_error]. rewrite IH.
    change (S j <? S i)%nat with (j <? i)%nat.
    now destruct (j <? i)%nat.
Qed.

Lemma length_remove (A : Type) (l : list A) (i : nat) :
  (i < List.length l)%nat ->
  S (List.length (firstn i l ++ skipn (S i) l)) = List.length l.
Proof.
  intros H. rewrite length_app, length_firstn, length_skipn. lia.
Qed.

Lemma in_range (index : Z) (nm : Manager) :
  out_of_range index nm = false ->
  (0 <= index)%Z /\ (Z.to_nat index < List.length (notes nm))%nat.
Proof.
  unfold out_of_range. intros H. apply orb_false_iff in H as [H1 H2].
  apply Z.ltb_ge in H1. apply Z.leb_gt in H2. lia.
Qed.

Lemma GetNote_in_range (index : Z) (nm : Manager) :
  out_of_range index nm = false ->
  exists note,
    nth_error (notes nm) (Z.to_nat index) = Some note
    /\ GetNote index nm = inr note.
Proof.
  intros H. unfold GetNote. rewrite H.
  destruct (in_range _ _ H) as [_ Hl].
  destruct (nth_error (notes nm) (Z.to_nat index)) as [note|] eqn:E.
  - now exists note.
  - apply nth_error_None in E. lia.
Qed.

Lemma DeleteNote_spec (E : Env) (index : Z) (nm : Manager) (h : Heap) :
  out_of_range index nm = false ->
  NoDup (all_tasks h (notes nm)) ->
  (Z.of_nat (List.length (all_tasks h (notes nm))) < 2 ^ 63)%Z ->
  let i := Z.to_nat index in
  let kept := (firstn i (notes nm) ++ skipn (S i) (notes nm))%list in
  exists err nm' h',
    DeleteNote E index nm h = (err, nm', h')
    /\ notes nm' = kept
    /\ note_at h' = note_at h
    /\ checkboxIndex nm' = Z.of_nat (List.length (all_tasks h kept))
    /\ GetAllTasks nm' h' = count_from 0 (List.length (all_tasks h kept))
    /\ (Z.of_nat (List.length (all_tasks h kept)) < 2 ^ 63)%Z
    /\ saved err nm'.
Proof.
  intros Hr Hn Hb i kept. unfold DeleteNote. rewrite Hr.
  destruct (GetNote_in_range _ _ Hr) as (x & Hx & _).
  pose proof (nth_error_split _ _ Hx) as Hsplit. fold i in Hsplit.
  set (nm1 := {| notes := (firstn (Z.to_nat index) (notes nm)
                           ++ skipn (S (Z.to_nat index)) (notes nm))%list;
                 checkboxIndex := checkboxIndex nm;
                 needsSave := needsSave nm |}).
  assert (Hk : NoDup (all_tasks h kept)
               /\ (List.length (all_tasks h kept)
                   <= List.length (all_tasks h (notes nm)))%nat).
  { rewrite Hsplit in Hn |- *.
    change (x :: skipn (S i) (notes nm)) with ([x] ++ skipn (S i) (notes nm))%list
      in *.
    unfold kept. rewrite !all_tasks_app in *. split.
    - now apply NoDup_app_drop in Hn.
    - rewrite !length_app. lia. }
  destruct Hk as [Hk1 Hk2].
  destruct (@assignTaskIndices_spec nm1 h Hk1) as (A1 & A2 & A3 & A4 & A5 & A6);
    [cbn [nm1 notes]; fold i; fold kept; lia|].
  destruct (assignTaskIndices nm1 h) as [nm2 h2]. cbn [fst snd] in *.
  set (nm3 := {| notes := notes nm2; checkboxIndex := checkboxIndex nm2;
                 needsSave := true |}).
  destruct (@save_spec E nm3 h2 eq_refl) as (S1 & S2 & S3 & _).
  destruct (save E nm3 h2) as [err nm4]. cbn [fst snd] in *.
  exists err, nm4, h2. split; [reflexivity|].
  cbn [nm3 nm1 notes checkboxIndex] in *. fold i in A1, A4, A5. fold kept in A1, A4, A5.
  repeat split; try congruence; try lia.
  unfold GetAllTasks in *. rewrite S1. exact A5.
Qed.

Lemma NoDup_app_intro (A : Type) (l1 l2 : list A) :
  NoDup l1 -> NoDup l2 -> (forall a, In a l1 -> ~ In a l2) -> NoDup (l1 ++ l2).
Proof.
  induction 1 as [|a l1 Ha Hl IH]; intros H2 Hd; cbn [app]; [exact H2|].
  constructor.
  - intros Hin. apply in_app_or in Hin as [Hin|Hin]; [contradiction|].
    apply (Hd a); [now left | exact Hin].
  - apply IH; [exact H2|]. intros b Hb. apply Hd. now right.
Qed.

(** ** Adding a note *)

Lemma all_tasks_ext (h h' : Heap) (ns : list note_ptr) :
  (forall n, In n ns -> note_at h' n = note_at h n) ->
  all_tasks h' ns = all_tasks h ns.
Proof.
  induction ns as [|n ns IH]; intros H; [reflexivity|].
  cbn [all_tasks flat_map]. fold (all_tasks h ns) (all_tasks h' ns).
  rewrite IH by (intros m Hm; apply H; now right).
  now rewrite (H n (or_introl eq_refl)).
Qed.

Lemma AddNote_spec (W : World) (BasePath : string) (fuel : nat) (E : Env)
  (title content processedContent : string) (ev : list fs_event)
  (nm : Manager) (h h1 : Heap) (note : note_ptr) :
  NoteManager.processArchiveLinks W BasePath fuel content
  = Some (processedContent, ev) ->
  models_NewNote E title processedContent h = (note, h1) ->
  (forall n, In n (notes nm) -> note_at h1 n = note_at h n) ->
  (forall t, In t (all_tasks h (notes nm)) -> Index_at h1 t = Index_at h t) ->
  NoDup (Tasks (note_at h1 note)) ->
  (forall t, In t (Tasks (note_at h1 note)) ->
     ~ In t (all_tasks h (notes nm))) ->
  unique_indices nm h ->
  (checkboxIndex nm + Z.of_nat (List.length (Tasks (note_at h1 note)))
   < 2 ^ 63)%Z ->
  exists err nm' h',
    AddNote W BasePath fuel E title content nm h = Some (err, nm', h', ev)
    /\ notes nm' = note :: notes nm
    /\ note_at h' = note_at h1
    /\ checkboxIndex nm'
       = (checkboxIndex nm
          + Z.of_nat (List.length (Tasks (note_at h1 note))))%Z
    /\ GetAllTasks nm' h'
       = (count_from (checkboxIndex nm)
            (List.length (Tasks (note_at h1 note)))
          ++ GetAllTasks nm h)%list
    /\ unique_indices nm' h'
    /\ saved err nm'.
Proof.
  intros HP HN F1 F2 F3 F4 (U1 & U2 & U3) HB.
  unfold AddNote. rewrite HP, HN.
  pose proof (note_at_number_tasks (Tasks (note_at h1 note))
                (checkboxIndex nm) h1) as N.
  destruct (@number_tasks_spec _ (checkboxIndex nm) h1 F3) as (S1 & S2 & S3);
    [lia | lia |].
  destruct (number_tasks (Tasks (note_at h1 note)) (checkboxIndex nm) h1)
    as [index h2].
  cbn [fst snd] in *.
  set (nm1 := {| notes := note :: notes nm; checkboxIndex := index;
                 needsSave := true |}).
  destruct (@save_spec E nm1 h2 eq_refl) as (V1 & V2 & V3 & _).
  destruct (save E nm1 h2) as [err nm2]. cbn [fst snd] in *.
  exists err, nm2, h2. split; [reflexivity|].
  cbn [nm1 notes checkboxIndex] in *.
  assert (A : all_tasks h2 (notes nm) = all_tasks h (notes nm)).
  { rewrite (@all_tasks_note_at _ _ _ N). now apply all_tasks_ext. }
  assert (G : GetAllTasks nm2 h2
              = (count_from (checkboxIndex nm)
                   (List.length (Tasks (note_at h1 note)))
                 ++ GetAllTasks nm h)%list).
  { unfold GetAllTasks. rewrite V1. cbn [all_tasks flat_map].
    fold (all_tasks h2 (notes nm)). rewrite A, N, map_app, S2. f_equal.
    apply map_ext_in. intros t Ht. rewrite S3, F2; trivial.
    intros Hin. exact (F4 t Hin Ht). }
  repeat split; trivial; try congruence; try lia.
  - rewrite G. apply NoDup_app_intro; [apply NoDup_count_from | exact U1 |].
    intros i Hi Hi'. apply In_count_from in Hi. apply U3 in Hi'. lia.
  - rewrite G in H. apply in_app_or in H as [H|H].
    + apply In_count_from in H. lia.
    + apply U3 in H. lia.
  - rewrite G in H. rewrite V2, S1. apply in_app_or in H as [H|H].
    + apply In_count_from in H. lia.
    + apply U3 in H. lia.
Qed.

(** ** Renumbering from a note on *)

Lemma reassignTaskIndicesFromNote_repeats (start : Z) (nm : Manager) (h : Heap) :
  let pre := all_tasks h (firstn (Z.to_nat start) (notes nm)) in
  let rest := all_tasks h (skipn (Z.to_nat start) (notes nm)) in
  let from := (checkboxIndex nm - Z.of_nat (List.length pre))%Z in
  (0 <= start)%Z ->
  NoDup (all_tasks h (notes nm)) ->
  map (Index_at h) pre = count_from 0 (List.length pre) ->
  (checkboxIndex nm < 2 ^ 63)%Z ->
  (0 <= from < Z.of_nat (List.length pre))%Z ->
  rest <> [] ->
  (from + Z.of_nat (List.length rest) < 2 ^ 63)%Z ->
  exists nm' h',
    reassignTaskIndicesFromNote start nm h = Some (nm', h')
    /\ GetAllTasks nm' h'
       = (count_from 0 (List.length pre)
          ++ count_from from (List.length rest))%list
    /\ In from (count_from 0 (List.length pre))
    /\ In from (count_from from (List.length rest))
    /\ ~ NoDup (GetAllTasks nm' h').
Proof.
  intros pre rest from Hs Hn Hp Hc Hf Hr Hb.
  assert (Hall : all_tasks h (notes nm) = (pre ++ rest)%list).
  { unfold pre, rest. rewrite <- all_tasks_app. now rewrite firstn_skipn. }
  rewrite Hall in Hn.
  destruct (@reassignTaskIndicesFromNote_spec start nm h Hs)
    as (nm' & h' & R & R1 & R2 & R3 & R4 & R5 & R6);
    [now apply NoDup_app_r in Hn | exact Hc | fold pre; fold from; lia
    | fold pre; fold from; fold rest; lia |].
  fold pre from rest in R4, R5, R6.
  exists nm', h'. split; [exact R|].
  assert (G : GetAllTasks nm' h'
              = (count_from 0 (List.length pre)
                 ++ count_from from (List.length rest))%list).
  { unfold GetAllTasks. rewrite R1, (@all_tasks_note_at _ _ _ R3), Hall.
    rewrite map_app, R5. f_equal. rewrite <- Hp. apply map_ext_in.
    intros t Ht. apply R6. intros Ht'.
    exact (NoDup_app_disjoint _ _ _ Hn Ht Ht'). }
  assert (I1 : In from (count_from 0 (List.length pre)))
    by (apply In_count_from; lia).
  assert (I2 : In from (count_from from (List.length rest))).
  { apply In_count_from. destruct rest; [contradiction|]. cbn [List.length]. lia. }
  repeat split; trivial.
  rewrite G. intros N. exact (NoDup_app_disjoint _ _ _ N I1 I2).
Qed.

(** [UpdateNote], when the number of tasks of the note has changed. *)
Lemma UpdateNote_repeats (W : World) (BasePath : string) (fuel : nat)
  (E : Env) (index : Z) (title content processedContent : string)
  (ev : list fs_event) (nm : Manager) (h : Heap) (note : note_ptr) :
  let h1 := models_Update E note title processedContent h in
  let pre := all_tasks h1 (firstn (Z.to_nat index) (notes nm)) in
  let rest := all_tasks h1 (skipn (Z.to_nat index) (notes nm)) in
  let from := (checkboxIndex nm - Z.of_nat (List.length pre))%Z in
  out_of_range index nm = false ->
  NoteManager.processArchiveLinks W BasePath fuel content
  = Some (processedContent, ev) ->
  nth_error (notes nm) (Z.to_nat index) = Some note ->
  List.length (Tasks (note_at h1 note))
  <> List.length (Tasks (note_at h note)) ->
  NoDup (all_tasks h1 (notes nm)) ->
  map (Index_at h1) pre = count_from 0 (List.length pre) ->
  (checkboxIndex nm < 2 ^ 63)%Z ->
  (0 <= from < Z.of_nat (List.length pre))%Z ->
  rest <> [] ->
  (from + Z.of_nat (List.length rest) < 2 ^ 63)%Z ->
  exists err nm' h',
    UpdateNote W BasePath fuel E index title content nm h
    = Some (err, nm', h', ev)
    /\ GetAllTasks nm' h'
       = (count_from 0 (List.length pre)
          ++ count_from from (List.length rest))%list
    /\ In from (count_from 0 (List.length pre))
    /\ In from (count_from from (List.length rest))
    /\ ~ NoDup (GetAllTasks nm' h')
    /\ saved err nm'.
Proof.
  intros h1 pre rest from Hr HP Hnote Hlen Hn Hp Hc Hf Hrest Hb.
  destruct (in_range _ _ Hr) as [H0 Hl].
  destruct (@reassignTaskIndicesFromNote_repeats index nm h1 H0 Hn Hp Hc Hf
              Hrest Hb)
    as (nm1 & h2 & R & G & I1 & I2 & N).
  unfold UpdateNote. rewrite Hr, HP, Hnote. fold h1.
  destruct (Nat.eqb_spec (List.length (Tasks (note_at h1 note)))
              (List.length (Tasks (note_at h note)))) as [|_];
    [contradiction|]. cbn [negb]. rewrite R.
  set (nm2 := {| notes := notes nm1; checkboxIndex := checkboxIndex nm1;
                 needsSave := true |}).
  destruct (@save_spec E nm2 h2 eq_refl) as (V1 & V2 & V3 & _).
  destruct (save E nm2 h2) as [err nm3]. cbn [fst snd] in *.
  exists err, nm3, h2. split; [reflexivity|].
  assert (G' : GetAllTasks nm3 h2 = GetAllTasks nm1 h2)
    by (unfold GetAllTasks; now rewrite V1).
  rewrite G'. repeat split; trivial.
Qed.

(** ** Lines *)

Lemma Split_not_nil (s : string) (sep : ascii) : Split s sep <> [].
Proof.
  destruct s as [|a s]; cbn [Split]; [discriminate|].
  destruct (Ascii.eqb a sep); [discriminate|].
  destruct (Split s sep); discriminate.
Qed.

Lemma Join_cons (x : string) (l : list string) (sep : string) :
  l <> [] -> Join (x :: l) sep = x ++ sep ++ Join l sep.
Proof. destruct l; [contradiction | reflexivity]. Qed.

(** Joining the lines gives the text back. *)
Lemma Join_Split (s : string) (sep : ascii) :
  Join (Split s sep) (String sep "") = s.
Proof.
  induction s as [|a s IH]; [reflexivity|]. cbn [Split].
  destruct (Ascii.eqb_spec a sep) as [->|Hne].
  - rewrite Join_cons by apply Split_not_nil. now rewrite IH.
  - pose proof (Split_not_nil s sep) as N.
    destruct (Split s sep) as [|x l]; [contradiction|].
    rewrite <- IH. destruct l; reflexivity.
Qed.

Lemma Split_free (sep : ascii) (x : string) :
  free sep x = true -> Split x sep = [x].
Proof.
  induction x as [|a x IH]; [reflexivity|]. unfold free. cbn [all Split].
  intros H. apply andb_true_iff in H as [Ha Hx].
  apply negb_true_iff in Ha. rewrite Ha. now rewrite (IH Hx).
Qed.

Lemma Split_free_app (sep : ascii) (x rest : string) :
  free sep x = true ->
  Split (x ++ String sep rest) sep = x :: Split rest sep.
Proof.
  induction x as [|a x IH]; unfold free; cbn [all append Split].
  - now rewrite Ascii.eqb_refl.
  - intros H. apply andb_true_iff in H as [Ha Hx].
    apply negb_true_iff in Ha. rewrite Ha. now rewrite (IH Hx).
Qed.

(** Splitting lines that were joined gives the lines back. *)
Lemma Split_Join (sep : ascii) (l : list string) :
  l <> [] ->
  Forall (fun x => free sep x = true) l ->
  Split (Join l (String sep "")) sep = l.
Proof.
  intros Hn Hf. induction Hf as [|x l Hx Hl IH]; [contradiction|].
  destruct l as [|y l].
  - now apply Split_free.
  - rewrite Join_cons by discriminate. cbn [append].
    rewrite Split_free_app by exact Hx. f_equal. now apply IH.
Qed.

Lemma Split_lines_free (sep : ascii) (s : string) :
  Forall (fun x => free sep x = true) (Split s sep).
Proof.
  induction s as [|a s IH]; [repeat constructor|]. cbn [Split].
  destruct (Ascii.eqb a sep) eqn:Ea; [now constructor|].
  pose proof (Split_not_nil s sep) as N.
  destruct (Split s sep) as [|x l]; [contradiction|].
  inversion IH; subst. constructor; [|assumption].
  unfold free in *. cbn [all]. now rewrite Ea.
Qed.

(** ** Striking the lines that name a file *)

Lemma HasPrefix_app (s sub t : string) :
  Strings.HasPrefix s sub = true -> Strings.HasPrefix (s ++ t) sub = true.
Proof.
  unfold Strings.HasPrefix.
  revert s; induction sub as [|a sub IH]; intros s; [reflexivity|].
  destruct s as [|b s]; [discriminate|]. cbn [strip append].
  destruct (Ascii.eqb a b); [apply IH | discriminate].
Qed.

Lemma Contains_app_r (s sub t : string) :
  Strings.Contains s sub = true -> Strings.Contains (s ++ t) sub = true.
Proof.
  induction s as [|a s IH].
  - cbn [Strings.Contains append]. rewrite orb_false_r. intros H.
    destruct sub as [|b sub]; [|discriminate].
    destruct t; reflexivity.
  - cbn [Strings.Contains append]. intros H.
    apply orb_true_iff in H as [H|H].
    + change (String a (s ++ t)) with (String a s ++ t).
      now rewrite HasPrefix_app.
    + rewrite (IH H). apply orb_true_r.
Qed.

Lemma Contains_app_l (s sub t : string) :
  Strings.Contains s sub = true -> Strings.Contains (t ++ s) sub = true.
Proof.
  intros H. induction t as [|a t IH]; [exact H|].
  cbn [append Strings.Contains]. rewrite IH. apply orb_true_r.
Qed.

Lemma Contains_Join (l : list string) (sep sub line : string) :
  In line l -> Strings.Contains line sub = true ->
  Strings.Contains (Join l sep) sub = true.
Proof.
  intros Hin Hc. induction l as [|x l IH]; [contradiction|].
  destruct l as [|y l].
  - destruct Hin as [->|[]]. exact Hc.
  - rewrite Join_cons by discriminate. destruct Hin as [->|Hin].
    + now apply Contains_app_r.
    + apply Contains_app_l, Contains_app_l. now apply IH.
Qed.

Lemma names_file_Contains (filename content : string) :
  names_file filename content = true ->
  Strings.Contains content filename = true.
Proof.
  unfold names_file. intros H. apply existsb_exists in H as (line & Hin & Hc).
  rewrite <- (Join_Split content nl). eapply Contains_Join; eauto.
Qed.

Lemma strike_lines_same (filename content : string) :
  names_file filename content = false ->
  strike_lines filename content = content.
Proof.
  unfold names_file, strike_lines. intros H.
  rewrite <- (Join_Split content nl) at 2. change NL with (String nl "").
  f_equal. rewrite <- (map_id (Split content nl)) at 2.
  apply map_ext_in. intros line Hin. unfold strike_line.
  destruct (Strings.Contains line filename) eqn:E; [|reflexivity].
  assert (X : existsb (fun l => Strings.Contains l filename) (Split content nl)
              = true) by (apply existsb_exists; eauto).
  congruence.
Qed.

Lemma free_struck (line : string) :
  free nl line = true -> free nl (struck line) = true.
Proof.
  unfold free, struck. intros H. rewrite !all_append, H. reflexivity.
Qed.

Lemma Split_strike_lines (filename content : string) :
  Split (strike_lines filename content) nl
  = map (strike_line filename) (Split content nl).
Proof.
  unfold strike_lines. change NL with (String nl ""). apply Split_Join.
  - pose proof (Split_not_nil content nl).
    destruct (Split content nl); [contradiction | discriminate].
  - apply Forall_map. eapply Forall_impl; [|apply Split_lines_free].
    intros line Hl. unfold strike_line.
    destruct (Strings.Contains line filename); [now apply free_struck | exact Hl].
Qed.

Lemma Contains_struck (filename line : string) :
  Strings.Contains line filename = true ->
  Strings.Contains (struck line) filename = true.
Proof.
  intros H. unfold struck. now apply Contains_app_l, Contains_app_r.
Qed.

Lemma names_file_strike_lines (filename content : string) :
  names_file filename (strike_lines filename content)
  = names_file filename content.
Proof.
  unfold names_file. rewrite Split_strike_lines.
  induction (Split content nl) as [|line l IH]; [reflexivity|].
  cbn [map existsb]. rewrite IH. f_equal. unfold strike_line.
  destruct (Strings.Contains line filename) eqn:E; [|exact E].
  now apply Contains_struck.
Qed.

Lemma length_struck (line : string) :
  String.length (struck line) = 30 + String.length line.
Proof. unfold struck. rewrite !length_append. cbn [String.length]. lia. Qed.

(** ** [DeleteArchivedSite] *)

Lemma existsb_ext_In (A : Type) (f g : A -> bool) (l : list A) :
  (forall a, In a l -> f a = g a) -> existsb f l = existsb g l.
Proof.
  induction l as [|a l IH]; intros H; [reflexivity|]. cbn [existsb].
  rewrite (H a (or_introl eq_refl)), IH; [reflexivity|].
  intros b Hb. apply H. now right.
Qed.

Lemma strike_notes_spec (filename : string) (ns : list note_ptr) :
  forall changesMade h,
    NoDup ns ->
    fst (strike_notes filename ns changesMade h)
    = changesMade
      || existsb (fun n => names_file filename (Content (note_at h n))) ns
    /\ Index_at (snd (strike_notes filename ns changesMade h)) = Index_at h
    /\ (forall n, In n ns ->
          note_at (snd (strike_notes filename ns changesMade h)) n
          = struck_note filename (note_at h n))
    /\ (forall n, ~ In n ns ->
          note_at (snd (strike_notes filename ns changesMade h)) n
          = note_at h n).
Proof.
  induction ns as [|note ns IH]; intros changesMade h Hn.
  - cbn. rewrite orb_false_r. repeat split; trivial. contradiction.
  - inversion Hn as [|? ? Hnote Hns]; subst. cbn [strike_notes].
    destruct (Strings.Contains (Content (note_at h note)) filename) eqn:C.
    + set (h1 := set_Content h note
                   (strike_lines filename (Content (note_at h note)))).
      destruct (IH (changesMade
                    || names_file filename (Content (note_at h note))) h1 Hns)
        as (I1 & I2 & I3 & I4).
      assert (Other : forall n, n <> note -> note_at h1 n = note_at h n).
      { intros n Hne. cbn [h1 set_Content note_at].
        destruct (Nat.eqb_spec n note); [contradiction | reflexivity]. }
      assert (This : note_at h1 note = struck_note filename (note_at h note)).
      { cbn [h1 set_Content note_at]. now rewrite Nat.eqb_refl. }
      repeat split.
      * rewrite I1. cbn [existsb]. rewrite orb_assoc. f_equal.
        apply existsb_ext_In. intros n Hin. rewrite Other; [reflexivity|].
        intros ->. contradiction.
      * exact I2.
      * intros n [<-|Hin].
        -- rewrite I4 by exact Hnote. exact This.
        -- rewrite I3 by exact Hin. rewrite Other; [reflexivity|].
           intros ->. contradiction.
      * intros n Hin. rewrite I4 by (intros X; apply Hin; now right).
        apply Other. intros ->. apply Hin. now left.
    + destruct (IH changesMade h Hns) as (I1 & I2 & I3 & I4).
      assert (F : names_file filename (Content (note_at h note)) = false).
      { destruct (names_file filename (Content (note_at h note))) eqn:F;
          [|reflexivity].
        apply names_file_Contains in F. congruence. }
      repeat split.
      * rewrite I1. cbn [existsb]. now rewrite F.
      * exact I2.
      * intros n [<-|Hin]; [|now apply I3].
        rewrite I4 by exact Hnote. unfold struck_note.
        rewrite (strike_lines_same _ _ F). now destruct (note_at h note).
      * intros n Hin. apply I4. intros X. apply Hin. now right.
Qed.

Lemma GetNote_remove (index j : Z) (nm nm' : Manager) :
  out_of_range index nm = false ->
  notes nm'
  = (firstn (Z.to_nat index) (notes nm)
     ++ skipn (S (Z.to_nat index)) (notes nm))%list ->
  out_of_range j nm' = false ->
  GetNote j nm' = GetNote (if (j <? index)%Z then j else (j + 1)%Z) nm.
Proof.
  intros Hi Hn Hj.
  destruct (in_range _ _ Hi) as [Hi0 Hi1].
  destruct (in_range _ _ Hj) as [Hj0 Hj1].
  pose proof (length_remove (notes nm) Hi1) as L. rewrite <- Hn in L.
  assert (R : out_of_range (if (j <? index)%Z then j else (j + 1)%Z) nm = false).
  { unfold out_of_range. apply orb_false_iff.
    destruct (Z.ltb_spec j index); split;
      try (apply Z.ltb_ge; lia); apply Z.leb_gt; lia. }
  unfold GetNote. rewrite Hj, R, Hn, nth_error_remove.
  replace (Z.to_nat (if (j <? index)%Z then j else (j + 1)%Z))
    with (if (Z.to_nat j <? Z.to_nat index)%nat then Z.to_nat j
          else S (Z.to_nat j)).
  - destruct (nth_error (notes nm) _) eqn:N; [reflexivity|].
    apply nth_error_None in N.
    destruct (Nat.ltb_spec (Z.to_nat j) (Z.to_nat index)); lia.
  - destruct (Z.ltb_spec j index);
      destruct (Nat.ltb_spec (Z.to_nat j) (Z.to_nat index)); lia.
Qed.

End NotebookFacts.

(* ================================================================== *)
(** * Facts about the checkboxes of a note *)

Module RendererFacts.

Import Notebook NotebookFacts Renderer.

Lemma all_rev_onto (p : ascii -> bool) (s : string) :
  forall acc, all p (rev_onto s acc) = all p s && all p acc.
Proof.
  induction s as [|a s IH]; intros acc; cbn [rev_onto all]; [reflexivity|].
  rewrite IH. cbn [all]. now destruct (p a), (all p s), (all p acc).
Qed.

Lemma all_rev (p : ascii -> bool) (s : string) : all p (rev s) = all p s.
Proof. unfold rev. rewrite all_rev_onto. cbn [all]. apply andb_true_r. Qed.

Lemma all_strip (p : ascii -> bool) (l s t : string) :
  strip l s = Some t -> all p s = true -> all p t = true.
Proof.
  intros H. apply MatcherFacts.strip_split in H. subst s.
  rewrite all_append. intros H. now apply andb_true_iff in H.
Qed.

Lemma all_strip_any (p : ascii -> bool) (l : list string) (s t : string) :
  Strings.strip_any l s = Some t -> all p s = true -> all p t = true.
Proof.
  induction l as [|x l IH]; cbn [Strings.strip_any]; [discriminate|].
  destruct (strip x s) as [u|] eqn:E.
  - intros [= <-]. now apply (all_strip p _ _ E).
  - exact IH.
Qed.

Lemma all_trim_left_any (p : ascii -> bool) (l : list string) (fuel : nat) :
  forall s, all p s = true -> all p (Strings.trim_left_any l fuel s) = true.
Proof.
  induction fuel as [|fuel IH]; intros s H; cbn [Strings.trim_left_any];
    [exact H|].
  destruct (Strings.strip_any l s) as [t|] eqn:E; [|exact H].
  apply IH. now apply (all_strip_any p _ _ E).
Qed.

Lemma all_TrimSpace (p : ascii -> bool) (s : string) :
  all p s = true -> all p (Strings.TrimSpace s) = true.
Proof.
  intros H. unfold Strings.TrimSpace. rewrite all_rev.
  apply all_trim_left_any. rewrite all_rev. now apply all_trim_left_any.
Qed.

Lemma all_string_of_uint (p : ascii -> bool) (d : Decimal.uint) :
  (forall a, In a (bytes_of "0123456789") -> p a = true) ->
  all p (NilEmpty.string_of_uint d) = true.
Proof.
  intros H. induction d; cbn [NilEmpty.string_of_uint all]; trivial;
    rewrite IHd, andb_true_r; apply H; cbn; tauto.
Qed.

Lemma free_Itoa (z : Z) : free nl (Itoa z) = true.
Proof.
  assert (D : forall n, free nl (Time.decimal n) = true).
  { intros n. unfold free, Time.decimal. apply all_string_of_uint.
    intros a Ha. cbn in Ha.
    repeat (destruct Ha as [<-|Ha]; [reflexivity|]). contradiction. }
  unfold Itoa. destruct (z <? 0)%Z; [|apply D].
  unfold free in *. cbn [append all]. now rewrite D.
Qed.

Lemma free_group (m : Match) (i : nat) :
  free nl (m_text m) = true -> free nl (group m i) = true.
Proof.
  intros H. unfold group. destruct (lookup i (m_caps m)) as [[b e]|];
    [|reflexivity].
  apply all_take. now apply ArchiverFacts.all_drop.
Qed.

Lemma free_nth_submatches (r : re) (m : Match) (i : nat) :
  free nl (m_text m) = true -> free nl (nth i (submatches r m) "") = true.
Proof.
  intros H. unfold submatches. destruct i as [|i]; [exact H|]. cbn [nth].
  destruct (Nat.ltb_spec i (numSubexp r)).
  - rewrite (nth_indep _ "" (group m 0)) by (now rewrite length_map, length_seq).
    rewrite map_nth. now apply free_group.
  - rewrite nth_overflow by (now rewrite length_map, length_seq). reflexivity.
Qed.

Lemma free_customCheckbox (taskIndex : Z) (line : string) :
  free nl line = true ->
  free nl (customCheckbox taskIndex
             (FindStringSubmatch_at_start checkboxPattern line)) = true.
Proof.
  intros H. unfold FindStringSubmatch_at_start.
  assert (G : forall i ms,
             ms = match matchPrefix checkboxPattern line with
                  | None => []
                  | Some (n, cs) =>
                      submatches checkboxPattern (MkMatch (take n line) cs)
                  end ->
             free nl (nth i ms "") = true).
  { intros i ms ->. destruct (matchPrefix checkboxPattern line) as [[n cs]|].
    - apply free_nth_submatches. cbn [m_text]. now apply all_take.
    - now destruct i. }
  set (ms := match matchPrefix checkboxPattern line with
             | None => [] | Some (n, cs) => _ end) in *.
  unfold customCheckbox. cbv zeta.
  pose proof (G 1 ms eq_refl) as G1. pose proof (G 3 ms eq_refl) as G3.
  pose proof (free_Itoa taskIndex) as I.
  pose proof (all_TrimSpace _ _ G3) as T.
  unfold free in *. rewrite !all_append, G1, I, T.
  now destruct (String.eqb _ "x").
Qed.

Lemma number_lines_free (lines : list string) :
  forall k,
    Forall (fun x => free nl x = true) lines ->
    Forall (fun x => free nl x = true) (number_lines lines k).
Proof.
  induction lines as [|line lines IH]; intros k H; cbn [number_lines];
    [constructor|].
  inversion H; subst.
  destruct (_ =? 4)%nat; constructor; auto. now apply free_customCheckbox.
Qed.

Lemma length_number_lines (lines : list string) :
  forall k, List.length (number_lines lines k) = List.length lines.
Proof.
  induction lines as [|line lines IH]; intros k; cbn [number_lines];
    [reflexivity|].
  destruct (_ =? 4)%nat; cbn [List.length]; now rewrite IH.
Qed.

Lemma Split_preprocessCheckboxes (content : string) :
  Split (preprocessCheckboxes content) nl
  = number_lines (Split content nl) 0%Z.
Proof.
  unfold preprocessCheckboxes. change NL with (String nl "").
  apply Split_Join.
  - intros E. apply (f_equal (@List.length string)) in E.
    rewrite length_number_lines in E.
    pose proof (Split_not_nil content nl).
    destruct (Split content nl); [contradiction | discriminate].
  - apply number_lines_free, Split_lines_free.
Qed.

Lemma nth_error_number_lines (lines : list string) :
  forall k i line,
    (0 <= k)%Z ->
    (k + Z.of_nat (List.length lines) < 2 ^ 63)%Z ->
    nth_error lines i = Some line ->
    nth_error (number_lines lines k) i
    = Some (if is_checkbox line then
              customCheckbox (k + Z.of_nat (checkboxes_before i lines))
                (FindStringSubmatch_at_start checkboxPattern line)
            else line).
Proof.
  induction lines as [|x lines IH]; intros k i line H0 Hb Hn;
    [now destruct i|].
  cbn [List.length] in Hb. cbn [number_lines]. fold (is_checkbox x).
  destruct i as [|i].
  - cbn [nth_error] in Hn. injection Hn as ->.
    unfold checkboxes_before. cbn [firstn filter List.length].
    rewrite Z.add_0_r. now destruct (is_checkbox line).
  - cbn [nth_error] in Hn. unfold checkboxes_before. cbn [firstn filter].
    destruct (is_checkbox x); cbn [nth_error List.length].
    + rewrite int_wrap_id by lia. rewrite (IH _ i line) by (trivial; lia).
      replace (k + Z.of_nat (S (List.length (filter is_checkbox (firstn i lines)))))%Z
        with (k + 1 + Z.of_nat (checkboxes_before i lines))%Z
        by (unfold checkboxes_before; lia).
      reflexivity.
    + now rewrite (IH _ i line) by (trivial; lia).
Qed.

End RendererFacts.

(* ================================================================== *)
(** * The title of a page *)

Module TitleFacts.

Import NoteManager RegexpFacts MatcherFacts NotebookFacts.

(** A greedy repetition that can go on from where the class ends stops
    there. *)
Lemma star_greedy (c : cls) (u rest : string) (k : cont) x :
  all (cls_mem c) u = true ->
  forall pos cs,
    k rest (pos + String.length u) cs = Some x ->
    match rest with
    | "" => True
    | String a _ => cls_mem c a = false
    end ->
    star c (u ++ rest) pos cs k = Some x.
Proof.
  induction u as [|a u IH]; intros Hu pos cs Hk Hr.
  - cbn [append String.length] in *. rewrite Nat.add_0_r in Hk.
    destruct rest as [|b rest]; cbn [star]; [exact Hk|]. now rewrite Hr.
  - cbn [all] in Hu. apply andb_true_iff in Hu as [Ha Hu].
    cbn [append star]. rewrite Ha.
    rewrite (IH Hu (S pos) cs); [reflexivity | | exact Hr].
    cbn [String.length] in Hk. now rewrite Nat.add_succ_r in Hk.
Qed.

(** The match of [titleRe] at a title element. *)
Lemma matchPrefix_title (attrs text post : string) :
  all (cls_mem not_gt) attrs = true ->
  all (cls_mem (Class true ["<"%char])) text = true ->
  matchPrefix titleRe
    (("<title" ++ attrs ++ ">") ++ text ++ "</title>" ++ post)
  = Some (String.length ("<title" ++ attrs ++ ">") + String.length text + 8,
          [(1, (String.length ("<title" ++ attrs ++ ">"),
                String.length ("<title" ++ attrs ++ ">")
                + String.length text))]).
Proof.
  intros Ha Ht. unfold matchPrefix, titleRe. cbn [cat run].
  rewrite append_assoc. cbn [append strip]. rewrite !Ascii.eqb_refl.
  cbn [String.length Nat.add].
  rewrite append_assoc.
  apply star_greedy; [exact Ha | | reflexivity].
  cbn [append strip]. rewrite Ascii.eqb_refl.
  apply star_greedy; [exact Ht | | reflexivity].
  cbn [append strip]. rewrite !Ascii.eqb_refl. unfold accept.
  rewrite !length_append. cbn [String.length]. do 3 f_equal; lia.
Qed.

(** [find] passes the places where the pattern does not match. *)
Lemma find_skip (r : re) (rest : string) (n : nat) (cs : caps) :
  matchPrefix r rest = Some (n, cs) ->
  forall pre,
    (forall p1 p2, pre = p1 ++ p2 -> p2 <> "" ->
       matchPrefix r (p2 ++ rest) = None) ->
    find r (pre ++ rest) = Some (pre, (n, cs, rest)).
Proof.
  intros M. induction pre as [|a pre IH]; intros H.
  - cbn [append]. destruct rest; cbn [find]; now rewrite M.
  - cbn [append find].
    change (String a (pre ++ rest)) with (String a pre ++ rest).
    rewrite (H "" (String a pre) eq_refl) by discriminate.
    rewrite IH; [reflexivity|].
    intros p1 p2 -> Hp. exact (H (String a p1) p2 eq_refl Hp).
Qed.

Lemma find_nowhere (r : re) (s : string) :
  (forall p1 p2, s = p1 ++ p2 -> matchPrefix r p2 = None) ->
  find r s = None.
Proof.
  induction s as [|a s IH]; intros H.
  - cbn [find]. now rewrite (H "" "" eq_refl).
  - cbn [find]. rewrite (H "" (String a s) eq_refl).
    rewrite IH; [reflexivity|].
    intros p1 p2 ->. exact (H (String a p1) p2 eq_refl).
Qed.

(** [titleRe] matches only where [<title] stands. *)
Lemma matchPrefix_titleRe_none (s : string) :
  Strings.HasPrefix s "<title" = false -> matchPrefix titleRe s = None.
Proof.
  unfold Strings.HasPrefix, matchPrefix, titleRe. cbn [cat run].
  now destruct (strip "<title" s).
Qed.

Lemma Contains_suffix (p1 p2 sub : string) :
  Strings.Contains (p1 ++ p2) sub = false -> Strings.Contains p2 sub = false.
Proof.
  intros H. destruct (Strings.Contains p2 sub) eqn:E; [|reflexivity].
  rewrite (Contains_app_l _ _ p1 E) in H. discriminate.
Qed.

Lemma Contains_HasPrefix (s sub : string) :
  Strings.Contains s sub = false -> Strings.HasPrefix s sub = false.
Proof. destruct s; cbn [Strings.Contains]; intros H; now apply orb_false_iff in H. Qed.

(** Before a [<title] that no [<title] precedes, none begins. *)
Lemma HasPrefix_before_title (p2 rest : string) :
  p2 <> "" ->
  Strings.HasPrefix p2 "<title" = false ->
  Strings.HasPrefix (p2 ++ "<title" ++ rest) "<title" = false.
Proof.
  intros Hn. unfold Strings.HasPrefix.
  destruct p2 as [|a1 [|a2 [|a3 [|a4 [|a5 [|a6 p2]]]]]]; [contradiction|..];
    cbn [append strip]; intros H;
    repeat match goal with
      | |- context [Ascii.eqb ?x ?y] =>
          lazymatch y with
          | Ascii _ _ _ _ _ _ _ _ => fail
          | _ => destruct (Ascii.eqb x y)
          end
      end;
    try reflexivity; try discriminate H.
Qed.

Lemma find_title (pre attrs text post : string) :
  Strings.Contains pre "<title" = false ->
  all (cls_mem not_gt) attrs = true ->
  all (cls_mem (Class true ["<"%char])) text = true ->
  FindStringSubmatch titleRe
    (pre ++ "<title" ++ attrs ++ ">" ++ text ++ "</title>" ++ post)
  = ["<title" ++ attrs ++ ">" ++ text ++ "</title>"; text].
Proof.
  intros Hp Ha Ht.
  pose proof (@matchPrefix_title attrs text post Ha Ht) as M.
  set (head := "<title" ++ attrs ++ ">") in *.
  assert (E : "<title" ++ attrs ++ ">" ++ text ++ "</title>" ++ post
              = head ++ text ++ "</title>" ++ post).
  { unfold head. now rewrite !append_assoc. }
  unfold FindStringSubmatch. rewrite E.
  rewrite (@find_skip _ _ _ _ M).
  - unfold submatches. cbn [m_text numSubexp titleRe cat Nat.max seq map].
    assert (T : take (String.length head + String.length text + 8)
                  (head ++ text ++ "</title>" ++ post)
                = head ++ text ++ "</title>").
    { replace (String.length head + String.length text + 8)
        with (String.length (head ++ text ++ "</title>"))
        by (rewrite !length_append; cbn [String.length]; lia).
      rewrite <- (take_app_length (head ++ text ++ "</title>") post) at 2.
      now rewrite !append_assoc. }
    rewrite T. f_equal; [unfold head; now rewrite !append_assoc|]. f_equal.
    unfold group. cbn [m_caps lookup Nat.eqb m_text].
    rewrite drop_app_length.
    replace (String.length head + String.length text - String.length head)
      with (String.length text) by lia.
    apply take_app_length.
  - intros p1 p2 -> Hn. apply matchPrefix_titleRe_none.
    unfold head. rewrite !append_assoc.
    apply HasPrefix_before_title; [exact Hn|].
    apply Contains_HasPrefix. eapply Contains_suffix; eauto.
Qed.

Lemma find_no_title (s : string) :
  Strings.Contains s "<title" = false -> FindStringSubmatch titleRe s = [].
Proof.
  intros H. unfold FindStringSubmatch. rewrite find_nowhere; [reflexivity|].
  intros p1 p2 ->. apply matchPrefix_titleRe_none, Contains_HasPrefix.
  eapply Contains_suffix; eauto.
Qed.

End TitleFacts.

(* ================================================================== *)
(** * More properties of the code *)

Module More.

Import NoteManager RegexpFacts StringsFacts NoteManagerFacts ArchiverFacts.
Import TitleFacts Tables Examples.

(** X1: a reference that holds a colon and starts neither with [http] nor
    with [//] (as [mailto:], [tel:], [javascript:] and [data:] references
    do, and a relative path with a colon too) is never resolved, and every
    inlining function returns the text that holds it unchanged, whatever the
    network would answer. *)
Theorem reference_with_scheme_is_left_alone (W : World) (fuel : nat)
  (k : ref_kind) (baseURL : URL) (match_ : string) :
  Strings.Contains (reference k match_) ":" = true ->
  Strings.HasPrefix (reference k match_) "http" = false ->
  Strings.HasPrefix (reference k match_) "//" = false ->
  resolveURL W baseURL (reference k match_) = ""
  /\ inline W fuel k baseURL match_ = Some match_.
Proof.
  intros H1 H2 H3.
  pose proof (resolveURL_scheme W baseURL _ H1 H2 H3) as R.
  split; [exact R|].
  destruct k; cbn [inline reference] in *;
    unfold inlineCSS_link, inlineJavaScript_script, inlineImages_img,
      inlineImages_js, processCSS_import, processCSS_url, processInlineCSS_url;
    cbv zeta; rewrite ?R; cbn [String.eqb];
    repeat match goal with
      | |- context [(?a <? 2)%nat] => destruct (a <? 2)%nat
      | |- context [Strings.HasPrefix ?a "data:"] =>
          destruct (Strings.HasPrefix a "data:")
      end;
    reflexivity.
Qed.

Lemma reference_with_scheme_is_left_alone_witness :
  resolveURL site_world h_test
    (reference ScriptSrc "<script src='javascript:void(0)'></script>") = ""
  /\ inline site_world 0 ScriptSrc h_test
       "<script src='javascript:void(0)'></script>"
     = Some "<script src='javascript:void(0)'></script>".
Proof.
  apply (@reference_with_scheme_is_left_alone site_world 0 ScriptSrc h_test
           "<script src='javascript:void(0)'></script>");
    reflexivity.
Defined.



(** X3: [extractTitle] returns the text of the first title element, and
    falls back to the host.  For a document in which the first [<title] is
    followed by attributes without [>], by [>], by a text without [<] and by
    [</title>], it returns that text with the white space around it
    trimmed, or the host when nothing is left of the text; for a document
    without [<title] it returns the host. *)
Theorem extractTitle_falls_back_to_host (pre attrs text post host : string) :
  Strings.Contains pre "<title" = false ->
  all (cls_mem not_gt) attrs = true ->
  all (cls_mem (Class true ["<"%char])) text = true ->
  extractTitle
    (pre ++ "<title" ++ attrs ++ ">" ++ text ++ "</title>" ++ post) host
  = (if String.eqb (Strings.TrimSpace text) "" then host
     else Strings.TrimSpace text)
  /\ extractTitle pre host = host.
Proof.
  intros Hp Ha Ht. unfold extractTitle. cbv zeta.
  rewrite (@find_title pre attrs text post Hp Ha Ht), (@find_no_title pre Hp).
  cbn [List.length Nat.ltb Nat.leb nth andb].
  split; [|reflexivity].
  now destruct (String.eqb (Strings.TrimSpace text) "").
Qed.

Lemma extractTitle_falls_back_to_host_witness :
  extractTitle
    ("<html><head>" ++ "<title" ++ " lang='en'" ++ ">" ++ " A page "
     ++ "</title>" ++ "</head></html>") "h.test"
  = "A page"
  /\ extractTitle "<html><head>" "h.test" = "h.test".
Proof.
  exact (@extractTitle_falls_back_to_host "<html><head>" " lang='en'"
           " A page " "</head></html>" "h.test" eq_refl eq_refl eq_refl).
Defined.

(** X4: when every archive job of a note fails, [processArchiveLinks]
    returns the content as it was; and when none of the jobs failed in
    writing its file, no archive file has been written. *)
Theorem failed_jobs_leave_the_note (W : World) (BasePath : string)
  (fuel : nat) (content : string) :
  (forall tok, In tok (FindAllString archiveLinkRe content) ->
     exists e ev,
       archiveWebsite W BasePath fuel (Strings.TrimPrefix tok "+")
       = Some (Err e, ev)) ->
  exists evs,
    processArchiveLinks W BasePath fuel content = Some (content, evs)
    /\ ((forall tok ev, In tok (FindAllString archiveLinkRe content) ->
           archiveWebsite W BasePath fuel (Strings.TrimPrefix tok "+")
           <> Some (Err SaveFailed, ev)) ->
        existsb wrote_file evs = false).
Proof.
  intros H. unfold processArchiveLinks. cbv zeta.
  destruct (_ =? 0)%nat; [exists []; now split|].
  destruct (processArchiveLinks_loop_all_fail _ _ _ _ H content [])
    as (evs & E & Hw).
  exists evs. now split.
Qed.

Lemma failed_jobs_leave_the_note_witness :
  exists evs,
    processArchiveLinks prefix_world "/notes" 1 "see +http://a.test/x"
    = Some ("see +http://a.test/x", evs)
    /\ ((forall tok ev,
           In tok (FindAllString archiveLinkRe "see +http://a.test/x") ->
           archiveWebsite prefix_world "/notes" 1 (Strings.TrimPrefix tok "+")
           <> Some (Err SaveFailed, ev)) ->
        existsb wrote_file evs = false).
Proof.
  apply (@failed_jobs_leave_the_note prefix_world "/notes" 1
           "see +http://a.test/x").
  intros tok [<-|[]]. do 2 eexists. reflexivity.
Defined.

(** X5: whenever [downloadAndEncodeImage] returns a string that is not
    empty, the response had status 200 and the string is [data:], the content
    type, [;base64,] and the Base64 encoding of the body, cut after its first
    2^20 bytes: four bytes for every three bytes (or rest of them) of what
    was read, so at most 13 bytes, the content type and 1398104 bytes. *)
Theorem data_uri_size (W : World) (imageURL uri : string) :
  downloadAndEncodeImage W imageURL = Some uri ->
  uri = ""
  \/ exists resp,
       let data := takeN (Http.Body resp) (2 ^ 20) in
       http_Get W imageURL = Http.Responded resp
       /\ Http.StatusCode resp = 200%Z
       /\ (lengthN data <= 2 ^ 20)%N
       /\ uri = "data:" ++ image_content_type W imageURL resp ++ ";base64,"
                ++ Base64.EncodeToString data
       /\ lengthN uri
          = (13 + lengthN (image_content_type W imageURL resp)
             + 4 * ((lengthN data + 2) / 3))%N
       /\ (lengthN uri
           <= 13 + lengthN (image_content_type W imageURL resp) + 1398104)%N.
Proof.
  unfold downloadAndEncodeImage.
  destruct (http_Get W imageURL) as [| |resp] eqn:Hg;
    [intros [= <-]; now left | discriminate |].
  destruct (Z.eqb_spec (Http.StatusCode resp) 200) as [Hs|Hs]; cbn [negb];
    [|intros [= <-]; now left].
  fold (image_content_type W imageURL resp).
  assert (size : forall data,
             (lengthN data <= 2 ^ 20)%N ->
             lengthN ("data:" ++ image_content_type W imageURL resp
                      ++ ";base64," ++ Base64.EncodeToString data)
             = (13 + lengthN (image_content_type W imageURL resp)
                + 4 * ((lengthN data + 2) / 3))%N
             /\ (lengthN ("data:" ++ image_content_type W imageURL resp
                          ++ ";base64," ++ Base64.EncodeToString data)
                 <= 13 + lengthN (image_content_type W imageURL resp)
                    + 1398104)%N).
  { intros data Hd.
    assert (E : lengthN ("data:" ++ image_content_type W imageURL resp
                         ++ ";base64," ++ Base64.EncodeToString data)
                = (13 + lengthN (image_content_type W imageURL resp)
                   + 4 * ((lengthN data + 2) / 3))%N).
    { rewrite !lengthN_append, lengthN_EncodeToString.
      change (lengthN "data:") with 5%N. change (lengthN ";base64,") with 8%N.
      lia. }
    split; [exact E|]. rewrite E.
    assert ((lengthN data + 2) / 3 <= (2 ^ 20 + 2) / 3)%N
      by (apply N.Div0.div_le_mono; lia).
    change ((2 ^ 20 + 2) / 3)%N with 349526%N in *. lia. }
  pose proof (lengthN_takeN (Http.Body resp) (2 ^ 20)) as Hd.
  destruct (size _ Hd) as [S1 S2].
  unfold Http.ReadAllLimited, Http.at_end, maxImageSize.
  change (1 * 1024 * 1024)%N with (2 ^ 20)%N.
  destruct (N.leb_spec (2 ^ 20) (lengthN (Http.Body resp))).
  - intros [= <-]. right. exists resp. cbv zeta. repeat split; trivial.
  - destruct (Http.BodyEnd_ resp); [|intros [= <-]; now left|discriminate].
    intros [= <-]. right. exists resp. cbv zeta.
    rewrite takeN_all in * by lia. repeat split; trivial.
Qed.

Lemma data_uri_size_witness :
  "data:image/png;base64,UE5H" = ""
  \/ exists resp,
       let data := takeN (Http.Body resp) (2 ^ 20) in
       http_Get site_world "http://h.test/real.png" = Http.Responded resp
       /\ Http.StatusCode resp = 200%Z
       /\ (lengthN data <= 2 ^ 20)%N
       /\ "data:image/png;base64,UE5H"
          = "data:" ++ image_content_type site_world "http://h.test/real.png" resp
            ++ ";base64," ++ Base64.EncodeToString data
       /\ lengthN "data:image/png;base64,UE5H"
          = (13 + lengthN (image_content_type site_world
                             "http://h.test/real.png" resp)
             + 4 * ((lengthN data + 2) / 3))%N
       /\ (lengthN "data:image/png;base64,UE5H"
           <= 13 + lengthN (image_content_type site_world
                              "http://h.test/real.png" resp) + 1398104)%N.
Proof.
  apply (@data_uri_size site_world "http://h.test/real.png").
  reflexivity.
Defined.

(** X6: [downloadResource] gives a stylesheet or a script answered with
    status 200 whole when it is shorter than 5 MiB and ends, and silently
    cuts a longer one after its first 5 MiB: what is inlined then is that
    prefix. *)
Theorem resource_is_cut_at_5MiB (W : World) (resourceURL : string)
  (resp : Http.Response) :
  http_Get W resourceURL = Http.Responded resp ->
  Http.StatusCode resp = 200%Z ->
  ((lengthN (Http.Body resp) < 5 * 1024 * 1024)%N ->
   Http.BodyEnd_ resp = Http.EOF ->
   downloadResource W resourceURL = Some (Http.Body resp))
  /\ ((5 * 1024 * 1024 <= lengthN (Http.Body resp))%N ->
      downloadResource W resourceURL
      = Some (takeN (Http.Body resp) (5 * 1024 * 1024))
      /\ lengthN (takeN (Http.Body resp) (5 * 1024 * 1024))
         = (5 * 1024 * 1024)%N).
Proof.
  intros Hg Hs. unfold downloadResource, Http.ReadAllLimited, Http.at_end, maxSize.
  rewrite Hg, Hs. cbn [Z.eqb Pos.eqb negb]. split.
  - intros Hl He.
    destruct (N.leb_spec (5 * 1024 * 1024) (lengthN (Http.Body resp))); [lia|].
    now rewrite He.
  - intros Hl.
    destruct (N.leb_spec (5 * 1024 * 1024) (lengthN (Http.Body resp))); [|lia].
    split; [reflexivity | now apply lengthN_takeN_full].
Qed.

Lemma resource_is_cut_at_5MiB_witness :
  downloadResource site_world "http://h.test/a.js"
  = Some "document.write('<body>')".
Proof.
  refine (proj1 (@resource_is_cut_at_5MiB site_world "http://h.test/a.js"
                   {| Http.StatusCode := 200;
                      Http.ContentType := "text/javascript";
                      Http.Body := "document.write('<body>')";
                      Http.BodyEnd_ := Http.EOF |} _ _) _ _);
    reflexivity.
Defined.

(** X7: [sanitizeFilename] is idempotent, and the names it returns as they
    are are exactly those that hold none of the bytes it replaces, have at
    most 50 bytes and neither start nor end with an underscore. *)
Theorem sanitizeFilename_idempotent (W : World) (filename : string) :
  sanitizeFilename W (sanitizeFilename W filename) = sanitizeFilename W filename
  /\ (sanitizeFilename W filename = filename
      <-> valid filename = true
          /\ String.length filename <= 50
          /\ first filename <> Some "_"%char
          /\ last filename <> Some "_"%char).
Proof.
  pose proof (sanitizeFilename_shape W filename) as (H1 & H2 & H3 & H4).
  split; [now apply sanitizeFilename_fixed|]. split.
  - intros E. now rewrite E in H1, H2, H3, H4.
  - intros (V & L & F & La). now apply sanitizeFilename_fixed.
Qed.

(** X8: a name made only of replaced bytes and underscores (a title of
    question marks, or of white space and slashes) is sanitized to the empty
    name. *)
Theorem name_of_separators_is_empty (W : World) (filename : string) :
  all (fun a => cls_mem invalid a || Ascii.eqb a "_") filename = true ->
  sanitizeFilename W filename = "".
Proof. apply sanitizeFilename_separators. Qed.

Lemma name_of_separators_is_empty_witness :
  sanitizeFilename site_world " ?_:/ * " = "".
Proof.
  apply (@name_of_separators_is_empty site_world " ?_:/ * "). reflexivity.
Defined.

(** X9: in a note with one archive token whose job succeeds,
    [processArchiveLinks] puts the link where the token stood: the text
    before the token and the text after it are kept, and what the call
    leaves on the file system is what the job left. *)
Theorem single_token_is_replaced_in_place (W : World) (BasePath : string)
  (fuel : nat) (content tok : string) (info : ArchiveInfo)
  (ev : list fs_event) :
  FindAllString archiveLinkRe content = [tok] ->
  archiveWebsite W BasePath fuel (Strings.TrimPrefix tok "+")
  = Some (Ok info, ev) ->
  exists pre post cs,
    find archiveLinkRe content
    = Some (pre, (String.length tok, cs, tok ++ post))
    /\ content = pre ++ tok ++ post
    /\ processArchiveLinks W BasePath fuel content
       = Some (pre
               ++ ("[" ++ Title info ++ "](" ++ FilePath info
                   ++ ") (archived " ++ Time.Format_minute (Timestamp info)
                   ++ ")")
               ++ post, ev).
Proof.
  intros HF HA.
  destruct (FindAllString_one archiveLinkRe content archiveLinkRe_not_empty HF)
    as (pre & post & cs & Hfind & Hc & Hno).
  exists pre, post, cs. split; [exact Hfind|]. split; [exact Hc|].
  unfold processArchiveLinks. cbv zeta. rewrite HF.
  cbn [List.length Nat.eqb processArchiveLinks_loop]. rewrite HA.
  cbn [app]. rewrite Hc at 1. now rewrite Replace1_at.
Qed.

Lemma single_token_is_replaced_in_place_witness :
  exists pre post cs,
    find archiveLinkRe "see +http://a.test now"
    = Some (pre, (String.length "+http://a.test", cs, "+http://a.test" ++ post))
    /\ "see +http://a.test now" = pre ++ "+http://a.test" ++ post
    /\ processArchiveLinks prefix_world "/notes" 1 "see +http://a.test now"
       = Some (pre
               ++ ("[" ++ "A" ++ "]("
                   ++ "assets/sites/2024_01_01_120000_A-a.test.html"
                   ++ ") (archived " ++ Time.Format_minute Tables.noon ++ ")")
               ++ post,
               [MkdirAll "/notes/assets/sites";
                WriteFile "/notes/assets/sites/2024_01_01_120000_A-a.test.html"
                  "<html><head><title>A</title></head></html>"]).
Proof.
  apply (@single_token_is_replaced_in_place prefix_world "/notes" 1
           "see +http://a.test now" "+http://a.test"
           {| Title := "A";
              FilePath := "assets/sites/2024_01_01_120000_A-a.test.html";
              Timestamp := Tables.noon |}
           [MkdirAll "/notes/assets/sites";
            WriteFile "/notes/assets/sites/2024_01_01_120000_A-a.test.html"
              "<html><head><title>A</title></head></html>"]);
    reflexivity.
Defined.

(** X19: an inlining function returns the matched text as it was when the
    fetch of the reference it took out of that text fails: the reference
    does not resolve, [http.Get] returns an error, or the status is not 200.
    This holds for each of the seven functions (link, script, img, quoted
    image path, [@import], [url()] in a stylesheet and in a style
    attribute), for the reference that function passes to [resolveURL]. *)
Theorem match_is_kept_when_its_fetch_fails (W : World) (fuel : nat)
  (k : ref_kind) (baseURL : URL) (match_ : string) :
  fetch_fails W (resolveURL W baseURL (reference k match_)) ->
  inline W fuel k baseURL match_ = Some match_.
Proof. apply inline_fetch_fails. Qed.

Lemma match_is_kept_when_its_fetch_fails_witness :
  inline missing_image_world 0 ImgSrc h_test "<img src='/missing.png'>"
  = Some "<img src='/missing.png'>".
Proof.
  apply (@match_is_kept_when_its_fetch_fails missing_image_world 0 ImgSrc
           h_test "<img src='/missing.png'>").
  right; right. eexists. split; [reflexivity | discriminate].
Defined.

End More.

(* ================================================================== *)
(** * Properties of the notes and their tasks *)

Module MoreNotes.

Import Notebook NotebookFacts Renderer RendererFacts Tables Examples.

Ltac distinct :=
  repeat (constructor; [cbn; intuition discriminate|]); constructor.

Ltac evaluated :=
  lazymatch goal with
  | |- NoDup ?l =>
      let l' := eval vm_compute in l in change (NoDup l'); distinct
  | |- (_ <= _ < _)%Z => split; vm_compute; first [reflexivity | discriminate]
  | |- _ => vm_compute; first [reflexivity | discriminate]
  end.

Ltac conjuncts :=
  repeat match goal with |- _ /\ _ => split end.

(** X10: [assignTaskIndices] numbers the tasks by their place: when no task
    belongs to two notes (and there are fewer than 2^63 of them), the tasks
    of all notes, in the order of the notes, get the indices 0, 1, 2, ...,
    the counter is their number, no two tasks have the same index, and the
    notes and every other task are left as they were. *)
Theorem assignTaskIndices_numbers_by_place (nm : Manager) (h : Heap) :
  NoDup (all_tasks h (notes nm)) ->
  (Z.of_nat (List.length (all_tasks h (notes nm))) < 2 ^ 63)%Z ->
  let nm' := fst (assignTaskIndices nm h) in
  let h' := snd (assignTaskIndices nm h) in
  notes nm' = notes nm
  /\ note_at h' = note_at h
  /\ GetAllTasks nm' h' = count_from 0 (List.length (all_tasks h (notes nm)))
  /\ checkboxIndex nm' = Z.of_nat (List.length (all_tasks h (notes nm)))
  /\ unique_indices nm' h'
  /\ (forall t, ~ In t (all_tasks h (notes nm)) ->
        Index_at h' t = Index_at h t).
Proof.
  intros Hn Hb nm' h'.
  destruct (@assignTaskIndices_spec nm h Hn Hb) as (A1 & A2 & A3 & A4 & A5 & A6).
  conjuncts; trivial.
  now apply (@unique_count_from nm' h' _ A5 A4 Hb).
Qed.

Lemma assignTaskIndices_numbers_by_place_witness :
  GetAllTasks (fst (assignTaskIndices fresh_manager two_notes))
    (snd (assignTaskIndices fresh_manager two_notes))
  = [0; 1; 2]%Z
  /\ checkboxIndex (fst (assignTaskIndices fresh_manager two_notes)) = 3%Z.
Proof.
  assert (H1 : NoDup (all_tasks two_notes (notes fresh_manager)))
    by (cbn; distinct).
  assert (H2 : (Z.of_nat (List.length (all_tasks two_notes (notes fresh_manager)))
                < 2 ^ 63)%Z) by (cbn; lia).
  pose proof (@assignTaskIndices_numbers_by_place fresh_manager two_notes H1 H2)
    as (_ & _ & G & C & _).
  split; [exact G | exact C].
Defined.

(** X11: [reassignTaskIndicesFromNote] starts at the counter less the number
    of tasks of the notes before the start note, not at that number: the
    tasks from the start note on get the indices from there on, the counter
    ends after the last, and the tasks before the start note keep their
    index. *)
Theorem reassign_starts_at_counter_less_tasks_before (start : Z)
  (nm : Manager) (h : Heap) :
  let before :=
    List.length (all_tasks h (firstn (Z.to_nat start) (notes nm))) in
  let rest := all_tasks h (skipn (Z.to_nat start) (notes nm)) in
  let from := (checkboxIndex nm - Z.of_nat before)%Z in
  (0 <= start)%Z ->
  NoDup rest ->
  (checkboxIndex nm < 2 ^ 63)%Z ->
  (- 2 ^ 63 <= from)%Z ->
  (from + Z.of_nat (List.length rest) < 2 ^ 63)%Z ->
  exists nm' h',
    reassignTaskIndicesFromNote start nm h = Some (nm', h')
    /\ notes nm' = notes nm
    /\ needsSave nm' = needsSave nm
    /\ note_at h' = note_at h
    /\ checkboxIndex nm' = (from + Z.of_nat (List.length rest))%Z
    /\ map (Index_at h') rest = count_from from (List.length rest)
    /\ (forall t, ~ In t rest -> Index_at h' t = Index_at h t).
Proof. apply reassignTaskIndicesFromNote_spec. Qed.

Lemma reassign_starts_at_counter_less_tasks_before_witness :
  exists nm' h',
    reassignTaskIndicesFromNote 1 loaded_manager second_note_edited
    = Some (nm', h')
    /\ notes nm' = [1; 2]
    /\ needsSave nm' = false
    /\ note_at h' = note_at second_note_edited
    /\ checkboxIndex nm' = 3%Z
    /\ map (Index_at h') [20; 21] = [1; 2]%Z
    /\ (forall t, ~ In t [20; 21] ->
          Index_at h' t = Index_at second_note_edited t).
Proof.
  apply (@reassign_starts_at_counter_less_tasks_before 1 loaded_manager
           second_note_edited);
    evaluated.
Defined.

(** X12: so the renumbering can give two tasks the same index.  When the
    tasks before the start note are numbered 0, 1, 2, ... and there are more
    of them than the counter less their number (as when the notes were
    numbered by [assignTaskIndices] and the start note and the notes after
    it had fewer tasks than the notes before it), the first task of the
    start note gets an index a task before it has. *)
Theorem reassign_can_repeat_an_index (start : Z) (nm : Manager) (h : Heap) :
  let pre := all_tasks h (firstn (Z.to_nat start) (notes nm)) in
  let rest := all_tasks h (skipn (Z.to_nat start) (notes nm)) in
  let from := (checkboxIndex nm - Z.of_nat (List.length pre))%Z in
  (0 <= start)%Z ->
  NoDup (all_tasks h (notes nm)) ->
  map (Index_at h) pre = count_from 0 (List.length pre) ->
  (checkboxIndex nm < 2 ^ 63)%Z ->
  (0 <= from < Z.of_nat (List.length pre))%Z ->
  rest <> [] ->
  (from + Z.of_nat (List.length rest) < 2 ^ 63)%Z ->
  exists nm' h',
    reassignTaskIndicesFromNote start nm h = Some (nm', h')
    /\ GetAllTasks nm' h'
       = (count_from 0 (List.length pre)
          ++ count_from from (List.length rest))%list
    /\ In from (count_from 0 (List.length pre))
    /\ In from (count_from from (List.length rest))
    /\ ~ NoDup (GetAllTasks nm' h').
Proof. apply reassignTaskIndicesFromNote_repeats. Qed.

Lemma reassign_can_repeat_an_index_witness :
  exists nm' h',
    reassignTaskIndicesFromNote 1 loaded_manager second_note_edited
    = Some (nm', h')
    /\ GetAllTasks nm' h' = ([0; 1] ++ [1; 2])%Z%list
    /\ In 1%Z [0; 1]%Z
    /\ In 1%Z [1; 2]%Z
    /\ ~ NoDup (GetAllTasks nm' h').
Proof.
  apply (@reassign_can_repeat_an_index 1 loaded_manager second_note_edited);
    evaluated.
Defined.

(** X13: [UpdateNote] can leave two tasks with the same index.  When the
    update changes the number of tasks of a note, and the tasks of the notes
    before it are numbered 0, 1, 2, ... and are more than the counter less
    their number (as when the notes were numbered by their place and the
    note and the notes after it had fewer tasks than the notes before it),
    the first task of the note gets an index that a task of an earlier note
    has. *)
Theorem UpdateNote_can_repeat_an_index (W : World) (BasePath : string)
  (fuel : nat) (E : Env) (index : Z) (title content processedContent : string)
  (ev : list fs_event) (nm : Manager) (h : Heap) (note : note_ptr) :
  let h1 := models_Update E note title processedContent h in
  let pre := all_tasks h1 (firstn (Z.to_nat index) (notes nm)) in
  let rest := all_tasks h1 (skipn (Z.to_nat index) (notes nm)) in
  let from := (checkboxIndex nm - Z.of_nat (List.length pre))%Z in
  out_of_range index nm = false ->
  NoteManager.processArchiveLinks W BasePath fuel content
  = Some (processedContent, ev) ->
  nth_error (notes nm) (Z.to_nat index) = Some note ->
  List.length (Tasks (note_at h1 note))
  <> List.length (Tasks (note_at h note)) ->
  NoDup (all_tasks h1 (notes nm)) ->
  map (Index_at h1) pre = count_from 0 (List.length pre) ->
  (checkboxIndex nm < 2 ^ 63)%Z ->
  (0 <= from < Z.of_nat (List.length pre))%Z ->
  rest <> [] ->
  (from + Z.of_nat (List.length rest) < 2 ^ 63)%Z ->
  exists err nm' h',
    UpdateNote W BasePath fuel E index title content nm h
    = Some (err, nm', h', ev)
    /\ GetAllTasks nm' h'
       = (count_from 0 (List.length pre)
          ++ count_from from (List.length rest))%list
    /\ In from (count_from 0 (List.length pre))
    /\ In from (count_from from (List.length rest))
    /\ ~ NoDup (GetAllTasks nm' h')
    /\ saved err nm'.
Proof. apply UpdateNote_repeats. Qed.

Lemma UpdateNote_can_repeat_an_index_witness :
  exists err nm' h',
    UpdateNote prefix_world "/notes" 1 working 1 "read" "- [ ] book"
      loaded_manager two_notes_numbered
    = Some (err, nm', h', [])
    /\ GetAllTasks nm' h' = ([0; 1] ++ [1; 2])%Z%list
    /\ In 1%Z [0; 1]%Z
    /\ In 1%Z [1; 2]%Z
    /\ ~ NoDup (GetAllTasks nm' h')
    /\ saved err nm'.
Proof.
  apply (@UpdateNote_can_repeat_an_index prefix_world "/notes" 1 working 1
           "read" "- [ ] book" "- [ ] book" [] loaded_manager
           two_notes_numbered 2%nat);
    evaluated.
Defined.

(** X14: [DeleteNote] with an index out of range returns the error and
    changes nothing.  With an index in range it removes that note and no
    other, so that the notes after it are found one place earlier, and
    numbers the tasks of the notes that are left by their place, 0, 1, 2,
    ..., with the counter at their number (no task belonging to two notes);
    the notes are then saved, and stay marked as to save when the storage
    fails. *)
Theorem DeleteNote_removes_and_renumbers (E : Env) (index : Z)
  (nm : Manager) (h : Heap) :
  NoDup (all_tasks h (notes nm)) ->
  (Z.of_nat (List.length (all_tasks h (notes nm))) < 2 ^ 63)%Z ->
  if out_of_range index nm then
    DeleteNote E index nm h = (Some (OutOfRange index), nm, h)
    /\ GetNote index nm = inl (OutOfRange index)
  else
    exists err nm' h',
      DeleteNote E index nm h = (err, nm', h')
      /\ S (List.length (notes nm')) = List.length (notes nm)
      /\ (forall j,
            out_of_range j nm' = false ->
            GetNote j nm'
            = GetNote (if (j <? index)%Z then j else (j + 1)%Z) nm)
      /\ note_at h' = note_at h
      /\ GetAllTasks nm' h'
         = count_from 0 (List.length (all_tasks h (notes nm')))
      /\ checkboxIndex nm' = Z.of_nat (List.length (all_tasks h (notes nm')))
      /\ unique_indices nm' h'
      /\ saved err nm'.
Proof.
  intros Hn Hb. destruct (out_of_range index nm) eqn:Hr.
  - unfold DeleteNote, GetNote. now rewrite Hr.
  - destruct (@DeleteNote_spec E index nm h Hr Hn Hb)
      as (err & nm' & h' & D & D1 & D2 & D3 & D4 & D5 & D6).
    exists err, nm', h'. split; [exact D|].
    destruct (in_range _ _ Hr) as [_ Hl].
    conjuncts; trivial.
    + rewrite D1. now apply length_remove.
    + intros j Hj. now apply GetNote_remove.
    + now rewrite D1.
    + now rewrite D1.
    + rewrite <- D1 in *. now apply (@unique_count_from nm' h' _ D4 D3 D5).
Qed.

Lemma DeleteNote_removes_and_renumbers_witness :
  exists err nm' h',
    DeleteNote working 0 loaded_manager two_notes_numbered = (err, nm', h')
    /\ S (List.length (notes nm')) = 2
    /\ (forall j,
          out_of_range j nm' = false ->
          GetNote j nm'
          = GetNote (if (j <? 0)%Z then j else (j + 1)%Z) loaded_manager)
    /\ note_at h' = note_at two_notes_numbered
    /\ GetAllTasks nm' h'
       = count_from 0 (List.length (all_tasks two_notes_numbered (notes nm')))
    /\ checkboxIndex nm'
       = Z.of_nat (List.length (all_tasks two_notes_numbered (notes nm')))
    /\ unique_indices nm' h'
    /\ saved err nm'.
Proof.
  apply (@DeleteNote_removes_and_renumbers working 0 loaded_manager
           two_notes_numbered);
    evaluated.
Defined.

(** X15: [AddNote] puts the note that [models.NewNote] makes of the title
    and of the content with its archive tokens processed in front of the
    others, and gives its tasks the indices from the counter on.  When the
    new note has tasks of its own and the indices were distinct and below
    the counter, they still are, and the tasks of the other notes keep their
    index. *)
Theorem AddNote_keeps_indices_unique (W : World) (BasePath : string)
  (fuel : nat) (E : Env) (title content processedContent : string)
  (ev : list fs_event) (nm : Manager) (h h1 : Heap) (note : note_ptr) :
  NoteManager.processArchiveLinks W BasePath fuel content
  = Some (processedContent, ev) ->
  models_NewNote E title processedContent h = (note, h1) ->
  (forall n, In n (notes nm) -> note_at h1 n = note_at h n) ->
  (forall t, In t (all_tasks h (notes nm)) -> Index_at h1 t = Index_at h t) ->
  NoDup (Tasks (note_at h1 note)) ->
  (forall t, In t (Tasks (note_at h1 note)) ->
     ~ In t (all_tasks h (notes nm))) ->
  unique_indices nm h ->
  (checkboxIndex nm + Z.of_nat (List.length (Tasks (note_at h1 note)))
   < 2 ^ 63)%Z ->
  exists err nm' h',
    AddNote W BasePath fuel E title content nm h = Some (err, nm', h', ev)
    /\ notes nm' = note :: notes nm
    /\ note_at h' = note_at h1
    /\ checkboxIndex nm'
       = (checkboxIndex nm
          + Z.of_nat (List.length (Tasks (note_at h1 note))))%Z
    /\ GetAllTasks nm' h'
       = (count_from (checkboxIndex nm)
            (List.length (Tasks (note_at h1 note)))
          ++ GetAllTasks nm h)%list
    /\ unique_indices nm' h'
    /\ saved err nm'.
Proof. apply AddNote_spec. Qed.

Lemma AddNote_keeps_indices_unique_witness :
  let processedContent :=
    "see [A](assets/sites/2024_01_01_120000_A-a.test.html) (archived 2024-01-01 12:00) now" in
  let h1 :=
    snd (models_NewNote working "new" processedContent two_notes_numbered) in
  exists err nm' h',
    AddNote prefix_world "/notes" 1 working "new" "see +http://a.test now"
      loaded_manager two_notes_numbered
    = Some (err, nm', h',
            [MkdirAll "/notes/assets/sites";
             WriteFile "/notes/assets/sites/2024_01_01_120000_A-a.test.html"
               "<html><head><title>A</title></head></html>"])
    /\ notes nm' = 3%nat :: notes loaded_manager
    /\ note_at h' = note_at h1
    /\ checkboxIndex nm'
       = (checkboxIndex loaded_manager
          + Z.of_nat (List.length (Tasks (note_at h1 3%nat))))%Z
    /\ GetAllTasks nm' h'
       = (count_from (checkboxIndex loaded_manager)
            (List.length (Tasks (note_at h1 3%nat)))
          ++ GetAllTasks loaded_manager two_notes_numbered)%list
    /\ unique_indices nm' h'
    /\ saved err nm'.
Proof.
  intros processedContent h1.
  apply (@AddNote_keeps_indices_unique prefix_world "/notes" 1 working "new"
           "see +http://a.test now" processedContent
           [MkdirAll "/notes/assets/sites";
            WriteFile "/notes/assets/sites/2024_01_01_120000_A-a.test.html"
              "<html><head><title>A</title></head></html>"]
           loaded_manager two_notes_numbered h1 3%nat).
  - reflexivity.
  - reflexivity.
  - intros n [<-|[<-|[]]]; reflexivity.
  - intros t _. reflexivity.
  - evaluated.
  - intros t [<-|[]]. cbn. intuition discriminate.
  - split; [evaluated|]. split; [evaluated|].
    intros i [<-|[<-|[<-|[]]]]; evaluated.
  - evaluated.
Defined.

(** X16: [DeleteArchivedSite] changes nothing when the storage cannot delete
    the file.  When it can, every note of the manager (the notes being
    distinct) has its content rewritten with the lines that name the file
    struck, its title and its tasks kept; the other notes, the indices, the
    list of notes and the counter stay as they are; and the notes are saved
    exactly when a line of a note named the file. *)
Theorem DeleteArchivedSite_strikes_the_lines (E : Env) (filename : string)
  (nm : Manager) (h : Heap) :
  NoDup (notes nm) ->
  if storage_DeleteArchivedSite E filename then
    exists err nm' h',
      DeleteArchivedSite E filename nm h = (err, nm', h')
      /\ notes nm' = notes nm
      /\ checkboxIndex nm' = checkboxIndex nm
      /\ Index_at h' = Index_at h
      /\ (forall n, In n (notes nm) ->
            note_at h' n = struck_note filename (note_at h n))
      /\ (forall n, ~ In n (notes nm) -> note_at h' n = note_at h n)
      /\ (if existsb (fun n => names_file filename (Content (note_at h n)))
               (notes nm)
          then saved err nm'
          else err = None /\ nm' = nm)
  else DeleteArchivedSite E filename nm h = (Some DeleteFailed, nm, h).
Proof.
  intros Hn. unfold DeleteArchivedSite.
  destruct (storage_DeleteArchivedSite E filename); cbn [negb]; [|reflexivity].
  destruct (@strike_notes_spec filename (notes nm) false h Hn)
    as (S1 & S2 & S3 & S4).
  destruct (strike_notes filename (notes nm) false h) as [changesMade h1].
  cbn [fst snd orb] in *. rewrite <- S1.
  destruct changesMade.
  - set (nm1 := {| notes := notes nm; checkboxIndex := checkboxIndex nm;
                   needsSave := true |}).
    destruct (@save_spec E nm1 h1 eq_refl) as (V1 & V2 & V3 & _).
    destruct (save E nm1 h1) as [err nm2]. cbn [fst snd] in *.
    exists err, nm2, h1. conjuncts; trivial.
  - exists None, nm, h1. conjuncts; trivial.
Qed.

Lemma DeleteArchivedSite_strikes_the_lines_witness :
  exists err nm' h',
    DeleteArchivedSite working "2024_01_01_120000_A-a.test.html"
      loaded_manager two_notes_numbered
    = (err, nm', h')
    /\ notes nm' = notes loaded_manager
    /\ checkboxIndex nm' = checkboxIndex loaded_manager
    /\ Index_at h' = Index_at two_notes_numbered
    /\ (forall n, In n (notes loaded_manager) ->
          note_at h' n
          = struck_note "2024_01_01_120000_A-a.test.html"
              (note_at two_notes_numbered n))
    /\ (forall n, ~ In n (notes loaded_manager) ->
          note_at h' n = note_at two_notes_numbered n)
    /\ saved err nm'.
Proof.
  apply (@DeleteArchivedSite_strikes_the_lines working
           "2024_01_01_120000_A-a.test.html" loaded_manager two_notes_numbered).
  evaluated.
Defined.

(** X17: the rewriting of a note by [DeleteArchivedSite] keeps the lines in
    their places: the result has as many lines as the content, each line
    that names the file between [~~] and [~~ _(archived link deleted)_] and
    every other line as it was.  A content without such a line is returned
    as it was, and a struck line still names the file, so it would be struck
    again. *)
Theorem struck_lines_keep_their_place (filename content : string) :
  Split (strike_lines filename content) nl
  = map (strike_line filename) (Split content nl)
  /\ (names_file filename content = false ->
      strike_lines filename content = content)
  /\ names_file filename (strike_lines filename content)
     = names_file filename content
  /\ (forall line,
        Strings.Contains line filename = true ->
        strike_line filename line = struck line
        /\ strike_line filename (strike_line filename line)
           = struck (struck line)).
Proof.
  split; [apply Split_strike_lines|].
  split; [apply strike_lines_same|].
  split; [apply names_file_strike_lines|].
  intros line H. unfold strike_line. rewrite H.
  now rewrite (Contains_struck _ _ H).
Qed.

(** X18: [preprocessCheckboxes] keeps the lines of the content in their
    places and numbers its checkbox lines from 0 on: a line that is not a
    checkbox line stays as it was, and a checkbox line becomes its prefix,
    an [<input>] whose [data-checkbox-index] and [id] carry the number of
    checkbox lines before it in this content, and its text trimmed. *)
Theorem checkboxes_are_numbered_within_the_content (content : string) :
  (Z.of_nat (List.length (Split content nl)) < 2 ^ 63)%Z ->
  List.length (Split (preprocessCheckboxes content) nl)
  = List.length (Split content nl)
  /\ forall i line,
       nth_error (Split content nl) i = Some line ->
       nth_error (Split (preprocessCheckboxes content) nl) i
       = Some (if is_checkbox line then
                 customCheckbox
                   (Z.of_nat (checkboxes_before i (Split content nl)))
                   (FindStringSubmatch_at_start checkboxPattern line)
               else line).
Proof.
  intros Hb. rewrite Split_preprocessCheckboxes. split.
  - apply length_number_lines.
  - intros i line Hn.
    now rewrite (@nth_error_number_lines _ 0%Z i line) by (trivial; lia).
Qed.

Lemma checkboxes_are_numbered_within_the_content_witness :
  let content := "- [ ] milk" ++ NL ++ "notes" ++ NL ++ "- [x] eggs" in
  List.length (Split (preprocessCheckboxes content) nl)
  = List.length (Split content nl)
  /\ forall i line,
       nth_error (Split content nl) i = Some line ->
       nth_error (Split (preprocessCheckboxes content) nl) i
       = Some (if is_checkbox line then
                 customCheckbox
                   (Z.of_nat (checkboxes_before i (Split content nl)))
                   (FindStringSubmatch_at_start checkboxPattern line)
               else line).
Proof.
  intros content.
  apply (@checkboxes_are_numbered_within_the_content content).
  evaluated.
Defined.

End MoreNotes.
